(** * Neuroevolution driving simulation: tile map, car agent, brain, engine

    A shallow embedding of [car.js] (class [Car]), [brain.js] (class
    [Cerebro]) and [sketch.js] (set-up, the frame loop, the generation
    manager, brain persistence, the keyboard and the HUD), followed by the
    properties of the specification that were settled against it and by
    further properties of the code.  The drawing calls of p5.js ([show],
    [drawMap]) and the static file server ([server.js]) have no state of
    their own and are not part of the model.

    Modelling conventions.
    - A JavaScript number is an exact rational ([Q]); counters that are only
      ever incremented from [0] are integers ([Z]).  Rounding of IEEE doubles
      and the values NaN and Infinity are outside the model.
    - Functions of p5.js, TensorFlow.js and [Math] that have no rational
      counterpart ([sqrt], [cos], [sin], the forward pass of the network,
      the random source) are variables of the section: every theorem holds
      for all of them.
    - The globals [mapa] and [tileSize] come from [mapa_gerado.js], which is
      generated; they are variables of the section too.
    - A method that can raise returns a [Result]; a method that also assigns
      fields of [this] is a function [Car -> Result (A * Car)].
    - [localStorage] holds at most the entry ['bestBrain'], kept parsed:
      [JSON.parse] gives back the arrays of numbers that [JSON.stringify]
      was given. *)

From Stdlib Require Import QArith Qminmax Qround Lqa Sorted.
From stdpp Require Import gmap list strings.

Set Warnings "-clear-no-such-hyp".

Open Scope Q_scope.

(** ** Exceptions *)

Inductive Error :=
  | TypeError      (* property access on [undefined] *)
  | ValueError     (* raised by TensorFlow.js on inconsistent shapes *)
  | LoopBudget.    (* a [while] loop ran past the iteration bound of the model *)

Inductive Result (A : Type) :=
  | Ok (a : A)
  | Throw (e : Error).
Arguments Ok {A} a.
Arguments Throw {A} e.

Definition bind {A B} (m : Result A) (k : A -> Result B) : Result B :=
  match m with
  | Ok a => k a
  | Throw e => Throw e
  end.

Notation "'let*' p ':=' m 'in' k" := (bind m (fun p => k))
  (at level 10, p pattern, m at level 100, k at level 200).

Fixpoint mapM {A B} (f : A -> Result B) (l : list A) : Result (list B) :=
  match l with
  | [] => Ok []
  | a :: l' => let* b := f a in let* bs := mapM f l' in Ok (b :: bs)
  end.

(** ** JavaScript numbers and arrays *)

Definition Qltb (a b : Q) : bool := negb (Qle_bool b a).

(** [a[i]] for an integer index: [None] is [undefined]. *)
Definition index {A} (a : list A) (i : Z) : option A :=
  if (i <? 0)%Z then None else a !! Z.to_nat i.

Definition len {A} (a : list A) : Z := Z.of_nat (length a).

(** A JavaScript [Map]: keys in insertion order. *)
Module JsMap.
Section JsMap.
Context {K V : Type} `{EqDecision K}.

Definition t := list (K * V).

Fixpoint get (k : K) (m : t) : option V :=
  match m with
  | [] => None
  | (k', v) :: m' => if decide (k = k') then Some v else get k m'
  end.

Definition has (k : K) (m : t) : bool :=
  match get k m with Some _ => true | None => false end.

(** An existing key keeps its place; a new key goes last. *)
Fixpoint set (k : K) (v : V) (m : t) : t :=
  match m with
  | [] => [(k, v)]
  | (k', v') :: m' =>
      if decide (k = k') then (k, v) :: m' else (k', v') :: set k v m'
  end.

Fixpoint delete (k : K) (m : t) : t :=
  match m with
  | [] => []
  | (k', v') :: m' =>
      if decide (k = k') then m' else (k', v') :: delete k m'
  end.

Definition size (m : t) : Z := Z.of_nat (length m).

(** [m.keys().next().value] *)
Definition first_key (m : t) : option K :=
  match m with
  | [] => None
  | (k, _) :: _ => Some k
  end.
End JsMap.
End JsMap.

(** ** p5.Vector *)

Module p5.
Record Vector := createVector { x : Q; y : Q }.

Definition add (v w : Vector) : Vector :=
  createVector (x v + x w) (y v + y w).

Definition mult (v : Vector) (n : Q) : Vector :=
  createVector (x v * n) (y v * n).

Definition magSq (v : Vector) : Q := x v * x v + y v * y v.

(** [map(n, start1, stop1, start2, stop2)], without [withinBounds]. *)
Definition map (n start1 stop1 start2 stop2 : Q) : Q :=
  (n - start1) / (stop1 - start1) * (stop2 - start2) + start2.

Definition floor (n : Q) : Z := Qfloor n.
End p5.

(** ** Tensors and the network (brain.js) *)

Record Tensor := mkTensor { shape : list nat; dataSync : list Q }.

(** A [tf.Sequential] of dense layers is represented by its variables, in
    the order of [getWeights()]: kernel and bias of each layer. *)
Record Sequential := mkSequential { getWeights : list Tensor }.

Record Cerebro := mkCerebro { model : Sequential }.

(** The object written by [exportarPesos] and read by [importarPesos]. *)
Record Pesos := mkPesos { shapes : list (list nat); values : list (list Q) }.

(** ** The car (car.js) *)

Record Car := mkCar {
  x : Q;
  y : Q;
  vel : p5.Vector;
  angle : Q;
  alive : bool;
  finished : bool;
  brain : Cerebro;
  sensors : list Q;
  readings : list Q;
  score : Q;
  distanceTravelled : Q;
  lastPosition : p5.Vector;
  accumulatedSpeed : Q;
  framesAlive : Z;
  idleFrames : Z;
  collisions : Z;
  _finishCache : option (list (Z * Z));
  _distanceCache : list ((Z * Z) * Q);  (* a [Map], see [JsMap] *)
  distToFinish : Q;
  bestDist : Q
}.

Definition set_x (v : Q) (c : Car) : Car :=
  mkCar v (c.(y)) (c.(vel)) (c.(angle)) (c.(alive)) (c.(finished)) (c.(brain))
    (c.(sensors)) (c.(readings)) (c.(score)) (c.(distanceTravelled))
    (c.(lastPosition)) (c.(accumulatedSpeed)) (c.(framesAlive))
    (c.(idleFrames)) (c.(collisions)) (c.(_finishCache)) (c.(_distanceCache))
    (c.(distToFinish)) (c.(bestDist)).

Definition set_y (v : Q) (c : Car) : Car :=
  mkCar (c.(x)) v (c.(vel)) (c.(angle)) (c.(alive)) (c.(finished)) (c.(brain))
    (c.(sensors)) (c.(readings)) (c.(score)) (c.(distanceTravelled))
    (c.(lastPosition)) (c.(accumulatedSpeed)) (c.(framesAlive))
    (c.(idleFrames)) (c.(collisions)) (c.(_finishCache)) (c.(_distanceCache))
    (c.(distToFinish)) (c.(bestDist)).

Definition set_vel (v : p5.Vector) (c : Car) : Car :=
  mkCar (c.(x)) (c.(y)) v (c.(angle)) (c.(alive)) (c.(finished)) (c.(brain))
    (c.(sensors)) (c.(readings)) (c.(score)) (c.(distanceTravelled))
    (c.(lastPosition)) (c.(accumulatedSpeed)) (c.(framesAlive))
    (c.(idleFrames)) (c.(collisions)) (c.(_finishCache)) (c.(_distanceCache))
    (c.(distToFinish)) (c.(bestDist)).

Definition set_angle (v : Q) (c : Car) : Car :=
  mkCar (c.(x)) (c.(y)) (c.(vel)) v (c.(alive)) (c.(finished)) (c.(brain))
    (c.(sensors)) (c.(readings)) (c.(score)) (c.(distanceTravelled))
    (c.(lastPosition)) (c.(accumulatedSpeed)) (c.(framesAlive))
    (c.(idleFrames)) (c.(collisions)) (c.(_finishCache)) (c.(_distanceCache))
    (c.(distToFinish)) (c.(bestDist)).

Definition set_alive (v : bool) (c : Car) : Car :=
  mkCar (c.(x)) (c.(y)) (c.(vel)) (c.(angle)) v (c.(finished)) (c.(brain))
    (c.(sensors)) (c.(readings)) (c.(score)) (c.(distanceTravelled))
    (c.(lastPosition)) (c.(accumulatedSpeed)) (c.(framesAlive))
    (c.(idleFrames)) (c.(collisions)) (c.(_finishCache)) (c.(_distanceCache))
    (c.(distToFinish)) (c.(bestDist)).

Definition set_finished (v : bool) (c : Car) : Car :=
  mkCar (c.(x)) (c.(y)) (c.(vel)) (c.(angle)) (c.(alive)) v (c.(brain))
    (c.(sensors)) (c.(readings)) (c.(score)) (c.(distanceTravelled))
    (c.(lastPosition)) (c.(accumulatedSpeed)) (c.(framesAlive))
    (c.(idleFrames)) (c.(collisions)) (c.(_finishCache)) (c.(_distanceCache))
    (c.(distToFinish)) (c.(bestDist)).

Definition set_readings (v : list Q) (c : Car) : Car :=
  mkCar (c.(x)) (c.(y)) (c.(vel)) (c.(angle)) (c.(alive)) (c.(finished))
    (c.(brain)) (c.(sensors)) v (c.(score)) (c.(distanceTravelled))
    (c.(lastPosition)) (c.(accumulatedSpeed)) (c.(framesAlive))
    (c.(idleFrames)) (c.(collisions)) (c.(_finishCache)) (c.(_distanceCache))
    (c.(distToFinish)) (c.(bestDist)).

Definition set_score (v : Q) (c : Car) : Car :=
  mkCar (c.(x)) (c.(y)) (c.(vel)) (c.(angle)) (c.(alive)) (c.(finished))
    (c.(brain)) (c.(sensors)) (c.(readings)) v (c.(distanceTravelled))
    (c.(lastPosition)) (c.(accumulatedSpeed)) (c.(framesAlive))
    (c.(idleFrames)) (c.(collisions)) (c.(_finishCache)) (c.(_distanceCache))
    (c.(distToFinish)) (c.(bestDist)).

Definition set_distanceTravelled (v : Q) (c : Car) : Car :=
  mkCar (c.(x)) (c.(y)) (c.(vel)) (c.(angle)) (c.(alive)) (c.(finished))
    (c.(brain)) (c.(sensors)) (c.(readings)) (c.(score)) v (c.(lastPosition))
    (c.(accumulatedSpeed)) (c.(framesAlive)) (c.(idleFrames)) (c.(collisions))
    (c.(_finishCache)) (c.(_distanceCache)) (c.(distToFinish)) (c.(bestDist)).

Definition set_lastPosition (v : p5.Vector) (c : Car) : Car :=
  mkCar (c.(x)) (c.(y)) (c.(vel)) (c.(angle)) (c.(alive)) (c.(finished))
    (c.(brain)) (c.(sensors)) (c.(readings)) (c.(score))
    (c.(distanceTravelled)) v (c.(accumulatedSpeed)) (c.(framesAlive))
    (c.(idleFrames)) (c.(collisions)) (c.(_finishCache)) (c.(_distanceCache))
    (c.(distToFinish)) (c.(bestDist)).

Definition set_accumulatedSpeed (v : Q) (c : Car) : Car :=
  mkCar (c.(x)) (c.(y)) (c.(vel)) (c.(angle)) (c.(alive)) (c.(finished))
    (c.(brain)) (c.(sensors)) (c.(readings)) (c.(score))
    (c.(distanceTravelled)) (c.(lastPosition)) v (c.(framesAlive))
    (c.(idleFrames)) (c.(collisions)) (c.(_finishCache)) (c.(_distanceCache))
    (c.(distToFinish)) (c.(bestDist)).

Definition set_framesAlive (v : Z) (c : Car) : Car :=
  mkCar (c.(x)) (c.(y)) (c.(vel)) (c.(angle)) (c.(alive)) (c.(finished))
    (c.(brain)) (c.(sensors)) (c.(readings)) (c.(score))
    (c.(distanceTravelled)) (c.(lastPosition)) (c.(accumulatedSpeed)) v
    (c.(idleFrames)) (c.(collisions)) (c.(_finishCache)) (c.(_distanceCache))
    (c.(distToFinish)) (c.(bestDist)).

Definition set_idleFrames (v : Z) (c : Car) : Car :=
  mkCar (c.(x)) (c.(y)) (c.(vel)) (c.(angle)) (c.(alive)) (c.(finished))
    (c.(brain)) (c.(sensors)) (c.(readings)) (c.(score))
    (c.(distanceTravelled)) (c.(lastPosition)) (c.(accumulatedSpeed))
    (c.(framesAlive)) v (c.(collisions)) (c.(_finishCache))
    (c.(_distanceCache)) (c.(distToFinish)) (c.(bestDist)).

Definition set_collisions (v : Z) (c : Car) : Car :=
  mkCar (c.(x)) (c.(y)) (c.(vel)) (c.(angle)) (c.(alive)) (c.(finished))
    (c.(brain)) (c.(sensors)) (c.(readings)) (c.(score))
    (c.(distanceTravelled)) (c.(lastPosition)) (c.(accumulatedSpeed))
    (c.(framesAlive)) (c.(idleFrames)) v (c.(_finishCache))
    (c.(_distanceCache)) (c.(distToFinish)) (c.(bestDist)).

Definition set_finishCache (v : option (list (Z * Z))) (c : Car) : Car :=
  mkCar (c.(x)) (c.(y)) (c.(vel)) (c.(angle)) (c.(alive)) (c.(finished))
    (c.(brain)) (c.(sensors)) (c.(readings)) (c.(score))
    (c.(distanceTravelled)) (c.(lastPosition)) (c.(accumulatedSpeed))
    (c.(framesAlive)) (c.(idleFrames)) (c.(collisions)) v (c.(_distanceCache))
    (c.(distToFinish)) (c.(bestDist)).

Definition set_distanceCache (v : list ((Z * Z) * Q)) (c : Car) : Car :=
  mkCar (c.(x)) (c.(y)) (c.(vel)) (c.(angle)) (c.(alive)) (c.(finished))
    (c.(brain)) (c.(sensors)) (c.(readings)) (c.(score))
    (c.(distanceTravelled)) (c.(lastPosition)) (c.(accumulatedSpeed))
    (c.(framesAlive)) (c.(idleFrames)) (c.(collisions)) (c.(_finishCache)) v
    (c.(distToFinish)) (c.(bestDist)).

Definition set_distToFinish (v : Q) (c : Car) : Car :=
  mkCar (c.(x)) (c.(y)) (c.(vel)) (c.(angle)) (c.(alive)) (c.(finished))
    (c.(brain)) (c.(sensors)) (c.(readings)) (c.(score))
    (c.(distanceTravelled)) (c.(lastPosition)) (c.(accumulatedSpeed))
    (c.(framesAlive)) (c.(idleFrames)) (c.(collisions)) (c.(_finishCache))
    (c.(_distanceCache)) v (c.(bestDist)).

Definition set_bestDist (v : Q) (c : Car) : Car :=
  mkCar (c.(x)) (c.(y)) (c.(vel)) (c.(angle)) (c.(alive)) (c.(finished))
    (c.(brain)) (c.(sensors)) (c.(readings)) (c.(score))
    (c.(distanceTravelled)) (c.(lastPosition)) (c.(accumulatedSpeed))
    (c.(framesAlive)) (c.(idleFrames)) (c.(collisions)) (c.(_finishCache))
    (c.(_distanceCache)) (c.(distToFinish)) v.
(** A method of [Car]: reads and assigns fields of [this], may raise. *)
Definition Method (A : Type) : Type := Car -> Result (A * Car).

(** ** The generation manager (sketch.js) *)

Record Engine := mkEngine {
  population : list Car;
  eliteBrains : list Cerebro;
  generation : Z;
  frameCount_ : Z;
  transitioning : bool;
  bestScoreEver : Q;
  totalFinished : Z;
  spawnPoint : p5.Vector;
  localStorage : option Pesos;   (* the entry ['bestBrain'], parsed *)
  random_calls : nat             (* state of the random source *)
}.

Definition set_population (v : list Car) (e : Engine) : Engine :=
  mkEngine v (eliteBrains e) (generation e) (frameCount_ e) (transitioning e)
    (bestScoreEver e) (totalFinished e) (spawnPoint e) (localStorage e)
    (random_calls e).

Definition set_eliteBrains (v : list Cerebro) (e : Engine) : Engine :=
  mkEngine (population e) v (generation e) (frameCount_ e) (transitioning e)
    (bestScoreEver e) (totalFinished e) (spawnPoint e) (localStorage e)
    (random_calls e).

Definition set_generation (v : Z) (e : Engine) : Engine :=
  mkEngine (population e) (eliteBrains e) v (frameCount_ e) (transitioning e)
    (bestScoreEver e) (totalFinished e) (spawnPoint e) (localStorage e)
    (random_calls e).

Definition set_frameCount_ (v : Z) (e : Engine) : Engine :=
  mkEngine (population e) (eliteBrains e) (generation e) v (transitioning e)
    (bestScoreEver e) (totalFinished e) (spawnPoint e) (localStorage e)
    (random_calls e).

Definition set_transitioning (v : bool) (e : Engine) : Engine :=
  mkEngine (population e) (eliteBrains e) (generation e) (frameCount_ e) v
    (bestScoreEver e) (totalFinished e) (spawnPoint e) (localStorage e)
    (random_calls e).

Definition set_bestScoreEver (v : Q) (e : Engine) : Engine :=
  mkEngine (population e) (eliteBrains e) (generation e) (frameCount_ e)
    (transitioning e) v (totalFinished e) (spawnPoint e) (localStorage e)
    (random_calls e).

Definition set_totalFinished (v : Z) (e : Engine) : Engine :=
  mkEngine (population e) (eliteBrains e) (generation e) (frameCount_ e)
    (transitioning e) (bestScoreEver e) v (spawnPoint e) (localStorage e)
    (random_calls e).

Definition set_random_calls (v : nat) (e : Engine) : Engine :=
  mkEngine (population e) (eliteBrains e) (generation e) (frameCount_ e)
    (transitioning e) (bestScoreEver e) (totalFinished e) (spawnPoint e)
    (localStorage e) v.

Definition set_spawnPoint (v : p5.Vector) (e : Engine) : Engine :=
  mkEngine (population e) (eliteBrains e) (generation e) (frameCount_ e)
    (transitioning e) (bestScoreEver e) (totalFinished e) v (localStorage e)
    (random_calls e).

Definition set_localStorage (v : option Pesos) (e : Engine) : Engine :=
  mkEngine (population e) (eliteBrains e) (generation e) (frameCount_ e)
    (transitioning e) (bestScoreEver e) (totalFinished e) (spawnPoint e) v
    (random_calls e).

(** The global [finishLine]: a row and two columns of the grid. *)
Module FinishLine.
Record t := mk { y : Z; xStart : Z; xEnd : Z }.
End FinishLine.

(** The messages of [showToast]. *)
Inductive Toast :=
  | BrainSaved        (* 'Brain saved to localStorage!' *)
  | NoSavedBrain      (* 'No saved brain found.' *)
  | BrainLoaded       (* 'Brain loaded! Starting fresh from gen 1.' *)
  | SimulationReset   (* 'Simulation reset.' *)
  | Speed (fps : Q).  (* 'Speed: ${currentFPS} FPS', both directions *)

(** The page: the engine, the other globals of sketch.js, the size given
    to [createCanvas] and the text of the toast element. *)
Record Sketch := mkSketch {
  engine : Engine;
  finishLine : FinishLine.t;
  currentFPS : Q;
  canvas : option (Q * Q);
  toast : option Toast
}.

Definition set_engine (v : Engine) (s : Sketch) : Sketch :=
  mkSketch v (finishLine s) (currentFPS s) (canvas s) (toast s).

Definition set_finishLine (v : FinishLine.t) (s : Sketch) : Sketch :=
  mkSketch (engine s) v (currentFPS s) (canvas s) (toast s).

Definition set_currentFPS (v : Q) (s : Sketch) : Sketch :=
  mkSketch (engine s) (finishLine s) v (canvas s) (toast s).


Definition set_toast (v : option Toast) (s : Sketch) : Sketch :=
  mkSketch (engine s) (finishLine s) (currentFPS s) (canvas s) v.

(** What [updateHUD] writes into the elements [hud-gen], [hud-time], ...
    of the page.  The bar is [None] where the source writes ['NaN%'] (an
    empty population), the leader is [None] where it writes the dash. *)
Record HUD := mkHUD {
  hud_gen : Z;
  hud_time : Z;
  hud_fps : Q;
  hud_alive : Z;
  hud_total : Z;
  hud_bar : option Q;
  hud_best_ever : Z;
  hud_leader : option Z;
  hud_finished : Z
}.


(** The globals as sketch.js declares them, before [setup]; what
    [localStorage] holds and the state of the random source come from
    outside. *)
Definition initial_sketch (storage : option Pesos) (n : nat) : Sketch :=
  {| engine :=
       {| population := []; eliteBrains := []; generation := 1%Z;
          frameCount_ := 0%Z; transitioning := false; bestScoreEver := 0;
          totalFinished := 0%Z; spawnPoint := p5.createVector 0 0;
          localStorage := storage; random_calls := n |};
     finishLine := FinishLine.mk 0 0 0;
     currentFPS := 60;
     canvas := None;
     toast := None |}.


(** Evolution parameters. *)
Definition POPULATION_SIZE : Z := 30.
Definition MUTATION_RATE : Q := 0.06.
Definition MAX_FRAMES : Z := 3000.
Definition ELITE_COUNT : nat := 3.

(** [Array.prototype.sort(comparefn)].  The sort is stable, and for a
    consistent comparator the stable sorted arrangement of an array is
    unique; it is computed here by insertion, [a] staying before [b]
    unless [comparefn(a, b) > 0]. *)
Section ArraySort.
Context {A : Type} (comparefn : A -> A -> Q).

Fixpoint sort_insert (a : A) (l : list A) : list A :=
  match l with
  | [] => [a]
  | b :: l' =>
      if Qltb 0 (comparefn a b) then b :: sort_insert a l' else a :: b :: l'
  end.

Fixpoint Array_sort (l : list A) : list A :=
  match l with
  | [] => []
  | a :: l' => sort_insert a (Array_sort l')
  end.
End ArraySort.

(** ** Test data

    Concrete values for the variables of the model, on which the
    properties below are run: rational stand-ins for [PI], [cos], [sin],
    [Math.sqrt] and [Math.log], a forward pass with a clipped activation for
    TensorFlow.js, a periodic tape for [Math.random], and three small maps. *)

Definition demo_PI : Q := 355 # 113.

Definition demo_cos (a : Q) : Q := 1 - a * a / 2 + a * a * a * a / 24.

Definition demo_sin (a : Q) : Q :=
  a - a * a * a / 6 + a * a * a * a * a / 120.

(** Four steps of Newton's iteration. *)
Definition demo_sqrt (q : Q) : Q :=
  if Qle_bool q 0 then 0
  else
    let step r := (r + q / r) / 2 in
    Qred (step (step (step (step ((q + 1) / 2))))).

Definition demo_log (q : Q) : Q := q - 1.

Definition demo_tanh (v : Q) : Q := Qmax (-1) (Qmin 1 v).

(** A network that asks for no rotation and no throttle. *)
Definition idle_predict (m : Sequential) (inputs : list Q) : Q * Q := (0, 0).

(** A dense layer: kernel of shape [[inputs; units]], row-major. *)
Definition demo_dense (inputs : list Q) (kernel bias : Tensor) : list Q :=
  let units := length (dataSync bias) in
  imap
    (fun j b =>
       demo_tanh
         (foldr Qplus b
            (imap (fun i v => v * nth (i * units + j) (dataSync kernel) 0)
               inputs)))
    (dataSync bias).

Definition demo_predict (m : Sequential) (inputs : list Q) : Q * Q :=
  match getWeights m with
  | [k1; b1; k2; b2] =>
      let out := demo_dense (demo_dense inputs k1 b1) k2 b2 in
      (nth 0 out 0, nth 1 out 0)
  | _ => (0, 0)
  end.

(** [Math.random()]: 0.3, 0, 0.7, 0.4, ... with period ten. *)
Definition demo_tape (n : nat) : Q :=
  inject_Z (Z.of_nat ((7 * n + 3) mod 10)) / 10.

Definition demo_gap (n : nat) : nat := 1.

Definition zero_tensor (shp : list nat) : Tensor :=
  mkTensor shp (replicate (foldr Nat.mul 1%nat shp) 0).

Definition zero_brain : Cerebro :=
  mkCerebro
    (mkSequential
       [zero_tensor [9; 5]%nat; zero_tensor [5%nat]; zero_tensor [5; 2]%nat;
        zero_tensor [2%nat]]).

(** A brain whose first bias is not zero. *)
Definition other_brain : Cerebro :=
  mkCerebro
    (mkSequential
       [zero_tensor [9; 5]%nat; mkTensor [5%nat] [0.5; -0.25; 0; 1; 2];
        zero_tensor [5; 2]%nat; zero_tensor [2%nat]]).

Definition demo_fresh_model (n : nat) : Sequential * nat :=
  (model zero_brain, n).

(** One open tile of a thousand pixels. *)
Definition open_mapa : list (list Z) := [[0%Z]].

(** Spawn, wall, finish: the finish tile is walled off. *)
Definition walled_mapa : list (list Z) := [[3; 1; 2]%Z].

(** A short track: spawn at the left, finish at the right. *)
Definition track_mapa : list (list Z) :=
  [[1; 1; 1; 1; 1];
   [1; 3; 0; 2; 1];
   [1; 1; 1; 1; 1]]%Z.

(** A car that is not alive. *)
Definition parked_car : Car :=
  {| x := 30; y := 30; vel := p5.createVector 0 0; angle := 0;
     alive := false; finished := false; brain := zero_brain;
     sensors := [0]; readings := [200];
     score := 12; distanceTravelled := 3;
     lastPosition := p5.createVector 30 30;
     accumulatedSpeed := 1; framesAlive := 7%Z; idleFrames := 2%Z;
     collisions := 1%Z;
     _finishCache := None; _distanceCache := [];
     distToFinish := 40; bestDist := 40 |}.

(** A car at rest at the origin, without sensors. *)
Definition still_car : Car :=
  {| x := 0; y := 0; vel := p5.createVector 0 0; angle := 0;
     alive := true; finished := false; brain := zero_brain;
     sensors := []; readings := [];
     score := 0; distanceTravelled := 0;
     lastPosition := p5.createVector 0 0;
     accumulatedSpeed := 0; framesAlive := 0%Z; idleFrames := 0%Z;
     collisions := 0%Z;
     _finishCache := None; _distanceCache := [];
     distToFinish := 9999; bestDist := 9999 |}.

(** The nine sensor angles, with [demo_PI]. *)
Definition demo_sensors : list Q :=
  List.map (fun deg => deg * (demo_PI / 180)) [-90; -60; -40; -20]
    ++ [0]
    ++ List.map (fun deg => deg * (demo_PI / 180)) [20; 40; 60; 90].

(** The car that [new Car(10, 10, zero_brain)] builds on [walled_mapa] with
    tiles of 20 pixels: it stands on the spawn tile, the only finish tile is
    at column 2, and the search from its cell has answered 9999. *)
Definition walled_car : Car :=
  {| x := 10; y := 10; vel := p5.createVector 0 0; angle := 0;
     alive := true; finished := false; brain := zero_brain;
     sensors := demo_sensors; readings := replicate 9 200;
     score := 0; distanceTravelled := 0;
     lastPosition := p5.createVector 10 10;
     accumulatedSpeed := 0; framesAlive := 0%Z; idleFrames := 0%Z;
     collisions := 0%Z;
     _finishCache := Some [(2, 0)%Z];
     _distanceCache := [((0, 0)%Z, 9999)];
     distToFinish := 9999; bestDist := 9999 |}.

(** The car that [new Car(30, 30, zero_brain)] builds on [track_mapa] with
    tiles of 20 pixels: two tiles from the finish. *)
Definition spawned_car : Car :=
  {| x := 30; y := 30; vel := p5.createVector 0 0; angle := 0;
     alive := true; finished := false; brain := zero_brain;
     sensors := demo_sensors; readings := replicate 9 200;
     score := 0; distanceTravelled := 0;
     lastPosition := p5.createVector 30 30;
     accumulatedSpeed := 0; framesAlive := 0%Z; idleFrames := 0%Z;
     collisions := 0%Z;
     _finishCache := Some [(3, 1)%Z];
     _distanceCache := [((1, 1)%Z, 40)];
     distToFinish := 40; bestDist := 40 |}.

(** A live car that has left the map. *)
Definition stray_car : Car := set_y (-5) (set_x (-5) still_car).

(** [spawned_car] carried off the map, above its top left corner. *)
Definition lost_car : Car := set_y (-5) (set_x (-5) spawned_car).

(** A car that has crossed the finish line. *)
Definition arrived_car : Car :=
  {| x := 70; y := 30; vel := p5.createVector 2 0; angle := 0;
     alive := false; finished := true; brain := other_brain;
     sensors := demo_sensors; readings := replicate 9 200;
     score := 2040; distanceTravelled := 40;
     lastPosition := p5.createVector 68 30;
     accumulatedSpeed := 40; framesAlive := 20%Z; idleFrames := 0%Z;
     collisions := 0%Z;
     _finishCache := Some [(3, 1)%Z]; _distanceCache := [];
     distToFinish := 0; bestDist := 0 |}.

(** A generation of three cars on its last frame within the budget. *)
Definition last_frame_engine : Engine :=
  {| population := [parked_car; still_car; arrived_car];
     eliteBrains := [];
     generation := 4%Z; frameCount_ := 2999%Z; transitioning := false;
     bestScoreEver := 50; totalFinished := 2%Z;
     spawnPoint := p5.createVector 30 30;
     localStorage := None; random_calls := 0%nat |}.

(** The engine before its first generation, seeded with one elite. *)
Definition seed_engine : Engine :=
  {| population := []; eliteBrains := [zero_brain; other_brain];
     generation := 1%Z; frameCount_ := 0%Z; transitioning := false;
     bestScoreEver := 0; totalFinished := 0%Z;
     spawnPoint := p5.createVector 30 30;
     localStorage := None; random_calls := 0%nat |}.


(** [cos] and [sin] of the test data, kept within [-1, 1]. *)
Definition unit_cos (a : Q) : Q := Qmax (-1) (Qmin 1 (demo_cos a)).

Definition unit_sin (a : Q) : Q := Qmax (-1) (Qmin 1 (demo_sin a)).

(** What [exportarPesos] writes for [other_brain]. *)
Definition other_pesos : Pesos :=
  mkPesos [[9; 5]; [5]; [5; 2]; [2]]%nat
    [replicate 45 0; [0.5; -0.25; 0; 1; 2]; replicate 10 0; [0; 0]].

(** Thirty cars on the spawn tile of [track_mapa], before their first
    frame. *)
Definition steady_engine : Engine :=
  {| population := replicate 30 spawned_car; eliteBrains := [];
     generation := 1%Z; frameCount_ := 0%Z; transitioning := false;
     bestScoreEver := 0; totalFinished := 0%Z;
     spawnPoint := p5.createVector 30 30;
     localStorage := None; random_calls := 0%nat |}.

Definition steady_page : Sketch :=
  {| engine := steady_engine; finishLine := FinishLine.mk 1 3 3;
     currentFPS := 60; canvas := Some (100, 60); toast := None |}.


(** A finish line along the top edge, from the left edge on. *)
Definition edge_mapa : list (list Z) := [[2; 2; 2]; [3; 0; 0]]%Z.


(** A heading that is always east, and a network at full throttle. *)
Definition east_cos (a : Q) : Q := 1.

Definition east_sin (a : Q) : Q := 0.

Definition full_throttle (m : Sequential) (inputs : list Q) : Q * Q := (0, 1).

(** [spawned_car] after one tick heading east at full throttle. *)
Definition moved_car : Car :=
  {| x := 30.285; y := 30.000;
     vel := p5.createVector 0.285 0.000; angle := 0.0;
     alive := true; finished := false; brain := zero_brain;
     sensors := demo_sensors; readings := replicate 9 50;
     score := 0; distanceTravelled := 0 + demo_sqrt 0;
     lastPosition := p5.createVector 30 30;
     accumulatedSpeed := 0 + demo_sqrt (0.285 * 0.285 + 0.000 * 0.000);
     framesAlive := 1%Z; idleFrames := 0%Z; collisions := 0%Z;
     _finishCache := Some [(3, 1)%Z];
     _distanceCache := [((1, 1)%Z, 40)];
     distToFinish := 40; bestDist := 40 |}.


(** ** The tile world and the numeric primitives *)

Section Simulation.

(** Globals of [mapa_gerado.js]. *)
Variable mapa : list (list Z).
Variable tileSize : Q.

(** [Math.sqrt], p5's [cos] and [sin], and the constant [PI]. *)
Variable Math_sqrt : Q -> Q.
Variable cos : Q -> Q.
Variable sin : Q -> Q.
Variable PI : Q.

(** [model.predict] on one row of inputs, read back with [dataSync]: the
    two outputs of the last layer. *)
Variable predict : Sequential -> list Q -> Q * Q.

Definition radians (deg : Q) : Q := deg * (PI / 180).

Definition dist (x1 y1 x2 y2 : Q) : Q :=
  Math_sqrt ((x2 - x1) * (x2 - x1) + (y2 - y1) * (y2 - y1)).

Definition mag (v : p5.Vector) : Q := Math_sqrt (p5.magSq v).

Definition fromAngle (a : Q) : p5.Vector := p5.createVector (cos a) (sin a).

(** *** The random source

    [tape n] is the value of the [n]-th call of [Math.random()]; the state
    of the source is the number of calls made so far.  [gap n] bounds the
    run of zeros that starts at call [n], so that the rejection loops of
    [randn_bm] are counted loops. *)
Variable tape : nat -> Q.
Variable gap : nat -> nat.
Variable Math_log : Q -> Q.

(** [tf.sequential()] with the layers [dense(9 -> 5)] and [dense(5 -> 2)]:
    freshly initialised variables, drawn from the random source. *)
Variable fresh_model : nat -> Sequential * nat.

Definition Math_random (n : nat) : Q * nat := (tape n, S n).

(** [let u = 0; while (u === 0) u = Math.random();]  The loop of the
    source goes on until a value is not zero; it is the counted loop below
    when [budget] covers the run of zeros at [n], which is what [gap_ok]
    says of [gap n]. *)
Fixpoint draw_nonzero (budget : nat) (n : nat) : Q * nat :=
  let '(u, n') := Math_random n in
  match budget with
  | O => (u, n')
  | S budget' => if Qeq_bool u 0 then draw_nonzero budget' n' else (u, n')
  end.

Definition randn_bm (n : nat) : Q * nat :=
  let '(u, n) := draw_nonzero (gap n) n in
  let '(v, n) := draw_nonzero (gap n) n in
  (Math_sqrt (-2.0 * Math_log u) * cos (2.0 * PI * v), n).

(** *** Cerebro (brain.js) *)

(** [tf.tensor(values, shape)]; without a shape the tensor is flat.  The
    values are kept as they are, as a [float32] tensor keeps the numbers
    of [float32]; it rounds the others, which is outside the model. *)
Definition tf_tensor (vals : list Q) (shp : option (list nat))
  : Result Tensor :=
  let shp := default [length vals] shp in
  if decide (foldr Nat.mul 1%nat shp = length vals)
  then Ok (mkTensor shp vals)
  else Throw ValueError.

Definition tf_clone (t : Tensor) : Tensor := mkTensor (shape t) (dataSync t).

(** [model.setWeights(weights)]: one tensor per variable, of its shape. *)
Definition setWeights (m : Sequential) (ws : list Tensor)
  : Result Sequential :=
  if decide (length (getWeights m) = length ws) then
    if decide (List.map shape (getWeights m) = List.map shape ws)
    then Ok (mkSequential ws)
    else Throw ValueError
  else Throw ValueError.

(** [new Cerebro(model)] *)
Definition new_Cerebro (m : option Sequential) (n : nat) : Cerebro * nat :=
  match m with
  | Some m => (mkCerebro m, n)
  | None => let '(m, n) := fresh_model n in (mkCerebro m, n)
  end.

(** [pensar] is called on the readings of a car.  TensorFlow.js raises a
    [ValueError] on a row that has not the nine values of the input layer,
    a row that [drivable] excludes. *)
Definition pensar (b : Cerebro) (readings : list Q) : Q * Q :=
  predict (model b) readings.

(** The new model is built from the layer configurations of the old one,
    so it has variables of the same shapes. *)
Definition copiaCerebro (b : Cerebro) : Result Cerebro :=
  let newModel := model b in
  let weights := getWeights (model b) in
  let newWeights := List.map tf_clone weights in
  let* newModel := setWeights newModel newWeights in
  Ok (mkCerebro newModel).

(** The [for] loop of [mutar] over the values of one tensor. *)
Fixpoint mutar_vals (rate : Q) (vals : list Q) (n : nat) : list Q * nat :=
  match vals with
  | [] => ([], n)
  | v :: vals' =>
      let '(r, n) := Math_random n in
      let '(v, n) :=
        if Qltb r rate
        then let '(g, n) := randn_bm n in (v + g * 0.1, n)
        else (v, n) in
      let '(vals', n) := mutar_vals rate vals' n in
      (v :: vals', n)
  end.

Fixpoint mutar_tensors (rate : Q) (ts : list Tensor) (n : nat)
  : Result (list Tensor * nat) :=
  match ts with
  | [] => Ok ([], n)
  | t :: ts' =>
      let '(vals, n) := mutar_vals rate (dataSync t) n in
      let* t' := tf_tensor vals (Some (shape t)) in
      let* (ts', n) := mutar_tensors rate ts' n in
      Ok (t' :: ts', n)
  end.

Definition mutar (rate : Q) (b : Cerebro) (n : nat) : Result (Cerebro * nat) :=
  let weights := getWeights (model b) in
  let* (newWeights, n) := mutar_tensors rate weights n in
  let* m := setWeights (model b) newWeights in
  Ok (mkCerebro m, n).

Definition exportarPesos (b : Cerebro) : Pesos :=
  let weights := getWeights (model b) in
  mkPesos (List.map shape weights) (List.map dataSync weights).

(** [data.values.map((vals, i) => tf.tensor(vals, data.shapes[i]))] *)
Fixpoint importar_tensors (data : Pesos) (i : nat) (vs : list (list Q))
  : Result (list Tensor) :=
  match vs with
  | [] => Ok []
  | vals :: vs' =>
      let* t := tf_tensor vals (shapes data !! i) in
      let* ts := importar_tensors data (S i) vs' in
      Ok (t :: ts)
  end.

Definition importarPesos (b : Cerebro) (data : Pesos) : Result Cerebro :=
  let* tensors := importar_tensors data 0 (values data) in
  let* m := setWeights (model b) tensors in
  Ok (mkCerebro m).

(** [Cerebro.carregarDeLocalStorage()], with [storage] the parsed entry
    of [localStorage] under the key ['bestBrain']. *)
Definition carregarDeLocalStorage (storage : option Pesos) (n : nat)
  : Result (option Cerebro * nat) :=
  match storage with
  | None => Ok (None, n)
  | Some raw =>
      let '(brain, n) := new_Cerebro None n in
      let* brain := importarPesos brain raw in
      Ok (Some brain, n)
  end.

(** *** The tile grid *)

(** [mapa[0].length]: raises when [mapa] has no row. *)
Definition mapa_0_length : Result Z :=
  match mapa with
  | [] => Throw TypeError
  | r :: _ => Ok (len r)
  end.

(** [mapa[row][col]]: raises when [mapa[row]] is [undefined]; the value is
    [None] when the row has no such column. *)
Definition mapa_at (row col : Z) : Result (option Z) :=
  match index mapa row with
  | None => Throw TypeError
  | Some r => Ok (index r col)
  end.

(** [row < 0 || row >= mapa.length || col < 0 || col >= mapa[0].length],
    evaluated left to right: [mapa[0]] is only read when the first two
    tests are false. *)
Definition outside (row col : Z) : Result bool :=
  if (row <? 0)%Z then Ok true
  else if (row >=? len mapa)%Z then Ok true
  else if (col <? 0)%Z then Ok true
  else let* w := mapa_0_length in Ok (col >=? w)%Z.

(** *** Sensors *)

(** The body of [for (let d = 0; d < 200; d += 5)], with [n] the number
    of iterations left, [(200 - d) / 5].  With a [tileSize] of zero the
    quotients of the source are NaN or infinite, outside the model;
    [tiles_sized] excludes it. *)
Fixpoint _sensorReading_from (c : Car) (ang : Q) (n : nat) (d : Z)
  : Result Q :=
  match n with
  | O => Ok 200
  | S n' =>
      let px := x c + cos ang * inject_Z d in
      let py := y c + sin ang * inject_Z d in
      let row := p5.floor (py / tileSize) in
      let col := p5.floor (px / tileSize) in
      let* out := outside row col in
      if out then Ok (inject_Z d)
      else
        let* t := mapa_at row col in
        if decide (t = Some 1%Z) then Ok (inject_Z d)
        else _sensorReading_from c ang n' (d + 5)%Z
  end.

Definition _sensorReading (c : Car) (offset : Q) : Result Q :=
  let ang := angle c + offset in
  _sensorReading_from c ang 40 0.

(** [this.readings.map(v => map(v, 0, 200, 1, 0))] *)
Definition inputs_of (readings : list Q) : list Q :=
  List.map (fun v => p5.map v 0 200 1 0) readings.

(** *** Distance to the finish line *)

(** A grid position [(x, y)] is a column and a row; the string key
    [`${x},${y}`] of the source is the pair itself. *)
Definition Pos : Type := Z * Z.

Definition cell_of (c : Car) : Pos :=
  (p5.floor (x c / tileSize), p5.floor (y c / tileSize)).

Definition _tileWalkable (pos : Pos) : Result bool :=
  let* out := outside pos.2 pos.1 in
  if out then Ok false
  else
    let* t := mapa_at pos.2 pos.1 in
    Ok (if decide (t = Some 1%Z) then false else true).

Definition dirs : list Pos := [(0, -1); (1, 0); (0, 1); (-1, 0)]%Z.

Definition is_target (targets : list Pos) (pos : Pos) : bool :=
  existsb (fun t => bool_decide (pos = t)) targets.

(** The [for (const d of dirs)] loop of [_bfs]. *)
Fixpoint _bfs_expand (pos : Pos) (steps : Z) (ds : list Pos)
    (visited : gset Pos) (queue : list (Pos * Z))
  : Result (gset Pos * list (Pos * Z)) :=
  match ds with
  | [] => Ok (visited, queue)
  | d :: ds' =>
      let np : Pos := (pos.1 + d.1, pos.2 + d.2)%Z in
      if decide (np ∈ visited) then
        _bfs_expand pos steps ds' visited queue
      else
        let* w := _tileWalkable np in
        if w then
          _bfs_expand pos steps ds'
            ({[np]} ∪ visited) (queue ++ [(np, (steps + 1)%Z)])
        else _bfs_expand pos steps ds' visited queue
  end.

(** The [while (queue.length > 0)] loop of [_bfs]. *)
Fixpoint _bfs_loop (fuel : nat) (targets : list Pos)
    (visited : gset Pos) (queue : list (Pos * Z)) : Result Q :=
  match fuel with
  | O => Throw LoopBudget
  | S fuel' =>
      match queue with
      | [] => Ok 9999
      | (pos, steps) :: rest =>
          if is_target targets pos then Ok (inject_Z steps * tileSize)
          else
            let* (visited', queue') :=
              _bfs_expand pos steps dirs visited rest in
            _bfs_loop fuel' targets visited' queue'
      end
  end.

(** Every position but the start enters the queue at most once and lies
    in the [mapa.length] by [mapa[0].length] grid. *)
Definition bfs_budget : nat :=
  S (S (length mapa * length (hd [] mapa))).

Definition _bfs (start : Pos) (targets : list Pos) : Result Q :=
  if is_target targets start then Ok 0
  else _bfs_loop bfs_budget targets {[start]} [(start, 0%Z)].

(** The inner and outer loops of [_finishTiles]. *)
Fixpoint finish_in_row (r c : Z) (row : list Z) : list Pos :=
  match row with
  | [] => []
  | v :: row' =>
      (if decide (v = 2%Z) then [(c, r)] else [])
        ++ finish_in_row r (c + 1)%Z row'
  end.

Fixpoint finish_from (r : Z) (rows : list (list Z)) : list Pos :=
  match rows with
  | [] => []
  | row :: rows' => finish_in_row r 0 row ++ finish_from (r + 1)%Z rows'
  end.

Definition _finishTiles : Method (list Pos) := fun c =>
  match _finishCache c with
  | Some ts => Ok (ts, c)
  | None =>
      let ts := finish_from 0 mapa in
      Ok (ts, set_finishCache (Some ts) c)
  end.

Definition _bfsDistanceToFinish : Method Q := fun c =>
  let key := cell_of c in
  match JsMap.get key (_distanceCache c) with
  | Some v => Ok (v, c)
  | None =>
      let start := key in
      let* (targets, c) := _finishTiles c in
      if decide (len targets = 0%Z) then Ok (9999, c)
      else
        let* dist_ := _bfs start targets in
        let cache := JsMap.set key dist_ (_distanceCache c) in
        let cache :=
          if (JsMap.size cache >? 100)%Z then
            match JsMap.first_key cache with
            | Some first => JsMap.delete first cache
            | None => cache
            end
          else cache in
        Ok (dist_, set_distanceCache cache c)
  end.

Definition _hasCollided (c : Car) : Result bool :=
  let row := p5.floor (y c / tileSize) in
  let col := p5.floor (x c / tileSize) in
  let* out := outside row col in
  if out then Ok true
  else
    let* t := mapa_at row col in
    Ok (if decide (t = Some 1%Z) then true else false).

(** *** Construction *)

Definition sensor_angles : list Q :=
  [radians (-90); radians (-60); radians (-40); radians (-20);
   0;
   radians 20; radians 40; radians 60; radians 90].

(** [new Car(x, y, brain)] *)
Definition new_Car (x0 y0 : Q) (brain0 : option Cerebro) (n : nat)
  : Result (Car * nat) :=
  let* (b, n) :=
    match brain0 with
    | Some b => let* b' := copiaCerebro b in Ok (b', n)
    | None => Ok (new_Cerebro None n)
    end in
  let c :=
    {| x := x0; y := y0; vel := p5.createVector 0 0; angle := 0;
       alive := true; finished := false;
       brain := b;
       sensors := sensor_angles;
       readings := replicate (length sensor_angles) 200;
       score := 0; distanceTravelled := 0;
       lastPosition := p5.createVector x0 y0;
       accumulatedSpeed := 0; framesAlive := 0; idleFrames := 0;
       collisions := 0;
       _finishCache := None; _distanceCache := [];
       distToFinish := 0; bestDist := 0 |} in
  let* (d, c) := _bfsDistanceToFinish c in
  let c := set_distToFinish d c in
  let c := set_bestDist (distToFinish c) c in
  Ok (c, n).

(** *** Update *)

(** Distance travelled, sensor readings, decision, friction and move. *)
Definition update_move (c : Car) : Result Car :=
  let dFrame :=
    dist (x c) (y c) (p5.x (lastPosition c)) (p5.y (lastPosition c)) in
  let c := set_distanceTravelled (distanceTravelled c + dFrame) c in
  let c := set_lastPosition (p5.createVector (x c) (y c)) c in
  let* rs := mapM (_sensorReading c) (sensors c) in
  let c := set_readings rs c in
  let inputs := inputs_of (readings c) in
  let '(rot, throttle) := pensar (brain c) inputs in
  let c := set_angle (angle c + rot * 0.1) c in
  let c :=
    set_vel (p5.add (vel c) (p5.mult (fromAngle (angle c)) (throttle * 0.3)))
      c in
  let c := set_vel (p5.mult (vel c) 0.95) c in
  let c := set_x (x c + p5.x (vel c)) c in
  let c := set_y (y c + p5.y (vel c)) c in
  let c := set_framesAlive (framesAlive c + 1)%Z c in
  Ok c.

(** [if (this.vel.mag() < 0.1) this.idleFrames++; else this.idleFrames = 0;] *)
Definition update_idle (c : Car) : Car :=
  if Qltb (mag (vel c)) 0.1
  then set_idleFrames (idleFrames c + 1)%Z c
  else set_idleFrames 0%Z c.

(** The body of [if (this.idleFrames > 300)], before its [return]. *)
Definition idle_death (c : Car) : Car :=
  let c := set_alive false c in
  set_score (score c - 100) c.

Definition update_speed (c : Car) : Car :=
  let speed := mag (vel c) in
  let c := set_accumulatedSpeed (accumulatedSpeed c + speed) c in
  if Qltb 1.5 speed then set_score (score c + speed * 0.2) c
  else if Qltb 0.5 speed then set_score (score c + speed * 0.15) c
  else c.

Definition update_progress (c : Car) : Result Car :=
  let prevDist := distToFinish c in
  let* (d, c) := _bfsDistanceToFinish c in
  let c := set_distToFinish d c in
  let c :=
    if Qltb (distToFinish c) prevDist
    then set_score (score c + (prevDist - distToFinish c) * 0.3) c
    else c in
  let c :=
    if Qltb (distToFinish c) (bestDist c)
    then set_bestDist (distToFinish c) c
    else c in
  Ok c.

(** [row >= 0 && row < mapa.length && col >= 0 && col < mapa[0].length
    && mapa[row][col] === 2], evaluated left to right. *)
Definition on_finish (row col : Z) : Result bool :=
  if negb (row >=? 0)%Z then Ok false
  else if negb (row <? len mapa)%Z then Ok false
  else if negb (col >=? 0)%Z then Ok false
  else
    let* w := mapa_0_length in
    if negb (col <? w)%Z then Ok false
    else
      let* t := mapa_at row col in
      Ok (if decide (t = Some 2%Z) then true else false).

(** The body of the finish-line [if]. *)
Definition cross_finish (c : Car) : Car :=
  let c := set_finished true c in
  let c := set_score (score c + 2000) c in
  set_alive false c.

Definition update_finish (c : Car) : Result Car :=
  if negb (finished c) then
    let col := p5.floor (x c / tileSize) in
    let row := p5.floor (y c / tileSize) in
    let* f := on_finish row col in
    if f then Ok (cross_finish c) else Ok c
  else Ok c.

(** The body of [if (this._hasCollided())]. *)
Definition collide (c : Car) : Car :=
  let c := set_collisions (collisions c + 1)%Z c in
  let c := set_score (score c - 40 * inject_Z (collisions c)) c in
  if (collisions c >? 2)%Z then set_alive false c else c.

Definition update_collision (c : Car) : Result Car :=
  let* hit := _hasCollided c in
  if hit then Ok (collide c) else Ok c.

Definition update : Method unit := fun c =>
  if negb (alive c) then Ok (tt, c)
  else
    let* c := update_move c in
    let c := update_idle c in
    if (idleFrames c >? 300)%Z then Ok (tt, idle_death c)
    else
      let c := update_speed c in
      let* c := update_progress c in
      let* c := update_finish c in
      let* c := update_collision c in
      Ok (tt, c).

(** *** Fitness *)

Definition calcularFitness (c : Car) : Q :=
  let fitness := score c in
  let fitness :=
    if negb (alive c) && negb (finished c) then fitness * 0.7
    else fitness in
  let avgSpeed :=
    accumulatedSpeed c / Qmax 1 (inject_Z (framesAlive c)) in
  let fitness := fitness + (inject_Z (framesAlive c) * 0.1 + avgSpeed * 50) in
  let fitness := fitness + Qmax 0 ((1000 - bestDist c) * 0.2) in
  Qmax 0 fitness.

(** *** Reset *)

Definition reset (x0 y0 : Q) : Method unit := fun c =>
  let c := set_x x0 c in
  let c := set_y y0 c in
  let c := set_vel (p5.createVector 0 0) c in
  let c := set_angle 0 c in
  let c := set_alive true c in
  let c := set_finished false c in
  let c := set_score 0 c in
  let c := set_distanceTravelled 0 c in
  let c := set_lastPosition (p5.createVector x0 y0) c in
  let c := set_accumulatedSpeed 0 c in
  let c := set_framesAlive 0%Z c in
  let c := set_collisions 0%Z c in
  let c := set_idleFrames 0%Z c in
  let c := set_distanceCache [] c in
  let* (d, c) := _bfsDistanceToFinish c in
  let c := set_distToFinish d c in
  let c := set_bestDist (distToFinish c) c in
  Ok (tt, c).

(** *** Generations (sketch.js) *)

(** The body of the [for] loop of [newGeneration], [k] iterations left. *)
Fixpoint newGeneration_from (k : nat) (i : Z) (e : Engine) : Result Engine :=
  match k with
  | O => Ok e
  | S k' =>
      let* (brain, n) :=
        if (len (eliteBrains e) >? 0)%Z then
          match index (eliteBrains e) (i mod len (eliteBrains e))%Z with
          | None => Throw TypeError
          | Some parent =>
              let* brain := copiaCerebro parent in
              mutar MUTATION_RATE brain (random_calls e)
          end
        else
          let* (saved, n) :=
            carregarDeLocalStorage (localStorage e) (random_calls e) in
          match saved with
          | Some brain =>
              if (i >? 0)%Z then mutar MUTATION_RATE brain n
              else Ok (brain, n)
          | None => Ok (new_Cerebro None n)
          end in
      let* (car, n) :=
        new_Car (p5.x (spawnPoint e)) (p5.y (spawnPoint e)) (Some brain) n in
      let e := set_random_calls n e in
      let e := set_population (population e ++ [car]) e in
      newGeneration_from k' (i + 1)%Z e
  end.

Definition newGeneration (e : Engine) : Result Engine :=
  let e := set_frameCount_ 0%Z e in
  let e := set_transitioning false e in
  let e := set_population [] e in
  newGeneration_from (Z.to_nat POPULATION_SIZE) 0%Z e.

(** [(a, b) => b.calcularFitness() - a.calcularFitness()] *)
Definition by_fitness (a b : Car) : Q := calcularFitness b - calcularFitness a.

Definition nextGeneration (e : Engine) : Result Engine :=
  let e := set_transitioning true e in
  let e := set_population (Array_sort by_fitness (population e)) e in
  let* elites :=
    mapM (fun c => copiaCerebro (brain c)) (take ELITE_COUNT (population e)) in
  let e := set_eliteBrains elites e in
  let e :=
    set_totalFinished
      (totalFinished e + len (filter (fun c => finished c = true) (population e)))%Z
      e in
  let e := set_generation (generation e + 1)%Z e in
  newGeneration e.

(** The first [for] loop of [draw]: update every car and find the leader.
    A [leaderScore] of [None] is [-Infinity]. *)
Fixpoint draw_update (cars : list Car)
    (aliveCount : Z) (leaderScore : option Q) (leader : option Car)
  : Result (list Car * Z * option Q * option Car) :=
  match cars with
  | [] => Ok ([], aliveCount, leaderScore, leader)
  | car :: cars' =>
      let* (_, car) := update car in
      let '(aliveCount, leaderScore, leader) :=
        if alive car then
          let aliveCount := (aliveCount + 1)%Z in
          if match leaderScore with
             | None => true
             | Some l => Qltb l (score car)
             end
          then (aliveCount, Some (score car), Some car)
          else (aliveCount, leaderScore, leader)
        else (aliveCount, leaderScore, leader) in
      let* (cars', aliveCount, leaderScore, leader) :=
        draw_update cars' aliveCount leaderScore leader in
      Ok (car :: cars', aliveCount, leaderScore, leader)
  end.

(** [draw()] up to the decision to advance, without the rendering. *)
Definition draw_tick (e : Engine)
  : Result (Engine * Z * option Q * option Car) :=
  let* (cars, aliveCount, leaderScore, leader) :=
    draw_update (population e) 0%Z None None in
  let e := set_population cars e in
  let e := set_frameCount_ (frameCount_ e + 1)%Z e in
  let e :=
    match leaderScore with
    | Some l =>
        if Qltb (bestScoreEver e) l then set_bestScoreEver l e else e
    | None => e
    end in
  Ok (e, aliveCount, leaderScore, leader).

(** [(aliveCount === 0 || frameCount_ > MAX_FRAMES) && !transitioning] *)
Definition advances (e : Engine) (aliveCount : Z) : bool :=
  (bool_decide (aliveCount = 0%Z) || (frameCount_ e >? MAX_FRAMES)%Z)
    && negb (transitioning e).

Definition draw (e : Engine) : Result Engine :=
  let* (e, aliveCount, leaderScore, leader) := draw_tick e in
  if advances e aliveCount then nextGeneration e else Ok e.

(** *** Spawn and finish detection (sketch.js) *)

(** The body of the inner loop of [detectSpawnAndFinish] on the tile [v]
    at [row], [col]. *)
Definition detect_tile (row col : Z) (v : Z)
    (sf : p5.Vector * FinishLine.t) : p5.Vector * FinishLine.t :=
  let '(sp, fl) := sf in
  if decide (v = 3%Z) then
    (p5.createVector (inject_Z col * tileSize + tileSize / 2)
       (inject_Z row * tileSize + tileSize / 2), fl)
  else if decide (v = 2%Z) then
    let fl :=
      if decide (FinishLine.y fl = 0%Z)
      then FinishLine.mk row (FinishLine.xStart fl) (FinishLine.xEnd fl)
      else fl in
    let fl :=
      if decide (FinishLine.xStart fl = 0%Z)
      then FinishLine.mk (FinishLine.y fl) col (FinishLine.xEnd fl)
      else fl in
    (sp, FinishLine.mk (FinishLine.y fl) (FinishLine.xStart fl) col)
  else (sp, fl).

Fixpoint detect_in_row (row col : Z) (r : list Z)
    (sf : p5.Vector * FinishLine.t) : p5.Vector * FinishLine.t :=
  match r with
  | [] => sf
  | v :: r' => detect_in_row row (col + 1)%Z r' (detect_tile row col v sf)
  end.

Fixpoint detect_from (row : Z) (rows : list (list Z))
    (sf : p5.Vector * FinishLine.t) : p5.Vector * FinishLine.t :=
  match rows with
  | [] => sf
  | r :: rows' => detect_from (row + 1)%Z rows' (detect_in_row row 0 r sf)
  end.

Definition detectSpawnAndFinish (s : Sketch) : Sketch :=
  let '(sp, fl) :=
    detect_from 0 mapa (spawnPoint (engine s), finishLine s) in
  set_finishLine fl (set_engine (set_spawnPoint sp (engine s)) s).


(** *** Brain persistence and keyboard (brain.js, sketch.js) *)

(** [showToast(msg)]; the timer that hides the toast is not modelled. *)
Definition showToast (msg : Toast) (s : Sketch) : Sketch :=
  set_toast (Some msg) s.

(** [brain.salvarEmLocalStorage()], with the default key ['bestBrain']:
    [JSON.parse] gives back what [JSON.stringify] was given, so the entry
    is kept parsed. *)
Definition salvarEmLocalStorage (b : Cerebro) (e : Engine) : Engine :=
  set_localStorage (Some (exportarPesos b)) e.

Definition salvarCerebro (s : Sketch) : Result Sketch :=
  let e := engine s in
  if decide (len (population e) = 0%Z) then Ok s
  else
    let e := set_population (Array_sort by_fitness (population e)) e in
    match index (population e) 0 with
    | None => Throw TypeError
    | Some best =>
        let e := salvarEmLocalStorage (brain best) e in
        Ok (showToast BrainSaved (set_engine e s))
    end.

Definition carregarCerebro (s : Sketch) : Result Sketch :=
  let e := engine s in
  let* (brain, n) := carregarDeLocalStorage (localStorage e) (random_calls e) in
  let e := set_random_calls n e in
  match brain with
  | None => Ok (showToast NoSavedBrain (set_engine e s))
  | Some brain =>
      let e := set_eliteBrains [brain] e in
      let e := set_generation 1%Z e in
      let e := set_totalFinished 0%Z e in
      let e := set_bestScoreEver 0 e in
      let* e := newGeneration e in
      Ok (showToast BrainLoaded (set_engine e s))
  end.

Definition resetarTudo (s : Sketch) : Result Sketch :=
  let e := engine s in
  let e := set_eliteBrains [] e in
  let e := set_generation 1%Z e in
  let e := set_totalFinished 0%Z e in
  let e := set_bestScoreEver 0 e in
  let* e := newGeneration e in
  Ok (showToast SimulationReset (set_engine e s)).

(** [keyPressed()], with [key] the global of p5.js; [frameRate] only
    paces the calls of [draw]. *)
Definition keyPressed (key : string) (s : Sketch) : Result Sketch :=
  let* s :=
    if bool_decide (key = "s") || bool_decide (key = "S")
    then salvarCerebro s else Ok s in
  let* s :=
    if bool_decide (key = "l") || bool_decide (key = "L")
    then carregarCerebro s else Ok s in
  let* s :=
    if bool_decide (key = "r") || bool_decide (key = "R")
    then resetarTudo s else Ok s in
  let s :=
    if bool_decide (key = "+") || bool_decide (key = "=") then
      let s := set_currentFPS (Qmin (currentFPS s * 2) 240) s in
      showToast (Speed (currentFPS s)) s
    else s in
  let s :=
    if bool_decide (key = "-") || bool_decide (key = "_") then
      let s := set_currentFPS (Qmax (currentFPS s / 2) 5) s in
      showToast (Speed (currentFPS s)) s
    else s in
  Ok s.


(** *** The HUD (sketch.js) *)

Definition updateHUD (s : Sketch) (aliveCount : Z) (leaderScore : option Q)
  : HUD :=
  let total := len (population (engine s)) in
  {| hud_gen := generation (engine s);
     hud_time := frameCount_ (engine s);
     hud_fps := currentFPS s;
     hud_alive := aliveCount;
     hud_total := total;
     hud_bar :=
       if decide (total = 0%Z) then None
       else Some (inject_Z aliveCount / inject_Z total * 100);
     hud_best_ever := p5.floor (bestScoreEver (engine s));
     hud_leader :=
       match leaderScore with
       | None => None
       | Some l => Some (p5.floor l)
       end;
     hud_finished := totalFinished (engine s) |}.

(** [draw()] up to its call of [updateHUD]: the cars are updated, the
    frame counter incremented and the best score raised before the HUD is
    written, the generation is ended after. *)
Definition draw_hud (s : Sketch) : Result HUD :=
  let* (e, aliveCount, leaderScore, leader) := draw_tick (engine s) in
  Ok (updateHUD (set_engine e s) aliveCount leaderScore).


(** * Vocabulary of the properties

    Predicates and functions in which the properties below are stated:
    the words of the specification, the invariants of cars and engines,
    and runs of several ticks. *)

(** The fitness formula in the words of the specification. *)
Definition fitness_words (c : Car) : Q :=
  let died_unfinished := negb (alive c) && negb (finished c) in
  let base := if died_unfinished then score c * 0.7 else score c in
  let averageSpeed := accumulatedSpeed c / Qmax 1 (inject_Z (framesAlive c)) in
  let survival := inject_Z (framesAlive c) * 0.1 + averageSpeed * 50 in
  let proximity := Qmax 0 ((1000 - bestDist c) * 0.2) in
  base + survival + proximity.

(** A tensor holds as many values as its shape says. *)
Definition tensor_ok (t : Tensor) : Prop :=
  foldr Nat.mul 1%nat (shape t) = length (dataSync t).

Definition brain_ok (b : Cerebro) : Prop :=
  Forall tensor_ok (getWeights (model b)).

(** The topology [dense(9 -> 5)], [dense(5 -> 2)]: kernel and bias of each
    layer. *)
Definition topology_9_5_2 (b : Cerebro) : Prop :=
  List.map shape (getWeights (model b)) = [[9; 5]; [5]; [5; 2]; [2]]%nat
  /\ brain_ok b.

(** The tile at a position, [None] where the grid has none. *)
Definition tile (p : Pos) : option Z :=
  match index mapa p.2 with
  | Some r => index r p.1
  | None => None
  end.

(** The bounds every method tests: [mapa.length] rows of [mapa[0].length]
    columns. *)
Definition in_grid (p : Pos) : Prop :=
  (0 <= p.2 < len mapa)%Z /\ (0 <= p.1 < len (hd [] mapa))%Z.

Definition non_wall (p : Pos) : Prop := in_grid p /\ tile p <> Some 1%Z.

Definition finish_tile (p : Pos) : Prop := tile p = Some 2%Z.

(** Cells joined to [s] by a 4-connected path whose cells after [s] are
    inside the grid and not walls. *)
Inductive reachable (s : Pos) : Pos -> Prop :=
  | reachable_start : reachable s s
  | reachable_step (p d : Pos) :
      reachable s p -> d ∈ dirs -> non_wall (p.1 + d.1, p.2 + d.2)%Z ->
      reachable s (p.1 + d.1, p.2 + d.2)%Z.

(** Cells at the end of a path of [n] steps from [s]. *)
Inductive reach_in (s : Pos) : nat -> Pos -> Prop :=
  | reach_in_O : reach_in s 0 s
  | reach_in_S (n : nat) (p d : Pos) :
      reach_in s n p -> d ∈ dirs -> non_wall (p.1 + d.1, p.2 + d.2)%Z ->
      reach_in s (S n) (p.1 + d.1, p.2 + d.2)%Z.

(** [n] is the length of a shortest path from [s] to [p]. *)
Definition shortest (s p : Pos) (n : nat) : Prop :=
  reach_in s n p /\ forall m, reach_in s m p -> (n <= m)%nat.

(** [n] is the length of a shortest path from [s] to a cell of [targets]. *)
Definition nearest_target (s : Pos) (targets : list Pos) (n : nat) : Prop :=
  (exists t, t ∈ targets /\ reach_in s n t)
  /\ forall m t, t ∈ targets -> reach_in s m t -> (n <= m)%nat.

(** [q] has been taken from the queue: it is no target and its non-wall
    neighbours are all visited. *)
Definition expanded (targets : list Pos) (visited : gset Pos) (q : Pos)
  : Prop :=
  (q ∉ targets)
  /\ forall d, d ∈ dirs -> non_wall (q.1 + d.1, q.2 + d.2)%Z ->
               (q.1 + d.1, q.2 + d.2)%Z ∈ visited.

(** Queue entries in the order of their step counts. *)
Definition by_steps (a b : Pos * Z) : Prop := (a.2 <= b.2)%Z.

(** The state of the search between two rounds of the [while] loop: queued
    cells carry their true distance, the queue is ordered by distance and
    spans at most two consecutive distances, every visited cell is queued
    or expanded, and every cell no further than the head is visited. *)
Definition bfs_inv (start : Pos) (targets : list Pos)
    (visited : gset Pos) (queue : list (Pos * Z)) : Prop :=
  start ∈ visited
  /\ (forall p k, (p, k) ∈ queue ->
        p ∈ visited /\ exists n, k = Z.of_nat n /\ shortest start p n)
  /\ (forall q, q ∈ visited ->
        (exists k, (q, k) ∈ queue) \/ expanded targets visited q)
  /\ StronglySorted by_steps queue
  /\ match queue with
     | [] => True
     | (_, k1) :: _ =>
         (forall p k, (p, k) ∈ queue -> (k <= k1 + 1)%Z)
         /\ (forall q m, reach_in start m q -> (Z.of_nat m <= k1)%Z ->
                         q ∈ visited)
     end.

Definition no_finish_tile : Prop := forall p, ~ finish_tile p.

Definition no_finish_reachable (s : Pos) : Prop :=
  forall p, finish_tile p -> ~ reachable s p.

(** The cells of the grid, as a finite set. *)
Definition grid_cells : gset Pos :=
  list_to_set
    (list_prod (seqZ 0 (len (hd [] mapa))) (seqZ 0 (len mapa))).

(** What the caches of a car hold: the finish tiles of the map, and for a
    cell the answer of the search from that cell. *)
Definition cache_sound (c : Car) : Prop :=
  Forall (fun kv => _bfs kv.1 (finish_from 0 mapa) = Ok kv.2)
    (_distanceCache c)
  /\ (_finishCache c = None \/ _finishCache c = Some (finish_from 0 mapa)).

(** The bound of the distance cache. *)
Definition cache_bounded (c : Car) : Prop :=
  (JsMap.size (_distanceCache c) <= 100)%Z.

(** [c'] is [c] up to the two caches. *)
Definition caches_only (c c' : Car) : Prop :=
  exists m f, c' = set_distanceCache m (set_finishCache f c).

(** The fields that the movement step leaves alone. *)
Definition same_ledger (c c' : Car) : Prop :=
  alive c' = alive c /\ finished c' = finished c /\ score c' = score c
  /\ idleFrames c' = idleFrames c /\ collisions c' = collisions c
  /\ accumulatedSpeed c' = accumulatedSpeed c
  /\ distToFinish c' = distToFinish c /\ bestDist c' = bestDist c
  /\ _finishCache c' = _finishCache c /\ _distanceCache c' = _distanceCache c
  /\ brain c' = brain c /\ sensors c' = sensors c.

(** The fields that the scoring steps (speed, progress, finish line,
    collision) leave alone. *)
Definition same_body (c c' : Car) : Prop :=
  x c' = x c /\ y c' = y c /\ vel c' = vel c /\ angle c' = angle c
  /\ idleFrames c' = idleFrames c /\ framesAlive c' = framesAlive c
  /\ brain c' = brain c /\ sensors c' = sensors c
  /\ readings c' = readings c
  /\ distanceTravelled c' = distanceTravelled c
  /\ lastPosition c' = lastPosition c.

(** The car after [n] calls of [update]. *)
Fixpoint ticks (n : nat) (c : Car) : Result Car :=
  match n with
  | O => Ok c
  | S n' => let* c' := ticks n' c in let* (_, c'') := update c' in Ok c''
  end.

(** The car stands on a wall tile or outside the grid. *)
Definition off_road (c : Car) : Prop :=
  ~ in_grid (cell_of c) \/ tile (cell_of c) = Some 1%Z.

(** A finished car is halted. *)
Definition halted_when_finished (c : Car) : Prop :=
  finished c = true -> alive c = false.

(** The cars the program builds: made by [new Car], then updated or reset
    any number of times. *)
Inductive Reached : Car -> Prop :=
  | Reached_new x0 y0 b n c n' :
      new_Car x0 y0 b n = Ok (c, n') -> Reached c
  | Reached_update c c' :
      Reached c -> update c = Ok (tt, c') -> Reached c'
  | Reached_reset x0 y0 c c' :
      Reached c -> reset x0 y0 c = Ok (tt, c') -> Reached c'.

(** [a] may stand before [b] in a descending ranking. *)
Definition ranks_before (a b : Car) : Prop :=
  calcularFitness b <= calcularFitness a.

(** The cars whose fitness is [v], in the order of the list. *)
Definition with_fitness (v : Q) (l : list Car) : list Car :=
  List.filter (fun c => Qeq_bool (calcularFitness c) v) l.

(** What the generation manager needs of a car to go on: a well-formed
    brain, and a finished car is halted. *)
Definition car_ok (c : Car) : Prop :=
  brain_ok (brain c) /\ halted_when_finished c.

(** A population that can be ranked and bred from. *)
Definition population_ok (e : Engine) : Prop :=
  population e <> [] /\ Forall car_ok (population e).

Definition count_alive (cars : list Car) : Z :=
  len (filter (fun c => alive c = true) cars).

(** What [leaderScore] and [leader] hold once the cars [seen] have been
    updated: nothing when none of them is alive, else a live car of best
    score among the live ones. *)
Definition leader_of (seen : list Car) (leaderScore : option Q)
    (leader : option Car) : Prop :=
  match leader with
  | None => leaderScore = None /\ Forall (fun c => alive c = false) seen
  | Some l =>
      l ∈ seen /\ alive l = true /\ leaderScore = Some (score l)
      /\ Forall (fun c => alive c = true -> score c <= score l) seen
  end.

Definition engine_ok (e : Engine) : Prop :=
  transitioning e = false /\ population_ok e.

(** Alive, on the cell of the origin, not moving. *)
Definition at_rest (c : Car) : Prop :=
  alive c = true /\ finished c = false /\ collisions c = 0%Z
  /\ x c == 0 /\ y c == 0
  /\ p5.x (vel c) == 0 /\ p5.y (vel c) == 0.

(** The world leaves a resting car alone: the network asks for nothing,
    the square root of zero is zero, and the cell of the origin is a road
    tile of a map without finish tile. *)
Definition restful_world : Prop :=
  (forall m i, predict m i = (0, 0))
  /\ (forall q, q <= 0 -> Math_sqrt q = 0)
  /\ no_finish_tile /\ in_grid (0, 0)%Z /\ tile (0, 0)%Z <> Some 1%Z.

(** The counters of a car stay within the bounds at which it dies, and the
    best distance is never above the current one. *)
Definition counters_ok (c : Car) : Prop :=
  (0 <= collisions c <= 3)%Z /\ (0 <= idleFrames c <= 301)%Z
  /\ (idleFrames c <= framesAlive c)%Z
  /\ (alive c = true -> (collisions c <= 2)%Z /\ (idleFrames c <= 300)%Z)
  /\ bestDist c <= distToFinish c.


(** The car [reset] leaves behind, from the one [new Car] builds at the
    same place: the brain and the last readings are kept. *)
Definition respawned (old fresh : Car) : Car :=
  set_readings (readings old)
    (mkCar (x fresh) (y fresh) (vel fresh) (angle fresh) (alive fresh)
       (finished fresh) (brain old) (sensors fresh) (readings fresh)
       (score fresh) (distanceTravelled fresh) (lastPosition fresh)
       (accumulatedSpeed fresh) (framesAlive fresh) (idleFrames fresh)
       (collisions fresh) (_finishCache fresh) (_distanceCache fresh)
       (distToFinish fresh) (bestDist fresh)).

(** The position, heading and bookkeeping of the movement step of a tick,
    the fields that no later step of the tick assigns. *)
Definition same_motion (c1 c' : Car) : Prop :=
  x c' = x c1 /\ y c' = y c1 /\ vel c' = vel c1 /\ angle c' = angle c1
  /\ framesAlive c' = framesAlive c1
  /\ brain c' = brain c1 /\ sensors c' = sensors c1
  /\ readings c' = readings c1
  /\ distanceTravelled c' = distanceTravelled c1
  /\ lastPosition c' = lastPosition c1.

(** Each component of the velocity is at most [5.7] pixels per frame. *)
Definition speed_ok (c : Car) : Prop :=
  - (57 # 10) <= p5.x (vel c) <= 57 # 10
  /\ - (57 # 10) <= p5.y (vel c) <= 57 # 10.

(** Outputs of a [tanh] layer, and unit vectors from [cos] and [sin]. *)
Definition bounded_world : Prop :=
  (forall m i, -1 <= (predict m i).2 <= 1)
  /\ (forall a, -1 <= cos a <= 1) /\ (forall a, -1 <= sin a <= 1).


(** The number of weights of a brain: one call of [Math.random] each in
    [mutar]. *)
Definition weight_count (b : Cerebro) : nat :=
  foldr (fun t acc => (length (dataSync t) + acc)%nat) 0%nat
    (getWeights (model b)).

(** [Math.random()] returns values of [[0, 1)]. *)
Definition unit_tape : Prop := forall k, 0 <= tape k < 1.

(** [gap] bounds every run of zeros of the random source. *)
Definition gap_ok : Prop :=
  forall n, exists k, (k <= gap n)%nat /\ ~ tape (n + k)%nat == 0.

(** The shapes [importarPesos] gives its tensors: [data.shapes[i]], and a
    flat shape where that is [undefined]. *)
Definition shapes_read (data : Pesos) : list (list nat) :=
  imap (fun i vals => default [length vals] (shapes data !! i)) (values data).


(** The positions that hold the tile value [v], in the order in which the
    two loops of [detectSpawnAndFinish] and [_finishTiles] meet them. *)
Fixpoint scan_in_row (v : Z) (r c : Z) (row : list Z) : list Pos :=
  match row with
  | [] => []
  | w :: row' =>
      (if decide (w = v) then [(c, r)] else [])
        ++ scan_in_row v r (c + 1)%Z row'
  end.

Fixpoint scan_from (v : Z) (r : Z) (rows : list (list Z)) : list Pos :=
  match rows with
  | [] => []
  | row :: rows' => scan_in_row v r 0 row ++ scan_from v (r + 1)%Z rows'
  end.

(** The first entry that is not zero, and zero when there is none. *)
Definition first_nonzero (l : list Z) : Z :=
  hd 0%Z (filter (fun z => z <> 0%Z) l).

(** The centre of a tile, in pixels. *)
Definition centre (p : Pos) : p5.Vector :=
  p5.createVector (inject_Z p.1 * tileSize + tileSize / 2)
    (inject_Z p.2 * tileSize + tileSize / 2).

(** The tile under a point. *)
Definition cell_at (v : p5.Vector) : Pos :=
  (p5.floor (p5.x v / tileSize), p5.floor (p5.y v / tileSize)).

(** [q] is met no later than [p] by a scan of the rows from the top, each
    from the left. *)
Definition scanned_before (q p : Pos) : Prop :=
  (q.2 < p.2)%Z \/ (q.2 = p.2 /\ (q.1 <= p.1)%Z).


(** The brain [newGeneration] gives the car of index [i]: a mutated copy
    of an elite, taken in turn; without elites the stored brain, mutated
    for every car but the first; without either a new brain. *)
Definition breed (elites : list Cerebro) (storage : option Pesos)
    (i : Z) (n : nat) : Result (Cerebro * nat) :=
  if (len elites >? 0)%Z then
    match index elites (i mod len elites)%Z with
    | None => Throw TypeError
    | Some parent =>
        let* brain := copiaCerebro parent in
        mutar MUTATION_RATE brain n
    end
  else
    let* (saved, n) := carregarDeLocalStorage storage n in
    match saved with
    | Some brain =>
        if (i >? 0)%Z then mutar MUTATION_RATE brain n else Ok (brain, n)
    | None => Ok (new_Cerebro None n)
    end.

(** [c] is what [new Car(x0, y0, b)] builds. *)
Definition spawned (x0 y0 : Q) (b : Cerebro) (c : Car) : Prop :=
  exists n n', new_Car x0 y0 (Some b) n = Ok (c, n').

(** [b] is [parent] after [mutar(MUTATION_RATE)], at some state of the
    random source. *)
Definition mutant_of (parent b : Cerebro) : Prop :=
  exists n n', mutar MUTATION_RATE parent n = Ok (b, n').


(** The entry of [localStorage] is absent or was written by
    [salvarEmLocalStorage]. *)
Definition storage_ok (st : option Pesos) : Prop :=
  match st with
  | None => True
  | Some data => exists b0, topology_9_5_2 b0 /\ data = exportarPesos b0
  end.

(** The engine between two frames of a simulation that [setup] started. *)
Definition running (e : Engine) : Prop :=
  transitioning e = false
  /\ length (population e) = Z.to_nat POPULATION_SIZE
  /\ Forall (fun c => Reached c /\ topology_9_5_2 (brain c)) (population e)
  /\ (0 <= frameCount_ e <= MAX_FRAMES)%Z
  /\ (1 <= generation e)%Z /\ (0 <= totalFinished e)%Z
  /\ 0 <= bestScoreEver e
  /\ storage_ok (localStorage e).




(** The keys [keyPressed] listens to. *)
Definition bound_keys : list string :=
  ["s"; "S"; "l"; "L"; "r"; "R"; "+"; "="; "-"; "_"]%string.


(** The tile under the point of a ray at distance [d] from the car. *)
Definition ray_cell (c : Car) (ang : Q) (d : Z) : Pos :=
  (p5.floor ((x c + cos ang * inject_Z d) / tileSize),
   p5.floor ((y c + sin ang * inject_Z d) / tileSize)).

(** That point is outside the grid or on a wall tile. *)
Definition ray_blocked (c : Car) (ang : Q) (d : Z) : Prop :=
  ~ in_grid (ray_cell c ang d) \/ tile (ray_cell c ang d) = Some 1%Z.


(** What [leader] holds once the cars [seen] have been updated: the first
    of the live cars of best score. *)
Definition first_leader (seen : list Car) (leader : option Car) : Prop :=
  match leader with
  | None => Forall (fun c => alive c = false) seen
  | Some l =>
      exists i : nat,
        seen !! i = Some l /\ alive l = true
        /\ (forall j c, seen !! j = Some c -> alive c = true ->
                        score c <= score l)
        /\ (forall j c, (j < i)%nat -> seen !! j = Some c ->
                        alive c = true -> score c < score l)
  end.


(** What one tick adds to the score before its finish-line and collision
    steps: the speed bonus for the speed [speed] after the move, and the
    progress bonus for the distance [d] to the finish line against the
    distance [prevDist] of the tick before. *)
Definition speed_bonus (speed : Q) : Q :=
  if Qltb 1.5 speed then speed * 0.2
  else if Qltb 0.5 speed then speed * 0.15
  else 0.

Definition progress_bonus (prevDist d : Q) : Q :=
  if Qltb d prevDist then (prevDist - d) * 0.3 else 0.

Definition accrued (c c' : Car) : Q :=
  speed_bonus (mag (vel c'))
  + progress_bonus (distToFinish c) (distToFinish c').

(** The tiles have a size: [floor(p / tileSize)] is a number. *)
Definition tiles_sized : Prop := ~ tileSize == 0.

(** The network can take the readings of the car: one reading for each of
    the nine inputs of [dense(9 -> 5)]. *)
Definition drivable (c : Car) : Prop :=
  length (sensors c) = 9%nat /\ topology_9_5_2 (brain c).

(** The numbers a [float32] tensor stores as they are: [m * 2 ^ e] with a
    significand of at most 24 bits and an exponent from the smallest
    subnormal to the largest finite value. *)
Definition float32 (q : Q) : Prop :=
  exists m e : Z,
    (Z.abs m < 2 ^ 24)%Z /\ (-149 <= e <= 104)%Z /\ q == inject_Z m * 2 ^ e.


(** * Properties *)

(** ** The grid never raises *)

Lemma index_Some {A} (a : list A) (i : Z) :
  (0 <= i < len a)%Z -> exists v, index a i = Some v.
Proof.
  intros [Hlo Hhi]. unfold index, len in *.
  destruct (Z.ltb_spec i 0); [lia|].
  apply lookup_lt_is_Some_2. lia.
Qed.

Lemma mapa_at_inside (row col : Z) :
  (0 <= row < len mapa)%Z ->
  exists r, index mapa row = Some r /\ mapa_at row col = Ok (index r col).
Proof.
  intros H. destruct (index_Some mapa row H) as [r Hr].
  exists r. unfold mapa_at. rewrite Hr. auto.
Qed.

Lemma outside_cases (row col : Z) :
  outside row col = Ok true \/
  (outside row col = Ok false /\
   (0 <= row < len mapa)%Z /\ (0 <= col < len (hd [] mapa))%Z).
Proof.
  unfold outside.
  destruct (Z.ltb_spec row 0); [auto|].
  destruct (Z.geb_spec row (len mapa)); [auto|].
  destruct (Z.ltb_spec col 0); [auto|].
  unfold mapa_0_length.
  destruct mapa as [|r rows] eqn:E; [unfold len in *; simpl in *; lia|].
  simpl. destruct (Z.geb_spec col (len r)); [auto|].
  right. repeat split; auto; lia.
Qed.

(** ** Sensors *)

Lemma _sensorReading_from_range (c : Car) (ang : Q) (n : nat) (d : Z) :
  (0 <= d)%Z -> (d + 5 * Z.of_nat n <= 200)%Z ->
  exists r, _sensorReading_from c ang n d = Ok r /\ 0 <= r <= 200.
Proof.
  revert d. induction n as [|n IH]; intros d Hlo Hhi.
  - exists 200. simpl. split; [reflexivity|]. split; discriminate.
  - assert (Hd : 0 <= inject_Z d <= 200).
    { split.
      - change 0 with (inject_Z 0). rewrite <- Zle_Qle. lia.
      - change 200 with (inject_Z 200). rewrite <- Zle_Qle. lia. }
    cbn [_sensorReading_from].
    match goal with
    | |- context [outside ?r ?k] =>
        destruct (outside_cases r k) as [Ho | (Ho & Hr & Hk)]; rewrite Ho;
        cbn [bind]; [eauto|];
        destruct (mapa_at_inside r k Hr) as (rw & _ & Hat); rewrite Hat;
        cbn [bind]
    end.
    destruct (decide _); [eauto|].
    apply IH; lia.
Qed.

(** Every raw ray distance lies in [[0, 200]]. *)
Lemma _sensorReading_range (c : Car) (offset : Q) :
  exists r, _sensorReading c offset = Ok r /\ 0 <= r <= 200.
Proof.
  unfold _sensorReading. apply _sensorReading_from_range; simpl; lia.
Qed.

Lemma sensors_range (c : Car) (offsets : list Q) :
  exists rs, mapM (_sensorReading c) offsets = Ok rs /\
             length rs = length offsets /\
             Forall (fun r => 0 <= r <= 200) rs.
Proof.
  induction offsets as [|o os (rs & Hrs & Hlen & Hall)].
  - exists []. simpl. auto.
  - destruct (_sensorReading_range c o) as (r & Hr & Hrange).
    exists (r :: rs). cbn [mapM]. rewrite Hr, Hrs. cbn [bind].
    split; [reflexivity|]. split; [simpl; congruence|]. constructor; auto.
Qed.

(** The value fed to the network for a raw distance [v] is [1 - v / 200]. *)
Lemma input_of_reading (v : Q) : p5.map v 0 200 1 0 == 1 - v / 200.
Proof. unfold p5.map. field. Qed.

(** Every normalised reading lies in [[0, 1]]. *)
Lemma inputs_of_range (rs : list Q) :
  Forall (fun r => 0 <= r <= 200) rs ->
  Forall (fun i => 0 <= i <= 1) (inputs_of rs).
Proof.
  unfold inputs_of. induction 1 as [|r rs [Hlo Hhi] _ IH]; simpl; constructor; auto.
  rewrite input_of_reading. unfold Qdiv. change (/ 200) with (1 # 200).
  split; lra.
Qed.

(** The normalisation is decreasing: a clear ray (raw distance 200) is fed
    as [0] and a wall at distance zero as [1]. *)
Lemma input_of_clear_and_wall :
  p5.map 200 0 200 1 0 == 0 /\ p5.map 0 0 200 1 0 == 1.
Proof. split; reflexivity. Qed.

(** ** Fitness *)

(** C2: [calcularFitness] is the clamp at zero of the formula of the
    specification (score, times 0.7 exactly for a car that is dead and
    not finished, plus the survival and average-speed terms, plus the
    clamped proximity bonus), and is therefore never negative. *)
Theorem C2_fitness_formula_nonneg (c : Car) :
  calcularFitness c == Qmax 0 (fitness_words c) /\ 0 <= calcularFitness c.
Proof.
  split.
  - unfold calcularFitness, fitness_words.
    destruct (negb (alive c) && negb (finished c));
      apply Q.max_compat; try reflexivity; ring.
  - unfold calcularFitness. apply Q.le_max_l.
Qed.

(** ** Dead cars are frozen *)

(** C9: [update] on a car whose [alive] flag is false returns at once and
    leaves every field as it was. *)
Theorem C9_update_dead_is_identity (c : Car) :
  alive c = false -> update c = Ok (tt, c).
Proof.
  intros Hdead. unfold update. rewrite Hdead. reflexivity.
Qed.

(** ** Export and import of weights *)

Lemma tf_clone_id (t : Tensor) : tf_clone t = t.
Proof. destruct t; reflexivity. Qed.

Lemma map_tf_clone (ts : list Tensor) : List.map tf_clone ts = ts.
Proof.
  induction ts as [|t ts IH]; simpl; [reflexivity|].
  rewrite tf_clone_id, IH. reflexivity.
Qed.

Lemma setWeights_same_shapes (m : Sequential) (ws : list Tensor) :
  List.map shape (getWeights m) = List.map shape ws ->
  setWeights m ws = Ok (mkSequential ws).
Proof.
  intros Hs. unfold setWeights.
  assert (Hl : length (getWeights m) = length ws).
  { rewrite <- (length_map shape (getWeights m)), Hs. apply length_map. }
  destruct (decide _); [|contradiction].
  destruct (decide _); [reflexivity|contradiction].
Qed.

(** A clone has the values of the original, and cloning never raises. *)
Lemma copiaCerebro_ok (b : Cerebro) : copiaCerebro b = Ok b.
Proof.
  unfold copiaCerebro. rewrite map_tf_clone.
  rewrite setWeights_same_shapes by reflexivity.
  destruct b as [[ws]]; reflexivity.
Qed.

Lemma tf_tensor_ok (t : Tensor) :
  tensor_ok t -> tf_tensor (dataSync t) (Some (shape t)) = Ok t.
Proof.
  unfold tensor_ok, tf_tensor. intros H. simpl.
  destruct (decide _); [|contradiction]. destruct t; reflexivity.
Qed.

Lemma importar_tensors_export (all : list Tensor) (vs : list (list Q)) :
  forall (i : nat) (ws : list Tensor),
    drop i all = ws -> Forall tensor_ok ws ->
    importar_tensors (mkPesos (List.map shape all) vs) i
      (List.map dataSync ws) = Ok ws.
Proof.
  intros i ws. revert i.
  induction ws as [|t ws IH]; intros i Hdrop Hok; [reflexivity|].
  inversion Hok as [|? ? Ht Hws]; subst.
  cbn [importar_tensors List.map shapes].
  assert (Hi : all !! i = Some t).
  { rewrite <- (Nat.add_0_r i), <- lookup_drop, Hdrop. reflexivity. }
  rewrite list_lookup_fmap_Some_2 with (x := t) by exact Hi.
  rewrite (tf_tensor_ok t Ht). cbn [bind].
  rewrite IH; [reflexivity| |assumption].
  replace (S i) with (i + 1)%nat by lia.
  rewrite <- drop_drop, Hdrop. reflexivity.
Qed.

(** C7: importing what a brain of the fixed topology exports, into any
    brain of that topology (the brain itself included), succeeds and
    yields exactly the exported brain: same kernels and biases, same
    shapes. *)
Theorem C7_import_export_roundtrip (p q : Cerebro) :
  topology_9_5_2 p -> topology_9_5_2 q ->
  exists r, importarPesos q (exportarPesos p) = Ok r
            /\ List.map dataSync (getWeights (model r))
               = List.map dataSync (getWeights (model p))
            /\ List.map shape (getWeights (model r))
               = List.map shape (getWeights (model q))
            /\ r = p.
Proof.
  intros [Hp Hokp] [Hq _]. exists p.
  assert (Himp : importarPesos q (exportarPesos p) = Ok p).
  { unfold importarPesos, exportarPesos. cbn [values].
    rewrite (importar_tensors_export _ _ 0 (getWeights (model p)))
      by (auto using drop_0).
    cbn [bind]. rewrite setWeights_same_shapes by congruence.
    destruct p as [[ws]]; reflexivity. }
  repeat split; auto. congruence.
Qed.

(** ** Breadth-first search *)

Lemma _tileWalkable_spec (p : Pos) :
  exists b, _tileWalkable p = Ok b /\ (b = true <-> non_wall p).
Proof.
  unfold _tileWalkable, non_wall, in_grid, tile.
  destruct (outside_cases p.2 p.1) as [Ho | (Ho & Hr & Hc)]; rewrite Ho;
    cbn [bind].
  - exists false. split; [reflexivity|]. split; [discriminate|].
    intros [[Hr Hc] _]. revert Ho. unfold outside.
    destruct (Z.ltb_spec p.2 0); [lia|].
    destruct (Z.geb_spec p.2 (len mapa)); [lia|].
    destruct (Z.ltb_spec p.1 0); [lia|].
    unfold mapa_0_length. destruct mapa as [|r rows]; [discriminate|].
    simpl in *. destruct (Z.geb_spec p.1 (len r)); [lia|discriminate].
  - destruct (mapa_at_inside p.2 p.1 Hr) as (r & Hir & Hat).
    rewrite Hat, Hir. cbn [bind].
    destruct (decide (index r p.1 = Some 1%Z)) as [E|E].
    + exists false. split; [reflexivity|]. split; [discriminate|].
      intros [_ Hne]. contradiction.
    + exists true. split; [reflexivity|]. split; auto.
Qed.

Lemma size_union_le (X Y : gset Pos) : (size (X ∪ Y) <= size X + size Y)%nat.
Proof.
  rewrite size_union_alt.
  pose proof (subseteq_size _ _ (subseteq_difference_l Y X Y (reflexivity Y))).
  lia.
Qed.

Lemma size_list_to_set_le (l : list Pos) :
  (size (list_to_set l : gset Pos) <= length l)%nat.
Proof.
  induction l as [|a l IH].
  - rewrite list_to_set_nil, size_empty. lia.
  - rewrite list_to_set_cons.
    etransitivity; [apply size_union_le|]. rewrite size_singleton.
    simpl. lia.
Qed.

Lemma in_grid_cells (p : Pos) : in_grid p -> p ∈ grid_cells.
Proof.
  intros [Hr Hc]. unfold grid_cells. apply elem_of_list_to_set.
  destruct p as [px py]. apply list_elem_of_In, in_prod;
    apply list_elem_of_In, elem_of_seqZ; simpl in *; lia.
Qed.

Lemma size_grid_cells :
  (size grid_cells <= length mapa * length (hd [] mapa))%nat.
Proof.
  unfold grid_cells. etransitivity; [apply size_list_to_set_le|].
  unfold Pos. rewrite length_prod, !length_seqZ. unfold len.
  rewrite !Nat2Z.id. lia.
Qed.

Lemma is_target_true (targets : list Pos) (p : Pos) :
  is_target targets p = true -> p ∈ targets.
Proof.
  unfold is_target. intros H. apply existsb_exists in H as (t & Hin & Heq).
  apply bool_decide_eq_true in Heq. subst. apply list_elem_of_In, Hin.
Qed.

(** One round of neighbours: nothing raises, every cell that enters the
    queue also enters [visited] for the first time, lies in the grid and
    is a non-wall neighbour of [pos]. *)
Lemma _bfs_expand_spec (pos : Pos) (steps : Z) (ds : list Pos) :
  forall (visited : gset Pos) (queue : list (Pos * Z)),
  exists visited' queue',
    _bfs_expand pos steps ds visited queue = Ok (visited', queue')
    /\ visited' ⊆ visited ∪ grid_cells
    /\ (length queue' + size visited = length queue + size visited')%nat
    /\ forall qs, qs ∈ queue' ->
         qs ∈ queue \/
         exists d, d ∈ ds /\ qs.1 = (pos.1 + d.1, pos.2 + d.2)%Z
                   /\ non_wall qs.1.
Proof.
  induction ds as [|d ds IH]; intros visited queue.
  - exists visited, queue. cbn [_bfs_expand].
    split; [reflexivity|]. split; [set_solver|]. split; [lia|]. auto.
  - cbn [_bfs_expand].
    set (np := ((pos.1 + d.1)%Z, (pos.2 + d.2)%Z) : Pos).
    destruct (decide _) as [Hin | Hnin].
    { destruct (IH visited queue) as (v' & q' & Hrun & Hsub & Hsize & Hq).
      exists v', q'. split; [exact Hrun|]. split; [exact Hsub|].
      split; [exact Hsize|].
      intros qs Hqs. destruct (Hq qs Hqs) as [?|(d' & ? & ? & ?)]; auto.
      right. exists d'. split; [set_solver|auto]. }
    destruct (_tileWalkable_spec np) as (b & Hw & Hb). rewrite Hw.
    cbn [bind]. destruct b.
    + assert (Hnw : non_wall np) by (apply Hb; reflexivity).
      destruct (IH ({[np]} ∪ visited) (queue ++ [(np, (steps + 1)%Z)]))
        as (v' & q' & Hrun & Hsub & Hsize & Hq).
      exists v', q'. split; [exact Hrun|].
      split.
      { pose proof (in_grid_cells np (proj1 Hnw)). set_solver. }
      split.
      { rewrite size_union, size_singleton in Hsize by set_solver.
        rewrite length_app in Hsize. simpl in Hsize. lia. }
      intros qs Hqs. destruct (Hq qs Hqs) as [Hold|(d' & ? & ? & ?)].
      * apply elem_of_app in Hold as [?|Hnew]; auto.
        apply list_elem_of_singleton in Hnew. subst qs.
        right. exists d. split; [set_solver|auto].
      * right. exists d'. split; [set_solver|auto].
    + destruct (IH visited queue) as (v' & q' & Hrun & Hsub & Hsize & Hq).
      exists v', q'. split; [exact Hrun|]. split; [exact Hsub|].
      split; [exact Hsize|].
      intros qs Hqs. destruct (Hq qs Hqs) as [?|(d' & ? & ? & ?)]; auto.
      right. exists d'. split; [set_solver|auto].
Qed.

(** The loop ends within its budget, raises nothing, and answers either
    the sentinel or the distance of a target that is reachable. *)
Lemma _bfs_loop_spec (start : Pos) (targets : list Pos) (fuel : nat) :
  forall (visited : gset Pos) (queue : list (Pos * Z)),
    visited ⊆ {[start]} ∪ grid_cells ->
    (length queue + size ({[start]} ∪ grid_cells) < fuel + size visited)%nat ->
    Forall (fun qs => reachable start qs.1) queue ->
    exists r, _bfs_loop fuel targets visited queue = Ok r
              /\ (r = 9999 \/ exists p, reachable start p /\ p ∈ targets).
Proof.
  induction fuel as [|fuel IH]; intros visited queue Hsub Hsize Hreach.
  - apply subseteq_size in Hsub. lia.
  - cbn [_bfs_loop]. destruct queue as [|[pos steps] rest].
    { exists 9999. auto. }
    inversion Hreach as [|? ? Hpos Hrest]; subst. simpl in Hpos.
    destruct (is_target targets pos) eqn:Ht.
    { eexists. split; [reflexivity|]. right. exists pos.
      split; [exact Hpos|]. apply is_target_true, Ht. }
    destruct (_bfs_expand_spec pos steps dirs visited rest)
      as (v' & q' & Hrun & Hsub' & Hsz & Hq).
    rewrite Hrun. cbn [bind]. apply IH.
    + set_solver.
    + simpl in Hsize. lia.
    + apply Forall_forall. intros qs Hqs.
      destruct (Hq qs Hqs) as [Hold|(d & Hd & Heq & Hnw)].
      * rewrite Forall_forall in Hrest. auto.
      * destruct qs as [q s]. simpl in *. subst q.
        apply reachable_step; auto.
Qed.

Lemma _bfs_spec (start : Pos) (targets : list Pos) :
  exists r, _bfs start targets = Ok r
            /\ (r = 9999 \/ exists p, reachable start p /\ p ∈ targets).
Proof.
  unfold _bfs. destruct (is_target targets start) eqn:Ht.
  - exists 0. split; [reflexivity|]. right. exists start.
    split; [constructor|]. apply is_target_true, Ht.
  - apply _bfs_loop_spec.
    + set_solver.
    + rewrite size_singleton. simpl. unfold bfs_budget.
      pose proof (size_union_le {[start]} grid_cells) as Hu.
      rewrite size_singleton in Hu. pose proof size_grid_cells. lia.
    + constructor; [constructor|constructor].
Qed.

(** ** The finish tiles *)

Lemma finish_in_row_elem (r : Z) (row : list Z) :
  forall (c0 : Z) (p : Pos),
    p ∈ finish_in_row r c0 row <->
    p.2 = r /\ exists k : nat,
      row !! k = Some 2%Z /\ p.1 = (c0 + Z.of_nat k)%Z.
Proof.
  induction row as [|v row IH]; intros c0 p; cbn [finish_in_row].
  - split; [intros H; inversion H|intros (_ & k & Hk & _); discriminate].
  - rewrite elem_of_app, IH. split.
    + intros [Hhd | (Hr & k & Hk & Hp)].
      * destruct (decide (v = 2%Z)); [|inversion Hhd].
        apply list_elem_of_singleton in Hhd. subst. simpl.
        split; [reflexivity|]. exists 0%nat. split; [reflexivity|lia].
      * split; [exact Hr|]. exists (S k). split; [exact Hk|lia].
    + intros (Hr & [|k] & Hk & Hp).
      * left. simpl in Hk. injection Hk as ->.
        destruct (decide _); [|contradiction].
        apply list_elem_of_singleton. destruct p; simpl in *. f_equal; lia.
      * right. split; [exact Hr|]. exists k. split; [exact Hk|lia].
Qed.

Lemma finish_from_elem (rows : list (list Z)) :
  forall (r0 : Z) (p : Pos),
    p ∈ finish_from r0 rows <->
    exists (i k : nat) (row : list Z),
      rows !! i = Some row /\ row !! k = Some 2%Z
      /\ p.2 = (r0 + Z.of_nat i)%Z /\ p.1 = Z.of_nat k.
Proof.
  induction rows as [|row rows IH]; intros r0 p; cbn [finish_from].
  - split; [intros H; inversion H|intros (i & k & r & Hi & _); discriminate].
  - rewrite elem_of_app, finish_in_row_elem, IH. split.
    + intros [(Hr & k & Hk & Hp) | (i & k & r & Hi & Hk & Hr & Hp)].
      * exists 0%nat, k, row. repeat split; auto; lia.
      * exists (S i), k, r. repeat split; auto; lia.
    + intros ([|i] & k & r & Hi & Hk & Hr & Hp).
      * left. simpl in Hi. injection Hi as ->.
        split; [lia|]. exists k. split; [exact Hk|lia].
      * right. exists i, k, r. repeat split; auto; lia.
Qed.

(** [_finishTiles] collects exactly the finish tiles. *)
Lemma finish_from_mapa (p : Pos) :
  p ∈ finish_from 0 mapa <-> finish_tile p.
Proof.
  rewrite finish_from_elem. unfold finish_tile, tile, index.
  destruct p as [px py]. simpl. split.
  - intros (i & k & row & Hi & Hk & -> & ->).
    destruct (Z.ltb_spec (0 + Z.of_nat i) 0); [lia|].
    rewrite Z.add_0_l, Nat2Z.id, Hi.
    destruct (Z.ltb_spec (Z.of_nat k) 0); [lia|].
    rewrite Nat2Z.id. exact Hk.
  - destruct (Z.ltb_spec py 0); [discriminate|].
    destruct (mapa !! Z.to_nat py) as [row|] eqn:Hrow; [|discriminate].
    destruct (Z.ltb_spec px 0); [discriminate|].
    intros Hk. exists (Z.to_nat py), (Z.to_nat px), row.
    repeat split; auto; lia.
Qed.

Lemma no_finish_tile_targets : no_finish_tile -> finish_from 0 mapa = [].
Proof.
  intros Hno. destruct (finish_from 0 mapa) as [|p ps] eqn:E; [reflexivity|].
  exfalso. apply (Hno p), finish_from_mapa. rewrite E. left.
Qed.

Lemma no_finish_tile_unreachable (s : Pos) :
  no_finish_tile -> no_finish_reachable s.
Proof. intros Hno p Hp _. exact (Hno p Hp). Qed.

(** From a cell that reaches no finish tile, the search answers 9999. *)
Lemma _bfs_unreachable (start : Pos) :
  no_finish_reachable start -> _bfs start (finish_from 0 mapa) = Ok 9999.
Proof.
  intros Hno.
  destruct (_bfs_spec start (finish_from 0 mapa)) as (r & Hr & [->|Hp]).
  - exact Hr.
  - exfalso. destruct Hp as (p & Hreach & Hin).
    apply finish_from_mapa in Hin. exact (Hno p Hin Hreach).
Qed.

(** ** The distance cache *)

Lemma JsMap_get_elem {V} (k : Pos) (v : V) (m : list (Pos * V)) :
  JsMap.get k m = Some v -> (k, v) ∈ m.
Proof.
  induction m as [|[k' v'] m IH]; cbn [JsMap.get]; [discriminate|].
  destruct (decide (k = k')) as [->|_].
  - intros [= ->]. left.
  - intros H. right. auto.
Qed.

Lemma JsMap_set_Forall {V} (P : Pos * V -> Prop) k v (m : list (Pos * V)) :
  Forall P m -> P (k, v) -> Forall P (JsMap.set k v m).
Proof.
  intros Hm Hkv. induction Hm as [|[k' v'] m Hx Hm IH]; cbn [JsMap.set].
  - constructor; auto.
  - destruct (decide (k = k')); constructor; auto.
Qed.

Lemma JsMap_delete_Forall {V} (P : Pos * V -> Prop) k (m : list (Pos * V)) :
  Forall P m -> Forall P (JsMap.delete k m).
Proof.
  intros Hm. induction Hm as [|[k' v'] m Hx Hm IH]; cbn [JsMap.delete].
  - constructor.
  - destruct (decide (k = k')); [assumption|constructor; auto].
Qed.

Lemma caches_only_refl (c : Car) : caches_only c c.
Proof.
  exists (_distanceCache c), (_finishCache c). destruct c; reflexivity.
Qed.

Lemma caches_only_set_distanceCache (c c' : Car) m :
  caches_only c c' -> caches_only c (set_distanceCache m c').
Proof. intros (m' & f & ->). exists m, f. reflexivity. Qed.

Lemma caches_only_set_finishCache (c : Car) f :
  caches_only c (set_finishCache f c).
Proof. exists (_distanceCache c), f. destruct c; reflexivity. Qed.

Lemma _bfs_no_targets (start : Pos) : _bfs start [] = Ok 9999.
Proof.
  destruct (_bfs_spec start []) as (r & Hr & [->|(p & _ & Hin)]); [exact Hr|].
  inversion Hin.
Qed.

(** The oracle never raises; on a car with sound caches it answers what
    the search from the car's cell answers, and touches only the caches. *)
Lemma _bfsDistanceToFinish_spec (c : Car) :
  cache_sound c ->
  exists d c', _bfsDistanceToFinish c = Ok (d, c')
               /\ _bfs (cell_of c) (finish_from 0 mapa) = Ok d
               /\ cache_sound c' /\ caches_only c c'.
Proof.
  intros [Hcache Hfin]. unfold _bfsDistanceToFinish.
  destruct (JsMap.get (cell_of c) (_distanceCache c)) as [v|] eqn:Hget.
  { exists v, c. split; [reflexivity|]. split.
    - apply JsMap_get_elem in Hget. rewrite Forall_forall in Hcache.
      exact (Hcache _ Hget).
    - split; [split; assumption|apply caches_only_refl]. }
  set (c1 := match _finishCache c with
             | Some _ => c
             | None => set_finishCache (Some (finish_from 0 mapa)) c
             end).
  assert (Hft : _finishTiles c = Ok (finish_from 0 mapa, c1)).
  { unfold _finishTiles, c1. destruct Hfin as [-> | ->]; reflexivity. }
  assert (Hc1 : _distanceCache c1 = _distanceCache c
                /\ _finishCache c1 = Some (finish_from 0 mapa)
                /\ caches_only c c1).
  { unfold c1. destruct Hfin as [E | E]; rewrite E; simpl.
    - split; [reflexivity|]. split; [reflexivity|].
      apply caches_only_set_finishCache.
    - split; [reflexivity|]. split; [exact E|apply caches_only_refl]. }
  destruct Hc1 as (Hd1 & Hf1 & Hco1).
  rewrite Hft. cbn [bind].
  destruct (decide (len (finish_from 0 mapa) = 0%Z)) as [Hlen | Hlen].
  { exists 9999, c1. split; [reflexivity|].
    assert (Hnil : finish_from 0 mapa = []).
    { destruct (finish_from 0 mapa); [reflexivity|].
      unfold len in Hlen. simpl in Hlen. lia. }
    split; [rewrite Hnil; apply _bfs_no_targets|].
    split; [|exact Hco1].
    split; [rewrite Hd1; exact Hcache|right; exact Hf1]. }
  destruct (_bfs_spec (cell_of c) (finish_from 0 mapa)) as (d & Hd & _).
  rewrite Hd. cbn [bind]. eexists d, _. split; [reflexivity|].
  split; [reflexivity|].
  assert (Hset : Forall (fun kv => _bfs kv.1 (finish_from 0 mapa) = Ok kv.2)
                   (JsMap.set (cell_of c) d (_distanceCache c1))).
  { apply JsMap_set_Forall; [rewrite Hd1; exact Hcache|exact Hd]. }
  split.
  - split; simpl; [|right; exact Hf1].
    destruct (JsMap.size _ >? 100)%Z; [|exact Hset].
    destruct (JsMap.first_key _); [|exact Hset].
    apply JsMap_delete_Forall, Hset.
  - apply caches_only_set_distanceCache, Hco1.
Qed.

(** ** One tick of a car, step by step *)

Lemma update_move_spec (c : Car) :
  exists c', update_move c = Ok c'
             /\ same_ledger c c'
             /\ framesAlive c' = (framesAlive c + 1)%Z
             /\ length (readings c') = length (sensors c)
             /\ Forall (fun r => 0 <= r <= 200) (readings c')
             /\ Forall (fun i => 0 <= i <= 1) (inputs_of (readings c')).
Proof.
  unfold update_move.
  match goal with
  | |- context [mapM (_sensorReading ?c0) ?os] =>
      destruct (sensors_range c0 os) as (rs & Hrs & Hlen & Hrange)
  end.
  simpl in Hrs, Hlen. simpl. rewrite Hrs. cbn [bind].
  destruct (pensar _ _) as [rot throttle].
  eexists. split; [reflexivity|]. simpl.
  split; [repeat split|]. split; [reflexivity|].
  split; [exact Hlen|]. split; [exact Hrange|].
  apply inputs_of_range, Hrange.
Qed.

Lemma _hasCollided_spec (c : Car) :
  exists hit, _hasCollided c = Ok hit
              /\ (hit = true <-> ~ in_grid (cell_of c)
                                 \/ tile (cell_of c) = Some 1%Z).
Proof.
  unfold _hasCollided, in_grid, tile, cell_of. simpl.
  match goal with
  | |- context [outside ?r ?k] =>
      destruct (outside_cases r k) as [Ho | (Ho & Hr & Hk)]; rewrite Ho;
      cbn [bind]
  end.
  - exists true. split; [reflexivity|]. split; [|reflexivity].
    intros _. left. intros [Hr Hk]. revert Ho. unfold outside.
    match goal with
    | |- context [(?r <? 0)%Z] => destruct (Z.ltb_spec r 0); [lia|]
    end.
    match goal with
    | |- context [(?r >=? len mapa)%Z] =>
        destruct (Z.geb_spec r (len mapa)); [lia|]
    end.
    match goal with
    | |- context [(?k <? 0)%Z] => destruct (Z.ltb_spec k 0); [lia|]
    end.
    unfold mapa_0_length. destruct mapa as [|r0 rows]; [discriminate|].
    simpl in *.
    match goal with
    | |- context [(?k >=? len r0)%Z] =>
        destruct (Z.geb_spec k (len r0)); [lia|discriminate]
    end.
  - match goal with
    | |- context [mapa_at ?r ?k] =>
        destruct (mapa_at_inside r k Hr) as (rw & Hir & Hat);
        rewrite Hat, Hir; cbn [bind]
    end.
    destruct (decide _) as [E|E].
    + exists true. split; [reflexivity|]. split; auto.
    + exists false. split; [reflexivity|]. split; [discriminate|].
      intros [Hout | Hw]; [exfalso; apply Hout; split; assumption|].
      contradiction.
Qed.

Lemma on_finish_spec (row col : Z) :
  exists f, on_finish row col = Ok f
            /\ (f = true <-> in_grid (col, row) /\ finish_tile (col, row)).
Proof.
  unfold on_finish, in_grid, finish_tile, tile. simpl.
  destruct (Z.geb_spec row 0); cbn [negb];
    [|exists false; split; [reflexivity|];
      split; [discriminate|intros [[? ?] _]; lia]].
  destruct (Z.ltb_spec row (len mapa)); cbn [negb];
    [|exists false; split; [reflexivity|];
      split; [discriminate|intros [[? ?] _]; lia]].
  destruct (Z.geb_spec col 0); cbn [negb];
    [|exists false; split; [reflexivity|];
      split; [discriminate|intros [[? ?] _]; lia]].
  unfold mapa_0_length.
  destruct mapa as [|r0 rows] eqn:Em; [unfold len in *; simpl in *; lia|].
  cbn [bind hd]. rewrite <- Em in *.
  destruct (Z.ltb_spec col (len r0)); cbn [negb];
    [|exists false; split; [reflexivity|];
      split; [discriminate|intros [[? ?] _]; lia]].
  destruct (mapa_at_inside row col) as (rw & Hir & Hat); [lia|].
  rewrite Hat, Hir. cbn [bind].
  destruct (decide _) as [E|E].
  - exists true. split; [reflexivity|]. split; [|reflexivity].
    intros _. split; [split; lia|exact E].
  - exists false. split; [reflexivity|]. split; [discriminate|].
    intros [_ ?]. contradiction.
Qed.

Lemma same_body_refl (c : Car) : same_body c c.
Proof. repeat split. Qed.

Lemma same_body_trans (a b c : Car) :
  same_body a b -> same_body b c -> same_body a c.
Proof.
  unfold same_body. intros H1 H2.
  repeat match goal with H : _ /\ _ |- _ => destruct H end.
  repeat split; congruence.
Qed.

Lemma update_idle_eq (c : Car) :
  update_idle c
  = set_idleFrames
      (if Qltb (mag (vel c)) 0.1 then idleFrames c + 1 else 0)%Z c.
Proof. unfold update_idle. destruct (Qltb _ _); reflexivity. Qed.

Lemma update_speed_spec (c : Car) :
  same_body c (update_speed c)
  /\ alive (update_speed c) = alive c
  /\ finished (update_speed c) = finished c
  /\ collisions (update_speed c) = collisions c
  /\ distToFinish (update_speed c) = distToFinish c
  /\ bestDist (update_speed c) = bestDist c
  /\ _finishCache (update_speed c) = _finishCache c
  /\ _distanceCache (update_speed c) = _distanceCache c.
Proof.
  unfold update_speed.
  destruct (Qltb 1.5 _); [|destruct (Qltb 0.5 _)]; simpl; repeat split.
Qed.

Lemma _bfsDistanceToFinish_total (c : Car) :
  exists d c', _bfsDistanceToFinish c = Ok (d, c') /\ caches_only c c'.
Proof.
  unfold _bfsDistanceToFinish.
  destruct (JsMap.get _ _) as [v|].
  { exists v, c. split; [reflexivity|apply caches_only_refl]. }
  assert (Hft : exists ts c1, _finishTiles c = Ok (ts, c1) /\ caches_only c c1).
  { unfold _finishTiles. destruct (_finishCache c).
    - eexists _, _. split; [reflexivity|apply caches_only_refl].
    - eexists _, _. split; [reflexivity|apply caches_only_set_finishCache]. }
  destruct Hft as (ts & c1 & Hft & Hco). rewrite Hft. cbn [bind].
  destruct (decide _).
  { exists 9999, c1. split; [reflexivity|exact Hco]. }
  destruct (_bfs_spec (cell_of c) ts) as (d & Hd & _). rewrite Hd.
  cbn [bind]. eexists d, _. split; [reflexivity|].
  apply caches_only_set_distanceCache, Hco.
Qed.

Lemma update_progress_spec (c : Car) :
  exists c', update_progress c = Ok c'
             /\ same_body c c'
             /\ alive c' = alive c /\ finished c' = finished c
             /\ collisions c' = collisions c
             /\ accumulatedSpeed c' = accumulatedSpeed c
             /\ (cache_sound c -> cache_sound c').
Proof.
  unfold update_progress.
  destruct (_bfsDistanceToFinish_total c) as (d & c0 & Hd & Hco).
  assert (Hs : cache_sound c -> cache_sound c0).
  { intros Hc. destruct (_bfsDistanceToFinish_spec c Hc)
      as (d' & c0' & Hd' & _ & Hs & _). congruence. }
  destruct Hco as (m & f & ->).
  rewrite Hd. cbn [bind]. eexists. split; [reflexivity|].
  unfold cache_sound in *. simpl in *.
  repeat match goal with
         | |- context [if Qltb ?a ?b then _ else _] => destruct (Qltb a b)
         end; simpl; repeat split; tauto.
Qed.

Lemma update_finish_spec (c : Car) :
  exists c', update_finish c = Ok c'
             /\ (c' = c \/
                 (c' = cross_finish c /\ finished c = false
                  /\ in_grid (cell_of c) /\ finish_tile (cell_of c))).
Proof.
  unfold update_finish. destruct (finished c) eqn:Hf; cbn [negb].
  { exists c. auto. }
  match goal with
  | |- context [on_finish ?r ?k] =>
      destruct (on_finish_spec r k) as ([|] & Hon & Hiff); rewrite Hon
  end; cbn [bind].
  - exists (cross_finish c). split; [reflexivity|]. right.
    destruct Hiff as [Hiff _]. destruct (Hiff eq_refl). auto.
  - exists c. auto.
Qed.

Lemma update_collision_spec (c : Car) :
  exists c', update_collision c = Ok c'
             /\ ((c' = c /\ _hasCollided c = Ok false) \/
                 (c' = collide c /\ _hasCollided c = Ok true)).
Proof.
  unfold update_collision.
  destruct (_hasCollided_spec c) as ([|] & Hh & _); rewrite Hh; cbn [bind];
    eauto.
Qed.

(** The shape of one tick of a live car. *)
Lemma update_alive (c : Car) :
  alive c = true ->
  exists c1, update_move c = Ok c1 /\
    let c2 := update_idle c1 in
    if (idleFrames c2 >? 300)%Z
    then update c = Ok (tt, idle_death c2)
    else exists c3 c4 c5,
      update_progress (update_speed c2) = Ok c3
      /\ update_finish c3 = Ok c4
      /\ update_collision c4 = Ok c5
      /\ update c = Ok (tt, c5).
Proof.
  intros Ha. unfold update. rewrite Ha. cbn [negb].
  destruct (update_move_spec c) as (c1 & Hm & _). rewrite Hm. cbn [bind].
  exists c1. split; [reflexivity|]. cbv zeta.
  destruct (idleFrames (update_idle c1) >? 300)%Z; [reflexivity|].
  destruct (update_progress_spec (update_speed (update_idle c1)))
    as (c3 & H3 & _).
  destruct (update_finish_spec c3) as (c4 & H4 & _).
  destruct (update_collision_spec c4) as (c5 & H5 & _).
  exists c3, c4, c5. rewrite H3. cbn [bind]. rewrite H4. cbn [bind].
  rewrite H5. cbn [bind]. auto.
Qed.

(** [update] never raises. *)
Lemma update_total (c : Car) : exists c', update c = Ok (tt, c').
Proof.
  destruct (alive c) eqn:Ha.
  - destruct (update_alive c Ha) as (c1 & _ & H). cbv zeta in H.
    destruct (idleFrames (update_idle c1) >? 300)%Z; [eauto|].
    destruct H as (? & ? & c5 & _ & _ & _ & H). eauto.
  - exists c. unfold update. rewrite Ha. reflexivity.
Qed.

(** ** Idle death *)

Lemma Qltb_lt (a b : Q) : Qltb a b = true <-> a < b.
Proof.
  unfold Qltb. rewrite negb_true_iff, <- not_true_iff_false, Qle_bool_iff.
  split; [apply Qnot_le_lt|apply Qlt_not_le].
Qed.

(** A tick of a live car that ends slower than 0.1: the idle counter goes
    up by one; past 300 the car dies, pays 100, and nothing else of the
    tick happens. *)
Lemma update_slow (c c' : Car) :
  alive c = true -> update c = Ok (tt, c') -> mag (vel c') < 0.1 ->
  idleFrames c' = (idleFrames c + 1)%Z /\
  if (idleFrames c + 1 >? 300)%Z
  then alive c' = false /\ score c' = score c - 100
       /\ accumulatedSpeed c' = accumulatedSpeed c
       /\ distToFinish c' = distToFinish c /\ bestDist c' = bestDist c
       /\ finished c' = finished c /\ collisions c' = collisions c
       /\ _distanceCache c' = _distanceCache c
  else True.
Proof.
  intros Ha Hu Hslow.
  destruct (update_alive c Ha) as (c1 & Hm & Hcase). cbv zeta in Hcase.
  destruct (update_move_spec c) as (c1' & Hm' & Hled & _).
  assert (c1' = c1) by congruence. subst c1'.
  destruct Hled as (Hal & Hfi & Hsc & Hid & Hco & Hacc & Hdf & Hbd & _ & Hdc & _).
  rewrite update_idle_eq in Hcase. simpl in Hcase.
  destruct (Qltb (mag (vel c1)) 0.1) eqn:Hq.
  - rewrite Hid in Hcase.
    destruct (idleFrames c + 1 >? 300)%Z.
    + rewrite Hu in Hcase. injection Hcase as ->. simpl.
      repeat split; congruence.
    + destruct Hcase as (c3 & c4 & c5 & H3 & H4 & H5 & Hu').
      rewrite Hu in Hu'. injection Hu' as <-.
      split; [|exact I].
      destruct (update_progress_spec
                  (update_speed (set_idleFrames (idleFrames c + 1)%Z c1)))
        as (c3' & H3' & Hb3 & _).
      assert (c3' = c3) by congruence. subst c3'.
      destruct (update_speed_spec (set_idleFrames (idleFrames c + 1)%Z c1))
        as (Hb2 & _).
      destruct Hb2 as (_ & _ & _ & _ & Hi2 & _).
      destruct Hb3 as (_ & _ & _ & _ & Hi3 & _).
      destruct (update_finish_spec c3) as (c4' & H4' & Hc4).
      assert (c4' = c4) by congruence. subst c4'.
      destruct (update_collision_spec c4) as (c5' & H5' & Hc5).
      assert (c5' = c') by congruence. subst c5'.
      assert (Hi4 : idleFrames c4 = idleFrames c3)
        by (destruct Hc4 as [->|[-> _]]; reflexivity).
      assert (Hi5 : idleFrames c' = idleFrames c4).
      { destruct Hc5 as [[-> _]|[-> _]]; [reflexivity|].
        unfold collide. simpl. destruct (_ >? 2)%Z; reflexivity. }
      rewrite Hi5, Hi4, Hi3, Hi2. reflexivity.
  - exfalso. apply not_true_iff_false in Hq. apply Hq, Qltb_lt.
    replace (vel c1) with (vel c'); [exact Hslow|].
    destruct (0 >? 300)%Z eqn:E; [discriminate|].
    destruct Hcase as (c3 & c4 & c5 & H3 & H4 & H5 & Hu').
    rewrite Hu in Hu'. injection Hu' as <-.
    destruct (update_progress_spec (update_speed (set_idleFrames 0%Z c1)))
      as (c3' & H3' & Hb3 & _).
    assert (c3' = c3) by congruence. subst c3'.
    destruct (update_speed_spec (set_idleFrames 0%Z c1)) as (Hb2 & _).
    destruct Hb2 as (_ & _ & Hv2 & _).
    destruct Hb3 as (_ & _ & Hv3 & _).
    destruct (update_finish_spec c3) as (c4' & H4' & Hc4).
    assert (c4' = c4) by congruence. subst c4'.
    destruct (update_collision_spec c4) as (c5' & H5' & Hc5).
    assert (c5' = c') by congruence. subst c5'.
    assert (Hv4 : vel c4 = vel c3)
      by (destruct Hc4 as [->|[-> _]]; reflexivity).
    assert (Hv5 : vel c' = vel c4).
    { destruct Hc5 as [[-> _]|[-> _]]; [reflexivity|].
      unfold collide. simpl. destruct (_ >? 2)%Z; reflexivity. }
    rewrite Hv5, Hv4, Hv3, Hv2. reflexivity.
Qed.

Lemma ticks_S (n : nat) (c cn cn' : Car) :
  ticks n c = Ok cn -> ticks (S n) c = Ok cn' -> update cn = Ok (tt, cn').
Proof.
  intros Hn HS. cbn [ticks] in HS. rewrite Hn in HS. cbn [bind] in HS.
  destruct (update_total cn) as (c' & Hu). rewrite Hu in HS |- *.
  cbn [bind] in HS. congruence.
Qed.

(** C3: a live car whose speed after each of 301 consecutive ticks is
    below 0.1 dies on the 301st of them: the idle counter is then 301,
    above 300, [alive] becomes false, the score drops by exactly 100, and
    the tick stops there, so that the speed total, the distance to the
    finish, the best distance, the finished flag, the collision counter
    and the distance cache are those of before the tick. *)
Theorem C3_idle_death_on_tick_301 (c0 : Car) :
  (0 <= idleFrames c0)%Z ->
  (forall i, (i <= 300)%nat ->
             exists ci, ticks i c0 = Ok ci /\ alive ci = true) ->
  (forall i, (1 <= i <= 301)%nat ->
             exists ci, ticks i c0 = Ok ci /\ mag (vel ci) < 0.1) ->
  exists c300 c301,
    ticks 300 c0 = Ok c300 /\ update c300 = Ok (tt, c301)
    /\ idleFrames c301 = 301%Z /\ (idleFrames c301 > 300)%Z
    /\ alive c301 = false
    /\ score c301 = score c300 - 100
    /\ accumulatedSpeed c301 = accumulatedSpeed c300
    /\ distToFinish c301 = distToFinish c300
    /\ bestDist c301 = bestDist c300
    /\ finished c301 = finished c300
    /\ collisions c301 = collisions c300
    /\ _distanceCache c301 = _distanceCache c300.
Proof.
  intros Hidle Halive Hslow.
  assert (Hcount : forall i, (i <= 300)%nat ->
            exists ci, ticks i c0 = Ok ci
                       /\ idleFrames ci = (idleFrames c0 + Z.of_nat i)%Z
                       /\ ((1 <= i)%nat -> (idleFrames ci <= 300)%Z)).
  { induction i as [|i IH]; intros Hi.
    - exists c0. split; [reflexivity|]. split; [simpl; lia|lia].
    - destruct IH as (ci & Hci & Hcnt & _); [lia|].
      destruct (Halive i ltac:(lia)) as (ci' & Hci' & Hai).
      assert (ci' = ci) by congruence. subst ci'.
      destruct (Halive (S i) Hi) as (cj & Hcj & Haj).
      destruct (Hslow (S i) ltac:(lia)) as (cj' & Hcj' & Hsj).
      assert (cj' = cj) by congruence. subst cj'.
      pose proof (ticks_S i c0 ci cj Hci Hcj) as Hu.
      destruct (update_slow ci cj Hai Hu Hsj) as (Hinc & Hdie).
      exists cj. split; [exact Hcj|]. split; [lia|]. intros _.
      destruct (Z.gtb_spec (idleFrames ci + 1) 300); [|lia].
      destruct Hdie as (Hdead & _). congruence. }
  destruct (Hcount 300%nat ltac:(lia)) as (c300 & H300 & Hcnt & Hle).
  specialize (Hle ltac:(lia)).
  destruct (Halive 300%nat ltac:(lia)) as (c' & Hc' & Ha300).
  assert (c' = c300) by congruence. subst c'.
  destruct (Hslow 301%nat ltac:(lia)) as (c301 & H301 & Hs301).
  pose proof (ticks_S 300 c0 c300 c301 H300 H301) as Hu.
  destruct (update_slow c300 c301 Ha300 Hu Hs301) as (Hinc & Hdie).
  assert (Hz : idleFrames c300 = 300%Z) by lia.
  rewrite Hz in Hdie, Hinc. simpl in Hdie.
  exists c300, c301. split; [exact H300|]. split; [exact Hu|].
  split; [lia|]. split; [lia|]. exact Hdie.
Qed.

(** ** Collisions *)

Lemma cell_of_same (c c' : Car) :
  x c' = x c -> y c' = y c -> cell_of c' = cell_of c.
Proof. unfold cell_of. intros -> ->. reflexivity. Qed.

Lemma _hasCollided_same (c c' : Car) :
  x c' = x c -> y c' = y c -> _hasCollided c' = _hasCollided c.
Proof. unfold _hasCollided. intros -> ->. reflexivity. Qed.

Lemma collide_spec (c : Car) :
  collisions (collide c) = (collisions c + 1)%Z
  /\ score (collide c) = score c - 40 * inject_Z (collisions c + 1)
  /\ alive (collide c) = (if (collisions c + 1 >? 2)%Z then false else alive c)
  /\ finished (collide c) = finished c
  /\ same_body c (collide c).
Proof.
  unfold collide. simpl. destruct (collisions c + 1 >? 2)%Z; simpl;
    repeat split.
Qed.

Lemma collide_distToFinish (c : Car) :
  distToFinish (collide c) = distToFinish c.
Proof. unfold collide. simpl. destruct (_ >? _)%Z; reflexivity. Qed.

Lemma update_speed_score (c : Car) :
  score (update_speed c) == score c + speed_bonus (mag (vel c)).
Proof.
  unfold update_speed, speed_bonus.
  destruct (Qltb 1.5 _); [|destruct (Qltb 0.5 _)]; simpl; ring.
Qed.

Lemma update_progress_score (c c' : Car) :
  update_progress c = Ok c' ->
  score c' == score c + progress_bonus (distToFinish c) (distToFinish c').
Proof.
  unfold update_progress, progress_bonus.
  destruct (_bfsDistanceToFinish_total c) as (d & c0 & Hd & (m & f & ->)).
  rewrite Hd. cbn [bind]. intros [= <-].
  cbn [distToFinish set_distToFinish set_distanceCache set_finishCache].
  destruct (Qltb d (distToFinish c)) eqn:E; simpl;
    destruct (Qltb d (bestDist c)); simpl; rewrite ?E; ring.
Qed.

(** The score when the finish-line step starts: [c1] is the car after the
    move and [c3] the car after the progress step. *)
Lemma update_scoring (c c1 c3 : Car) :
  update_move c = Ok c1 ->
  update_progress (update_speed (update_idle c1)) = Ok c3 ->
  score c3 == score c + accrued c c3.
Proof.
  intros Hm H3.
  destruct (update_move_spec c) as (c1' & Hm' & Hled & _).
  assert (c1' = c1) by congruence. subst c1'.
  destruct Hled as (_ & _ & Hsc & _ & _ & _ & Hdf & _).
  rewrite update_idle_eq in H3.
  match type of H3 with
  | update_progress (update_speed ?c2) = _ =>
      destruct (update_speed_spec c2) as (Hb2 & _ & _ & _ & Hd2 & _);
      pose proof (update_speed_score c2) as Hs2;
      pose proof (update_progress_score _ _ H3) as Hs3;
      destruct (update_progress_spec (update_speed c2))
        as (c3' & H3' & Hb3 & _)
  end.
  assert (c3' = c3) by congruence. subst c3'. simpl in Hd2, Hs2.
  assert (Hv : vel c3 = vel c1).
  { destruct Hb3 as (_ & _ & -> & _). destruct Hb2 as (_ & _ & -> & _).
    reflexivity. }
  unfold accrued. rewrite Hv, Hs3, Hs2, Hd2. simpl.
  rewrite Hsc, Hdf. ring.
Qed.

(** A tick of a live car that gets past the idle test and ends off the
    road: [c1] is the car after the move and [c4] the car when the
    collision step starts, the finish-line step having left it as the
    progress step made it. *)
Lemma update_off_road (c c' : Car) :
  alive c = true -> update c = Ok (tt, c') ->
  (idleFrames c' <= 300)%Z -> off_road c' ->
  exists c1 c4,
    update_move c = Ok c1
    /\ update_progress (update_speed (update_idle c1)) = Ok c4
    /\ update_finish c4 = Ok c4
    /\ update_collision c4 = Ok c' /\ c' = collide c4
    /\ alive c4 = true /\ collisions c4 = collisions c
    /\ finished c4 = finished c
    /\ score c4 == score c + accrued c c'.
Proof.
  intros Ha Hu Hidle Hoff.
  destruct (update_alive c Ha) as (c1 & Hm & Hcase). cbv zeta in Hcase.
  destruct (update_move_spec c) as (c1' & Hm' & Hled & _).
  assert (c1' = c1) by congruence. subst c1'.
  destruct Hled as (Hal & Hfi & _ & _ & Hco & _).
  destruct (idleFrames (update_idle c1) >? 300)%Z eqn:Hgt.
  { rewrite Hu in Hcase. injection Hcase as ->. simpl in Hidle.
    apply Z.gtb_lt in Hgt. lia. }
  destruct Hcase as (c3 & c4 & c5 & H3 & H4 & H5 & Hu').
  rewrite Hu in Hu'. injection Hu' as <-.
  pose proof H3 as H3u.
  rewrite update_idle_eq in H3.
  match type of H3 with
  | update_progress (update_speed ?c2) = _ =>
      destruct (update_speed_spec c2) as (Hb2 & Ha2 & Hf2 & Hc2 & _);
      destruct (update_progress_spec (update_speed c2))
        as (c3' & H3' & Hb3 & Ha3 & Hf3 & Hc3 & _)
  end.
  assert (c3' = c3) by congruence. subst c3'.
  simpl in Ha2, Hf2, Hc2.
  destruct (update_finish_spec c3) as (c4' & H4' & Hc4).
  assert (c4' = c4) by congruence. subst c4'.
  destruct (update_collision_spec c4) as (c5' & H5' & Hc5).
  assert (c5' = c') by congruence. subst c5'.
  assert (Hxy : x c' = x c4 /\ y c' = y c4).
  { destruct Hc5 as [[-> _]|[-> _]]; [auto|].
    destruct (collide_spec c4) as (_ & _ & _ & _ & Hx & Hy & _). auto. }
  destruct Hxy as [Hx Hy].
  assert (Hhit : _hasCollided c4 = Ok true).
  { rewrite <- (_hasCollided_same c4 c' Hx Hy).
    destruct (_hasCollided_spec c') as (hit & Hh & Hiff).
    rewrite Hh. f_equal. apply Hiff. exact Hoff. }
  destruct Hc5 as [[_ Hno]|[Hc' _]]; [congruence|].
  assert (Hc43 : c4 = c3).
  { destruct Hc4 as [E|(E & _ & Hin & Hfin)]; [exact E|].
    exfalso. subst c4.
    assert (Hcell : cell_of c' = cell_of c3).
    { apply cell_of_same; [rewrite Hx|rewrite Hy]; reflexivity. }
    unfold off_road in Hoff. rewrite Hcell in Hoff.
    unfold finish_tile in Hfin. destruct Hoff as [Hout|Hw]; [tauto|congruence]. }
  subst c4. exists c1, c3.
  split; [exact Hm|]. split; [exact H3u|]. split; [exact H4|].
  split; [exact H5|]. split; [exact Hc'|].
  split; [congruence|]. split; [congruence|]. split; [congruence|].
  assert (Hv : vel c' = vel c3).
  { rewrite Hc'. destruct (collide_spec c3) as (_ & _ & _ & _ & Hb5).
    destruct Hb5 as (_ & _ & -> & _). reflexivity. }
  assert (Hd : distToFinish c' = distToFinish c3).
  { rewrite Hc'. apply collide_distToFinish. }
  rewrite (update_scoring c c1 c3 Hm H3u). unfold accrued.
  rewrite Hv, Hd. reflexivity.
Qed.

(** C4: on a tick that reaches the collision step off the road, the
    collision counter goes up by one, forty times the new counter is taken
    from the score the tick has reached by then, that is the score before
    the tick plus the speed and progress bonuses of the tick, and the car
    dies once the counter is above 2.  Three such ticks in a row, from a
    counter of zero, cost 40, 80 and 120, that is 240 in all, and leave the
    car dead. *)
Theorem C4_collision_penalty :
  (forall c c' : Car,
     alive c = true -> update c = Ok (tt, c') ->
     (idleFrames c' <= 300)%Z -> off_road c' ->
     exists c1 c4,
       update_move c = Ok c1
       /\ update_progress (update_speed (update_idle c1)) = Ok c4
       /\ update_finish c4 = Ok c4
       /\ update_collision c4 = Ok c'
       /\ score c4 == score c + accrued c c'
       /\ collisions c' = (collisions c + 1)%Z
       /\ score c' = score c4 - 40 * inject_Z (collisions c')
       /\ score c' == score c + accrued c c' - 40 * inject_Z (collisions c')
       /\ alive c' = (if (collisions c' >? 2)%Z then false else true))
  /\
  (forall c0 c1 c2 c3 : Car,
     alive c0 = true -> collisions c0 = 0%Z ->
     update c0 = Ok (tt, c1) -> update c1 = Ok (tt, c2) ->
     update c2 = Ok (tt, c3) ->
     (idleFrames c1 <= 300)%Z -> (idleFrames c2 <= 300)%Z ->
     (idleFrames c3 <= 300)%Z ->
     off_road c1 -> off_road c2 -> off_road c3 ->
     score c1 == score c0 + accrued c0 c1 - 40
     /\ score c2 == score c1 + accrued c1 c2 - 80
     /\ score c3 == score c2 + accrued c2 c3 - 120
     /\ score c3
        == score c0 + (accrued c0 c1 + accrued c1 c2 + accrued c2 c3) - 240
     /\ collisions c1 = 1%Z /\ collisions c2 = 2%Z /\ collisions c3 = 3%Z
     /\ alive c1 = true /\ alive c2 = true /\ alive c3 = false).
Proof.
  assert (Htick : forall c c' : Car,
     alive c = true -> update c = Ok (tt, c') ->
     (idleFrames c' <= 300)%Z -> off_road c' ->
     exists c1 c4,
       update_move c = Ok c1
       /\ update_progress (update_speed (update_idle c1)) = Ok c4
       /\ update_finish c4 = Ok c4
       /\ update_collision c4 = Ok c'
       /\ score c4 == score c + accrued c c'
       /\ collisions c' = (collisions c + 1)%Z
       /\ score c' = score c4 - 40 * inject_Z (collisions c')
       /\ score c' == score c + accrued c c' - 40 * inject_Z (collisions c')
       /\ alive c' = (if (collisions c' >? 2)%Z then false else true)).
  { intros c c' Ha Hu Hidle Hoff.
    destruct (update_off_road c c' Ha Hu Hidle Hoff)
      as (c1 & c4 & Hm & H3 & H4 & H5 & Hc' & Ha4 & Hc4 & _ & Hs4).
    destruct (collide_spec c4) as (Hcol & Hsc & Hal & _).
    exists c1, c4. split; [exact Hm|]. split; [exact H3|].
    split; [exact H4|]. split; [exact H5|]. split; [exact Hs4|].
    rewrite <- Hs4. rewrite Hc'. rewrite Hcol, Hsc, Hal, Hc4, Ha4.
    split; [reflexivity|]. split; [reflexivity|].
    split; [reflexivity|reflexivity]. }
  split; [exact Htick|].
  intros c0 c1 c2 c3 Ha0 Hc0 Hu1 Hu2 Hu3 Hi1 Hi2 Hi3 Ho1 Ho2 Ho3.
  destruct (Htick c0 c1 Ha0 Hu1 Hi1 Ho1)
    as (_ & _ & _ & _ & _ & _ & _ & Hk1 & _ & Hs1 & Ha1).
  rewrite Hc0 in Hk1. change (collisions c1 = 1%Z) in Hk1.
  rewrite Hk1 in Hs1, Ha1. simpl in Ha1.
  destruct (Htick c1 c2 Ha1 Hu2 Hi2 Ho2)
    as (_ & _ & _ & _ & _ & _ & _ & Hk2 & _ & Hs2 & Ha2).
  rewrite Hk1 in Hk2. change (collisions c2 = 2%Z) in Hk2.
  rewrite Hk2 in Hs2, Ha2. simpl in Ha2.
  destruct (Htick c2 c3 Ha2 Hu3 Hi3 Ho3)
    as (_ & _ & _ & _ & _ & _ & _ & Hk3 & _ & Hs3 & Ha3).
  rewrite Hk2 in Hk3. change (collisions c3 = 3%Z) in Hk3.
  rewrite Hk3 in Hs3, Ha3. simpl in Ha3.
  split; [rewrite Hs1; unfold inject_Z; ring|].
  split; [rewrite Hs2; unfold inject_Z; ring|].
  split; [rewrite Hs3; unfold inject_Z; ring|].
  split; [rewrite Hs3, Hs2, Hs1; unfold inject_Z; ring|].
  repeat split; assumption.
Qed.

(** ** What every car satisfies *)

Lemma cache_sound_same (c c' : Car) :
  _finishCache c' = _finishCache c -> _distanceCache c' = _distanceCache c ->
  cache_sound c -> cache_sound c'.
Proof. unfold cache_sound. intros -> ->. auto. Qed.

Lemma collide_caches (c : Car) :
  _finishCache (collide c) = _finishCache c
  /\ _distanceCache (collide c) = _distanceCache c.
Proof. unfold collide. simpl. destruct (_ >? 2)%Z; auto. Qed.

Lemma update_invariants (c c' : Car) :
  update c = Ok (tt, c') ->
  brain c' = brain c
  /\ (cache_sound c -> cache_sound c')
  /\ (halted_when_finished c -> halted_when_finished c')
  /\ ((0 <= idleFrames c)%Z -> (0 <= idleFrames c')%Z).
Proof.
  intros Hu. destruct (alive c) eqn:Ha.
  2: { unfold update in Hu. rewrite Ha in Hu. injection Hu as <-. auto. }
  destruct (update_alive c Ha) as (c1 & Hm & Hcase). cbv zeta in Hcase.
  destruct (update_move_spec c) as (c1' & Hm' & Hled & _).
  assert (c1' = c1) by congruence. subst c1'.
  destruct Hled
    as (Hal & Hfi & _ & Hid & _ & _ & _ & _ & Hfc & Hdc & Hbr & _).
  rewrite update_idle_eq in Hcase. simpl in Hcase.
  match type of Hcase with
  | if (?k >? 300)%Z then _ else _ =>
      assert (Hk : (0 <= idleFrames c)%Z -> (0 <= k)%Z)
        by (destruct (Qltb _ _); lia);
      destruct (k >? 300)%Z; set (k0 := k) in *
  end.
  { rewrite Hu in Hcase. injection Hcase as ->. simpl.
    split; [exact Hbr|]. split.
    - apply cache_sound_same; simpl; assumption.
    - split; [intros _ _; reflexivity|exact Hk]. }
  destruct Hcase as (c3 & c4 & c5 & H3 & H4 & H5 & Hu').
  rewrite Hu in Hu'. injection Hu' as <-.
  destruct (update_speed_spec (set_idleFrames k0 c1))
    as (Hb2 & Ha2 & Hf2 & _ & _ & _ & Hfc2 & Hdc2).
  destruct (update_progress_spec (update_speed (set_idleFrames k0 c1)))
    as (c3' & H3' & Hb3 & Ha3 & Hf3 & _ & _ & Hcs3).
  assert (c3' = c3) by congruence. subst c3'. simpl in Ha2, Hf2, Hfc2, Hdc2.
  destruct Hb2 as (_ & _ & _ & _ & Hi2 & _ & Hbr2 & _).
  destruct Hb3 as (_ & _ & _ & _ & Hi3 & _ & Hbr3 & _).
  simpl in Hi2, Hbr2.
  destruct (update_finish_spec c3) as (c4' & H4' & Hc4).
  assert (c4' = c4) by congruence. subst c4'.
  destruct (update_collision_spec c4) as (c5' & H5' & Hc5).
  assert (c5' = c') by congruence. subst c5'.
  assert (H34 : brain c4 = brain c3 /\ idleFrames c4 = idleFrames c3
                /\ _finishCache c4 = _finishCache c3
                /\ _distanceCache c4 = _distanceCache c3
                /\ (halted_when_finished c3 -> halted_when_finished c4)).
  { destruct Hc4 as [->|[-> _]]; [auto|].
    unfold halted_when_finished. simpl. auto. }
  destruct H34 as (Hbr4 & Hi4 & Hfc4 & Hdc4 & Hh4).
  assert (H45 : brain c' = brain c4 /\ idleFrames c' = idleFrames c4
                /\ _finishCache c' = _finishCache c4
                /\ _distanceCache c' = _distanceCache c4
                /\ (halted_when_finished c4 -> halted_when_finished c')).
  { destruct Hc5 as [[-> _]|[-> _]]; [auto|].
    destruct (collide_spec c4) as (_ & _ & Hal5 & Hf5 & Hb5).
    destruct Hb5 as (_ & _ & _ & _ & Hi5 & _ & Hbr5 & _).
    destruct (collide_caches c4) as (Hfc5 & Hdc5).
    repeat split; auto.
    unfold halted_when_finished. rewrite Hal5, Hf5. intros Hh Hf.
    rewrite (Hh Hf). destruct (_ >? 2)%Z; reflexivity. }
  destruct H45 as (Hbr5 & Hi5 & Hfc5 & Hdc5 & Hh5).
  split; [congruence|]. split.
  - intros Hcs. apply (cache_sound_same c4); auto.
    apply (cache_sound_same c3); auto. apply Hcs3.
    apply (cache_sound_same c); simpl; congruence.
  - split.
    + intros Hh. apply Hh5, Hh4. unfold halted_when_finished in *.
      rewrite Ha3, Hf3, Ha2, Hf2, Hal, Hfi. exact Hh.
    + intros H0. rewrite Hi5, Hi4, Hi3, Hi2. auto.
Qed.

Lemma reset_invariants (x0 y0 : Q) (c : Car) :
  (_finishCache c = None \/ _finishCache c = Some (finish_from 0 mapa)) ->
  exists c', reset x0 y0 c = Ok (tt, c')
             /\ cache_sound c' /\ halted_when_finished c'
             /\ brain c' = brain c /\ idleFrames c' = 0%Z.
Proof.
  intros Hfc. unfold reset.
  match goal with
  | |- context [_bfsDistanceToFinish ?c0] =>
      assert (Hs : cache_sound c0) by (split; [constructor|exact Hfc]);
      destruct (_bfsDistanceToFinish_spec c0 Hs)
        as (d & c1 & Hd & _ & Hs1 & (m & f & ->))
  end.
  rewrite Hd. cbn [bind]. eexists. split; [reflexivity|].
  split; [refine (cache_sound_same _ _ _ _ Hs1); simpl; reflexivity|].
  split; [|split; simpl; reflexivity].
  unfold halted_when_finished. simpl. discriminate.
Qed.

Lemma new_Car_invariants (x0 y0 : Q) (b : option Cerebro) (n : nat) :
  exists c n', new_Car x0 y0 b n = Ok (c, n')
               /\ cache_sound c /\ halted_when_finished c
               /\ alive c = true /\ idleFrames c = 0%Z
               /\ collisions c = 0%Z
               /\ (forall b0, b = Some b0 -> brain c = b0 /\ n' = n).
Proof.
  unfold new_Car.
  assert (Hb : exists b1 n1,
            match b with
            | Some b0 => let* b' := copiaCerebro b0 in Ok (b', n)
            | None => Ok (new_Cerebro None n)
            end = Ok (b1, n1)
            /\ forall b0, b = Some b0 -> b1 = b0 /\ n1 = n).
  { destruct b as [b0|].
    - rewrite copiaCerebro_ok. cbn [bind]. exists b0, n.
      split; [reflexivity|]. intros ? [= ->]. auto.
    - destruct (new_Cerebro None n) as [b1 n1]. exists b1, n1.
      split; [reflexivity|]. discriminate. }
  destruct Hb as (b1 & n1 & -> & Hb1). cbn [bind].
  match goal with
  | |- context [_bfsDistanceToFinish ?c0] =>
      assert (Hs : cache_sound c0) by (split; [constructor|left; reflexivity]);
      destruct (_bfsDistanceToFinish_spec c0 Hs)
        as (d & c1 & Hd & _ & Hs1 & (m & f & ->))
  end.
  rewrite Hd. cbn [bind]. eexists _, _. split; [reflexivity|].
  split; [refine (cache_sound_same _ _ _ _ Hs1); simpl; reflexivity|].
  split; [unfold halted_when_finished; simpl; discriminate|].
  simpl. auto.
Qed.

Lemma Reached_invariants (c : Car) :
  Reached c ->
  cache_sound c /\ halted_when_finished c /\ (0 <= idleFrames c)%Z.
Proof.
  induction 1 as [x0 y0 b n c n' Hnew | c c' _ IH Hu | x0 y0 c c' _ IH Hr].
  - destruct (new_Car_invariants x0 y0 b n)
      as (c0 & n0 & Hnew' & Hs & Hh & _ & Hi & _).
    assert (c0 = c) by congruence. subst c0.
    split; [exact Hs|]. split; [exact Hh|]. lia.
  - destruct IH as (Hs & Hh & Hi).
    destruct (update_invariants c c' Hu) as (_ & Hs' & Hh' & Hi'). auto.
  - destruct IH as ((_ & Hfc) & _ & _).
    destruct (reset_invariants x0 y0 c Hfc) as (c0 & Hr' & Hs & Hh & _ & Hi).
    assert (c0 = c') by congruence. subst c0.
    split; [exact Hs|]. split; [exact Hh|]. lia.
Qed.

(** C6: for a car the program has built, the distance-to-finish query
    never raises and answers the sentinel 9999 whenever the map holds no
    finish tile, and whenever no finish tile can be reached from the car's
    cell through 4-connected tiles of the grid that are not walls; in the
    second case the search from that cell runs its queue dry and returns
    9999 as well. *)
Theorem C6_no_finish_sentinel (c : Car) :
  Reached c ->
  no_finish_tile \/ no_finish_reachable (cell_of c) ->
  exists c', _bfsDistanceToFinish c = Ok (9999, c')
             /\ _bfs (cell_of c) (finish_from 0 mapa) = Ok 9999
             /\ (no_finish_tile -> finish_from 0 mapa = []).
Proof.
  intros Hreached Hno.
  assert (Hunreach : no_finish_reachable (cell_of c)).
  { destruct Hno as [Hno|Hno]; [|exact Hno].
    apply no_finish_tile_unreachable, Hno. }
  destruct (Reached_invariants c Hreached) as (Hs & _).
  destruct (_bfsDistanceToFinish_spec c Hs) as (d & c' & Hd & Hbfs & _).
  pose proof (_bfs_unreachable (cell_of c) Hunreach) as H9.
  assert (d = 9999) by congruence. subst d.
  exists c'. split; [exact Hd|]. split; [exact H9|].
  apply no_finish_tile_targets.
Qed.

(** ** Ranking *)

Lemma by_fitness_pos (a b : Car) :
  Qltb 0 (by_fitness a b) = true <-> calcularFitness a < calcularFitness b.
Proof.
  rewrite Qltb_lt. unfold by_fitness.
  generalize (calcularFitness a) (calcularFitness b). intros fa fb.
  split; intros H; lra.
Qed.

Lemma sort_insert_perm (a : Car) (l : list Car) :
  sort_insert by_fitness a l ≡ₚ a :: l.
Proof.
  induction l as [|b l IH]; cbn [sort_insert]; [reflexivity|].
  destruct (Qltb 0 (by_fitness a b)); [|reflexivity].
  rewrite IH. apply Permutation_swap.
Qed.

Lemma Array_sort_perm (l : list Car) : Array_sort by_fitness l ≡ₚ l.
Proof.
  induction l as [|a l IH]; cbn [Array_sort]; [reflexivity|].
  rewrite sort_insert_perm, IH. reflexivity.
Qed.

Lemma sort_insert_sorted (a : Car) (l : list Car) :
  StronglySorted ranks_before l ->
  StronglySorted ranks_before (sort_insert by_fitness a l).
Proof.
  induction 1 as [|b l Hl IH Hb]; cbn [sort_insert].
  - repeat constructor.
  - destruct (Qltb 0 (by_fitness a b)) eqn:E.
    + apply by_fitness_pos in E. constructor; [exact IH|].
      rewrite sort_insert_perm. constructor; [|exact Hb].
      unfold ranks_before. lra.
    + apply not_true_iff_false in E. rewrite by_fitness_pos in E.
      apply Qnot_lt_le in E.
      constructor; [constructor; assumption|].
      constructor; [exact E|].
      eapply Forall_impl; [exact Hb|]. unfold ranks_before.
      intros c Hc. simpl in Hc. lra.
Qed.

Lemma Array_sort_sorted (l : list Car) :
  StronglySorted ranks_before (Array_sort by_fitness l).
Proof.
  induction l as [|a l IH]; cbn [Array_sort]; [constructor|].
  apply sort_insert_sorted, IH.
Qed.

Lemma sort_insert_stable (v : Q) (a : Car) (l : list Car) :
  with_fitness v (sort_insert by_fitness a l) = with_fitness v (a :: l).
Proof.
  unfold with_fitness.
  induction l as [|b l IH]; cbn [sort_insert]; [reflexivity|].
  destruct (Qltb 0 (by_fitness a b)) eqn:E; [|reflexivity].
  apply by_fitness_pos in E. cbn [List.filter] in *. rewrite IH.
  destruct (Qeq_bool (calcularFitness b) v) eqn:Eb; [|reflexivity].
  destruct (Qeq_bool (calcularFitness a) v) eqn:Ea; [|reflexivity].
  apply Qeq_bool_iff in Ea, Eb. exfalso. rewrite Ea, Eb in E.
  exact (Qlt_irrefl _ E).
Qed.

Lemma Array_sort_stable (v : Q) (l : list Car) :
  with_fitness v (Array_sort by_fitness l) = with_fitness v l.
Proof.
  induction l as [|a l IH]; cbn [Array_sort]; [reflexivity|].
  rewrite sort_insert_stable. unfold with_fitness in *.
  cbn [List.filter]. rewrite IH. reflexivity.
Qed.

Lemma sorted_take_drop (l : list Car) :
  StronglySorted ranks_before l ->
  forall k a b, a ∈ take k l -> b ∈ drop k l -> ranks_before a b.
Proof.
  induction 1 as [|c l Hl IH Hc]; intros k a b Ha Hb.
  - rewrite take_nil in Ha. inversion Ha.
  - destruct k as [|k]; [inversion Ha|].
    cbn [take drop] in Ha, Hb. apply elem_of_cons in Ha as [->|Ha].
    + rewrite Forall_forall in Hc. apply Hc.
      apply (subseteq_drop k l), Hb.
    + eapply IH; eassumption.
Qed.

(** ** Spawning a generation *)

Lemma mutar_vals_length (rate : Q) (vals : list Q) :
  forall n, length (mutar_vals rate vals n).1 = length vals.
Proof.
  induction vals as [|v vals IH]; intros n; cbn [mutar_vals]; [reflexivity|].
  unfold Math_random. destruct (Qltb (tape n) rate).
  - destruct (randn_bm (S n)) as [g n1].
    specialize (IH n1). destruct (mutar_vals rate vals n1) as [vs n2].
    simpl in *. congruence.
  - specialize (IH (S n)). destruct (mutar_vals rate vals (S n)) as [vs n2].
    simpl in *. congruence.
Qed.

Lemma mutar_tensors_ok (rate : Q) (ts : list Tensor) :
  Forall tensor_ok ts ->
  forall n, exists ts' n',
    mutar_tensors rate ts n = Ok (ts', n')
    /\ List.map shape ts' = List.map shape ts /\ Forall tensor_ok ts'.
Proof.
  induction 1 as [|t ts Ht Hts IH]; intros n; cbn [mutar_tensors].
  - exists [], n. repeat split; constructor.
  - pose proof (mutar_vals_length rate (dataSync t) n) as Hlen.
    destruct (mutar_vals rate (dataSync t) n) as [vals n1]. simpl in Hlen.
    unfold tf_tensor. cbn [default].
    destruct (decide _) as [Hok|Hbad];
      [|exfalso; apply Hbad; rewrite Hlen; exact Ht].
    cbn [bind]. destruct (IH n1) as (ts' & n' & -> & Hsh & Hok').
    cbn [bind]. eexists _, _. split; [reflexivity|].
    split; [simpl; congruence|]. constructor; [exact Hok|exact Hok'].
Qed.

Lemma mutar_ok (rate : Q) (b : Cerebro) (n : nat) :
  brain_ok b -> exists b' n', mutar rate b n = Ok (b', n') /\ brain_ok b'.
Proof.
  intros Hb. unfold mutar.
  destruct (mutar_tensors_ok rate _ Hb n) as (ts' & n' & -> & Hsh & Hok).
  cbn [bind]. rewrite setWeights_same_shapes by congruence. cbn [bind].
  eexists _, _. split; [reflexivity|exact Hok].
Qed.

(** The spawning loop with elites at hand never raises and only appends
    live cars. *)
Lemma newGeneration_from_elites (k : nat) :
  forall (i : Z) (e : Engine),
    (0 <= i)%Z -> eliteBrains e <> [] -> Forall brain_ok (eliteBrains e) ->
    exists cars e',
      newGeneration_from k i e = Ok e'
      /\ e' = set_random_calls (random_calls e')
                (set_population (population e ++ cars) e)
      /\ length cars = k
      /\ Forall (fun c => car_ok c /\ alive c = true) cars.
Proof.
  induction k as [|k IH]; intros i e Hi Hne Hok; cbn [newGeneration_from].
  - exists [], e. split; [reflexivity|]. rewrite app_nil_r.
    split; [destruct e; reflexivity|]. split; [reflexivity|constructor].
  - assert (Hlen : (0 < len (eliteBrains e))%Z).
    { unfold len. destruct (eliteBrains e); [contradiction|simpl; lia]. }
    destruct (Z.gtb_spec (len (eliteBrains e)) 0); [|lia].
    destruct (index_Some (eliteBrains e) (i mod len (eliteBrains e)))
      as (parent & Hpar); [apply Z.mod_pos_bound; lia|].
    rewrite Hpar, copiaCerebro_ok. cbn [bind].
    assert (Hp : brain_ok parent).
    { rewrite Forall_forall in Hok. apply Hok. unfold index in Hpar.
      destruct (_ <? 0)%Z; [discriminate|].
      eapply list_elem_of_lookup_2, Hpar. }
    destruct (mutar_ok MUTATION_RATE parent (random_calls e) Hp)
      as (b & n & -> & Hb).
    cbn [bind].
    destruct (new_Car_invariants (p5.x (spawnPoint e)) (p5.y (spawnPoint e))
                (Some b) n)
      as (car & n' & -> & _ & Hh & Ha & _ & _ & Hbr).
    destruct (Hbr b eq_refl) as [Hbrain _]. cbn [bind].
    match goal with
    | |- context [newGeneration_from k ?j ?e0] =>
        destruct (IH j e0) as (cars & e' & Hrun & He' & Hl & Hcars);
        [lia|exact Hne|exact Hok|]
    end.
    exists (car :: cars), e'. split; [exact Hrun|]. split.
    { rewrite He' at 1. simpl. rewrite <- app_assoc. reflexivity. }
    split; [simpl; congruence|].
    constructor; [|exact Hcars]. split; [split|]; [congruence|exact Hh|exact Ha].
Qed.

Lemma newGeneration_elites (e : Engine) :
  eliteBrains e <> [] -> Forall brain_ok (eliteBrains e) ->
  exists cars e',
    newGeneration e = Ok e'
    /\ e' = set_random_calls (random_calls e')
              (set_population cars
                 (set_transitioning false (set_frameCount_ 0%Z e)))
    /\ length cars = Z.to_nat POPULATION_SIZE
    /\ Forall (fun c => car_ok c /\ alive c = true) cars.
Proof.
  intros Hne Hok. unfold newGeneration.
  match goal with
  | |- context [newGeneration_from ?k ?j ?e0] =>
      destruct (newGeneration_from_elites k j e0)
        as (cars & e' & Hrun & He' & Hl & Hcars);
      [lia|exact Hne|exact Hok|]
  end.
  exists cars, e'. split; [exact Hrun|]. split; [exact He'|]. auto.
Qed.

Lemma mapM_copia (cars : list Car) :
  mapM (fun c => copiaCerebro (brain c)) cars = Ok (List.map brain cars).
Proof.
  induction cars as [|c cars IH]; cbn [mapM List.map]; [reflexivity|].
  rewrite copiaCerebro_ok, IH. reflexivity.
Qed.

(** [nextGeneration] on a population that is not empty never raises; the
    elites are the brains of the first [ELITE_COUNT] cars of the ranking. *)
Lemma nextGeneration_spec (e : Engine) :
  population_ok e ->
  exists cars e',
    nextGeneration e = Ok e'
    /\ eliteBrains e'
       = List.map brain (take ELITE_COUNT (Array_sort by_fitness (population e)))
    /\ generation e' = (generation e + 1)%Z
    /\ frameCount_ e' = 0%Z /\ transitioning e' = false
    /\ bestScoreEver e' = bestScoreEver e
    /\ totalFinished e'
       = (totalFinished e
          + len (filter (fun c => finished c = true)
                   (Array_sort by_fitness (population e))))%Z
    /\ population e' = cars
    /\ length cars = Z.to_nat POPULATION_SIZE
    /\ Forall (fun c => car_ok c /\ alive c = true) cars.
Proof.
  intros [Hne Hok]. unfold nextGeneration. cbn [population set_population
    set_transitioning]. rewrite mapM_copia. cbn [bind].
  set (ranked := Array_sort by_fitness (population e)).
  assert (Hperm : ranked ≡ₚ population e) by apply Array_sort_perm.
  assert (Hr : ranked <> []).
  { intros E. rewrite E in Hperm. symmetry in Hperm.
    apply Permutation_nil_r in Hperm. contradiction. }
  match goal with
  | |- context [newGeneration ?e0] =>
      destruct (newGeneration_elites e0) as (cars & e' & Hrun & He' & Hl & Hc)
  end.
  - simpl. destruct ranked; [contradiction|discriminate].
  - simpl. apply Forall_forall. intros b Hb.
    apply list_elem_of_fmap in Hb as (c & -> & Hc).
    apply (subseteq_take ELITE_COUNT ranked) in Hc.
    rewrite Hperm in Hc. rewrite Forall_forall in Hok. apply (Hok c Hc).
  - exists cars, e'. split; [exact Hrun|]. rewrite He'. simpl.
    repeat split; auto.
Qed.

(** C8: when a generation ends, the population is ranked by fitness,
    highest first, cars of equal fitness keeping their order; the elites
    are clones of the brains of the first three cars of that ranking (of
    all of them when there are fewer), and no car outside those outranks
    one of them. *)
Theorem C8_elites_are_top_ranked (e : Engine) :
  population_ok e ->
  exists e',
    nextGeneration e = Ok e' /\
    let ranked := Array_sort by_fitness (population e) in
    ranked ≡ₚ population e
    /\ StronglySorted ranks_before ranked
    /\ (forall v, with_fitness v ranked = with_fitness v (population e))
    /\ mapM (fun c => copiaCerebro (brain c)) (take ELITE_COUNT ranked)
       = Ok (eliteBrains e')
    /\ eliteBrains e' = List.map brain (take ELITE_COUNT ranked)
    /\ length (eliteBrains e') = Nat.min 3 (length (population e))
    /\ (forall a b, a ∈ take ELITE_COUNT ranked ->
                    b ∈ drop ELITE_COUNT ranked ->
                    calcularFitness b <= calcularFitness a).
Proof.
  intros Hok.
  destruct (nextGeneration_spec e Hok) as (cars & e' & Hrun & Hel & _).
  exists e'. split; [exact Hrun|]. cbv zeta.
  split; [apply Array_sort_perm|].
  split; [apply Array_sort_sorted|].
  split; [intros v; apply Array_sort_stable|].
  split; [rewrite mapM_copia, Hel; reflexivity|].
  split; [exact Hel|].
  split.
  - rewrite Hel, length_map, length_take.
    rewrite (Permutation_length (Array_sort_perm (population e))).
    unfold ELITE_COUNT. reflexivity.
  - intros a b Ha Hb.
    exact (sorted_take_drop _ (Array_sort_sorted (population e)) _ a b Ha Hb).
Qed.

(** ** One frame of the simulation *)

Lemma count_alive_snoc (seen : list Car) (c : Car) :
  count_alive (seen ++ [c])
  = (count_alive seen + (if alive c then 1 else 0))%Z.
Proof.
  unfold count_alive, len. rewrite filter_app, length_app.
  rewrite filter_cons, filter_nil.
  destruct (decide (alive c = true)) as [->|Hn].
  - simpl. lia.
  - destruct (alive c); [contradiction|]. simpl. lia.
Qed.

Lemma leader_of_snoc (seen : list Car) ls ld (c : Car) :
  leader_of seen ls ld ->
  leader_of (seen ++ [c])
    (if alive c then
       if match ls with None => true | Some l => Qltb l (score c) end
       then Some (score c) else ls
     else ls)
    (if alive c then
       if match ls with None => true | Some l => Qltb l (score c) end
       then Some c else ld
     else ld).
Proof.
  unfold leader_of. intros H. destruct (alive c) eqn:Ha.
  - destruct ld as [l|].
    + destruct H as (Hin & Hal & -> & Hbest).
      destruct (Qltb (score l) (score c)) eqn:E.
      * apply Qltb_lt in E. split; [set_solver|].
        split; [exact Ha|]. split; [reflexivity|].
        apply Forall_app. split.
        -- eapply Forall_impl; [exact Hbest|]. intros a Hle Haa.
           specialize (Hle Haa). simpl in *. lra.
        -- constructor; [intros _; apply Qle_refl|constructor].
      * apply not_true_iff_false in E. rewrite Qltb_lt in E.
        apply Qnot_lt_le in E. split; [set_solver|].
        split; [exact Hal|]. split; [reflexivity|].
        apply Forall_app. split; [exact Hbest|].
        constructor; [intros _; exact E|constructor].
    + destruct H as (-> & Hdead). split; [set_solver|].
      split; [exact Ha|]. split; [reflexivity|].
      apply Forall_app. split.
      * eapply Forall_impl; [exact Hdead|]. intros a Hd Haa. congruence.
      * constructor; [intros _; apply Qle_refl|constructor].
  - destruct ld as [l|].
    + destruct H as (Hin & Hal & -> & Hbest). split; [set_solver|].
      split; [exact Hal|]. split; [reflexivity|].
      apply Forall_app. split; [exact Hbest|].
      constructor; [congruence|constructor].
    + destruct H as (-> & Hdead). split; [reflexivity|].
      apply Forall_app. split; [exact Hdead|]. repeat constructor. exact Ha.
Qed.

Lemma draw_update_spec (cars : list Car) :
  forall (seen : list Car) (n : Z) ls ld,
    n = count_alive seen -> leader_of seen ls ld ->
    exists cars' n' ls' ld',
      draw_update cars n ls ld = Ok (cars', n', ls', ld')
      /\ Forall2 (fun c c' => update c = Ok (tt, c')) cars cars'
      /\ n' = count_alive (seen ++ cars')
      /\ leader_of (seen ++ cars') ls' ld'.
Proof.
  induction cars as [|c cars IH]; intros seen n ls ld Hn Hl;
    cbn [draw_update].
  - exists [], n, ls, ld. rewrite app_nil_r.
    split; [reflexivity|]. split; [constructor|]. auto.
  - destruct (update_total c) as (c' & Hu). rewrite Hu. cbn [bind].
    pose proof (leader_of_snoc seen ls ld c' Hl) as Hl'.
    pose proof (count_alive_snoc seen c') as Hn'.
    assert (Hstep : forall n1 ls1 ld1,
              n1 = count_alive (seen ++ [c']) ->
              leader_of (seen ++ [c']) ls1 ld1 ->
              exists cars' n' ls' ld',
                (let* (cars', aliveCount, leaderScore, leader) :=
                   draw_update cars n1 ls1 ld1 in
                 Ok (c' :: cars', aliveCount, leaderScore, leader))
                = Ok (cars', n', ls', ld')
                /\ Forall2 (fun c c' => update c = Ok (tt, c'))
                     (c :: cars) cars'
                /\ n' = count_alive (seen ++ cars')
                /\ leader_of (seen ++ cars') ls' ld').
    { intros n1 ls1 ld1 Hn1 Hl1.
      destruct (IH (seen ++ [c']) n1 ls1 ld1 Hn1 Hl1)
        as (cars' & n' & ls' & ld' & Hrun & Hall & Hcnt & Hlead).
      rewrite Hrun. cbn [bind]. rewrite <- app_assoc in Hcnt, Hlead.
      eexists _, _, _, _. split; [reflexivity|].
      split; [constructor; assumption|]. split; assumption. }
    destruct (alive c') eqn:Ha.
    + destruct (match ls with None => true | Some l => Qltb l (score c') end)
        eqn:Hc.
      * apply Hstep; [lia|exact Hl'].
      * apply Hstep; [lia|exact Hl'].
    + apply Hstep; [lia|exact Hl'].
Qed.

Lemma draw_tick_spec (e : Engine) :
  exists cars n ls ld e1,
    draw_tick e = Ok (e1, n, ls, ld)
    /\ Forall2 (fun c c' => update c = Ok (tt, c')) (population e) cars
    /\ n = count_alive cars /\ leader_of cars ls ld
    /\ population e1 = cars
    /\ frameCount_ e1 = (frameCount_ e + 1)%Z
    /\ generation e1 = generation e
    /\ transitioning e1 = transitioning e
    /\ bestScoreEver e1
       = match ls with
         | Some l => if Qltb (bestScoreEver e) l then l else bestScoreEver e
         | None => bestScoreEver e
         end.
Proof.
  unfold draw_tick.
  destruct (draw_update_spec (population e) [] 0%Z None None)
    as (cars & n & ls & ld & Hrun & Hall & Hn & Hl).
  - reflexivity.
  - split; [reflexivity|constructor].
  - rewrite Hrun. cbn [bind]. simpl in Hn, Hl.
    eexists cars, n, ls, ld, _. split; [reflexivity|].
    split; [exact Hall|]. split; [exact Hn|]. split; [exact Hl|].
    destruct ls as [l|]; [destruct (Qltb _ l)|]; simpl; repeat split.
Qed.

Lemma updated_cars_ok (cars cars' : list Car) :
  Forall2 (fun c c' => update c = Ok (tt, c')) cars cars' ->
  Forall car_ok cars -> Forall car_ok cars'.
Proof.
  induction 1 as [|c c' cars cars' Hu _ IH]; intros Hok; [constructor|].
  inversion Hok as [|? ? [Hb Hh] Hrest]; subst.
  destruct (update_invariants c c' Hu) as (Hbr & _ & Hh' & _).
  constructor; [|auto]. split; [rewrite Hbr; exact Hb|auto].
Qed.

Lemma draw_tick_engine_ok (e e1 : Engine) n ls ld :
  engine_ok e -> draw_tick e = Ok (e1, n, ls, ld) -> engine_ok e1.
Proof.
  intros (Htr & Hne & Hok) Hrun.
  destruct (draw_tick_spec e)
    as (cars & n' & ls' & ld' & e1' & Hrun' & Hall & _ & _ & Hpop & _ & _
        & Htr' & _).
  assert (e1' = e1) by congruence. subst e1'.
  split; [congruence|]. unfold population_ok. rewrite Hpop. split.
  - intros E. subst cars. apply Forall2_length in Hall.
    destruct (population e); [congruence|].
    rewrite E in Hall. simpl in Hall. lia.
  - eapply updated_cars_ok; eassumption.
Qed.

Lemma draw_advances (e e1 : Engine) n ls ld :
  engine_ok e -> draw_tick e = Ok (e1, n, ls, ld) ->
  (n = 0%Z \/ (frameCount_ e1 > MAX_FRAMES)%Z) ->
  exists e2, draw e = Ok e2 /\ generation e2 = (generation e1 + 1)%Z
             /\ frameCount_ e2 = 0%Z /\ engine_ok e2.
Proof.
  intros Hok Hrun Hcond.
  destruct (draw_tick_engine_ok e e1 n ls ld Hok Hrun) as (Htr & Hpop).
  destruct (nextGeneration_spec e1 Hpop)
    as (cars & e2 & Hnext & _ & Hgen & Hfc & Htr2 & _ & _ & Hp2 & Hlen & Hcars).
  exists e2. unfold draw. rewrite Hrun. cbn [bind].
  assert (Hadv : advances e1 n = true).
  { unfold advances. rewrite Htr. cbn [negb]. rewrite andb_true_r.
    apply orb_true_iff. destruct Hcond as [->|Hgt].
    - left. apply bool_decide_eq_true. reflexivity.
    - right. apply Z.gtb_lt. lia. }
  rewrite Hadv. split; [exact Hnext|]. split; [exact Hgen|].
  split; [exact Hfc|]. split; [exact Htr2|]. unfold population_ok.
  rewrite Hp2. split.
  - intros E. rewrite E in Hlen. vm_compute in Hlen. discriminate.
  - eapply Forall_impl; [exact Hcars|]. intros c [Hc _]. exact Hc.
Qed.

Lemma draw_stays (e e1 : Engine) n ls ld :
  draw_tick e = Ok (e1, n, ls, ld) ->
  n <> 0%Z -> (frameCount_ e1 <= MAX_FRAMES)%Z -> draw e = Ok e1.
Proof.
  intros Hrun Hn Hfc. unfold draw. rewrite Hrun. cbn [bind].
  assert (Hadv : advances e1 n = false).
  { unfold advances. apply andb_false_iff. left. apply orb_false_iff. split.
    - apply bool_decide_eq_false. exact Hn.
    - rewrite Z.gtb_ltb. apply Z.ltb_ge. exact Hfc. }
  rewrite Hadv. reflexivity.
Qed.

(** C5: a frame moves on to the next generation exactly when, once the
    cars are updated and the frame counter incremented, no car is alive or
    the counter is above [MAX_FRAMES] = 3000.  A frame that brings the
    counter to 3000 with a car still alive stays in the generation, and the
    frame after it, which brings the counter to 3001, moves on. *)
Theorem C5_generation_ends_past_the_budget (e : Engine) :
  engine_ok e ->
  exists e1 n ls ld,
    draw_tick e = Ok (e1, n, ls, ld)
    /\ n = count_alive (population e1)
    /\ frameCount_ e1 = (frameCount_ e + 1)%Z
    /\ generation e1 = generation e
    /\ ((n = 0%Z \/ (frameCount_ e1 > MAX_FRAMES)%Z) ->
        exists e2, draw e = Ok e2
                   /\ generation e2 = (generation e + 1)%Z
                   /\ frameCount_ e2 = 0%Z)
    /\ ((n <> 0%Z /\ (frameCount_ e1 <= MAX_FRAMES)%Z) ->
        draw e = Ok e1)
    /\ ((n <> 0%Z /\ frameCount_ e1 = MAX_FRAMES) ->
        draw e = Ok e1 /\ generation e1 = generation e
        /\ exists e3, draw e1 = Ok e3
                      /\ generation e3 = (generation e + 1)%Z).
Proof.
  intros Hok.
  destruct (draw_tick_spec e)
    as (cars & n & ls & ld & e1 & Hrun & _ & Hn & _ & Hpop & Hfc & Hgen & _).
  exists e1, n, ls, ld. split; [exact Hrun|].
  split; [rewrite Hpop; exact Hn|]. split; [exact Hfc|].
  split; [exact Hgen|]. split; [|split].
  - intros Hcond.
    destruct (draw_advances e e1 n ls ld Hok Hrun Hcond)
      as (e2 & Hd & Hg & Hf & _).
    exists e2. split; [exact Hd|]. split; [congruence|exact Hf].
  - intros [Hn0 Hle]. exact (draw_stays e e1 n ls ld Hrun Hn0 Hle).
  - intros [Hn0 Heq].
    assert (Hstay : draw e = Ok e1).
    { apply (draw_stays e e1 n ls ld Hrun Hn0). rewrite Heq. reflexivity. }
    split; [exact Hstay|]. split; [exact Hgen|].
    pose proof (draw_tick_engine_ok e e1 n ls ld Hok Hrun) as Hok1.
    destruct (draw_tick_spec e1)
      as (cars' & n' & ls' & ld' & e1' & Hrun' & _ & _ & _ & _ & Hfc' & Hgen'
          & _).
    destruct (draw_advances e1 e1' n' ls' ld' Hok1 Hrun')
      as (e3 & Hd3 & Hg3 & _).
    { right. rewrite Hfc', Heq. unfold MAX_FRAMES. lia. }
    exists e3. split; [exact Hd3|]. congruence.
Qed.

(** ** The leader is never a finished car *)




(** ** A car at rest *)

Lemma cell_of_origin (c : Car) :
  x c == 0 -> y c == 0 -> cell_of c = (0, 0)%Z.
Proof.
  intros Hx Hy. unfold cell_of, p5.floor.
  assert (Ex : x c / tileSize == 0) by (rewrite Hx; reflexivity).
  assert (Ey : y c / tileSize == 0) by (rewrite Hy; reflexivity).
  rewrite Ex, Ey. reflexivity.
Qed.

Lemma rest_tick (c : Car) :
  restful_world -> at_rest c ->
  exists c', update c = Ok (tt, c')
             /\ mag (vel c') < 0.1
             /\ idleFrames c' = (idleFrames c + 1)%Z
             /\ ((idleFrames c + 1 <= 300)%Z -> at_rest c').
Proof.
  intros (Hpred & Hsqrt & Hnofin & Hgrid & Htile)
         (Ha & Hf & Hc & Hx & Hy & Hvx & Hvy).
  destruct (update_total c) as (c' & Hu). exists c'. split; [exact Hu|].
  destruct (update_alive c Ha) as (c1 & Hm & Hcase). cbv zeta in Hcase.
  (* the movement step *)
  assert (Hc1 : alive c1 = true /\ finished c1 = false
                /\ collisions c1 = 0%Z /\ idleFrames c1 = idleFrames c
                /\ x c1 == 0 /\ y c1 == 0
                /\ p5.x (vel c1) == 0 /\ p5.y (vel c1) == 0).
  { revert Hm. unfold update_move.
    match goal with
    | |- context [mapM (_sensorReading ?c0) ?os] =>
        destruct (sensors_range c0 os) as (rs & Hrs & _)
    end.
    simpl in Hrs. simpl. rewrite Hrs. cbn [bind]. unfold pensar.
    rewrite Hpred. intros [= <-]. simpl.
    rewrite Hx, Hy, Hvx, Hvy.
    repeat split; try assumption; ring. }
  destruct Hc1 as (Ha1 & Hf1 & Hk1 & Hi1 & Hx1 & Hy1 & Hvx1 & Hvy1).
  assert (Hmag : mag (vel c1) = 0).
  { unfold mag. apply Hsqrt. unfold p5.magSq. rewrite Hvx1, Hvy1.
    apply Qle_lteq. right. ring. }
  rewrite update_idle_eq in Hcase. rewrite Hmag in Hcase.
  change (Qltb 0 0.1) with true in Hcase. cbn iota in Hcase.
  simpl idleFrames in Hcase. rewrite Hi1 in Hcase.
  destruct (Z.gtb_spec (idleFrames c + 1) 300) as [Hgt|Hle].
  { rewrite Hu in Hcase. injection Hcase as ->. simpl.
    rewrite Hmag. split; [reflexivity|]. split; [reflexivity|]. lia. }
  destruct Hcase as (c3 & c4 & c5 & H3 & H4 & H5 & Hu').
  rewrite Hu in Hu'. injection Hu' as <-.
  set (c2 := set_idleFrames (idleFrames c + 1)%Z c1) in *.
  destruct (update_speed_spec c2) as (Hb2 & Ha2 & Hf2 & Hk2 & _).
  destruct (update_progress_spec (update_speed c2))
    as (c3' & H3' & Hb3 & Ha3 & Hf3 & Hk3 & _).
  assert (c3' = c3) by congruence. subst c3'.
  pose proof (same_body_trans _ _ _ Hb2 Hb3) as Hb.
  destruct Hb as (Ex & Ey & Ev & _ & Ei & _). simpl in Ex, Ey, Ev, Ei.
  simpl in Ha2, Hf2, Hk2.
  assert (Hcell : cell_of c3 = (0, 0)%Z).
  { apply cell_of_origin; [rewrite Ex|rewrite Ey]; assumption. }
  destruct (update_finish_spec c3) as (c4' & H4' & Hc4).
  assert (c4' = c4) by congruence. subst c4'.
  destruct Hc4 as [->|(_ & _ & _ & Hfin)];
    [|exfalso; exact (Hnofin _ Hfin)].
  destruct (update_collision_spec c3) as (c5' & H5' & Hc5).
  assert (c5' = c') by congruence. subst c5'.
  destruct Hc5 as [[-> _]|[_ Hhit]].
  - rewrite Ev, Hmag. split; [reflexivity|]. split; [exact Ei|].
    intros _. unfold at_rest. rewrite Ex, Ey, Ev.
    repeat split; try assumption; congruence.
  - exfalso. destruct (_hasCollided_spec c3) as (hit & Hh & Hiff).
    assert (hit = true) by congruence. subst hit.
    destruct Hiff as [Hiff _]. specialize (Hiff eq_refl).
    rewrite Hcell in Hiff. tauto.
Qed.

(** A resting car in a restful world lives through 300 ticks and is slow
    after each of the first 301. *)
Lemma rest_run (c0 : Car) :
  restful_world -> at_rest c0 -> idleFrames c0 = 0%Z ->
  (forall i, (i <= 300)%nat ->
             exists ci, ticks i c0 = Ok ci /\ alive ci = true)
  /\ (forall i, (1 <= i <= 301)%nat ->
                exists ci, ticks i c0 = Ok ci /\ mag (vel ci) < 0.1).
Proof.
  intros Hw Hr0 Hi0.
  assert (Hinv : forall i, (i <= 300)%nat ->
            exists ci, ticks i c0 = Ok ci /\ at_rest ci
                       /\ idleFrames ci = Z.of_nat i).
  { induction i as [|i IH]; intros Hi.
    - exists c0. split; [reflexivity|]. split; [exact Hr0|]. simpl. lia.
    - destruct IH as (ci & Hci & Hri & Hii); [lia|].
      destruct (rest_tick ci Hw Hri) as (cj & Hu & _ & Hij & Hrj).
      exists cj. split; [cbn [ticks]; rewrite Hci; cbn [bind]; rewrite Hu;
                         reflexivity|].
      split; [apply Hrj; lia|lia]. }
  split.
  - intros i Hi. destruct (Hinv i Hi) as (ci & Hci & (Ha & _) & _). eauto.
  - intros [|i] Hi; [lia|].
    destruct (Hinv i ltac:(lia)) as (ci & Hci & Hri & _).
    destruct (rest_tick ci Hw Hri) as (cj & Hu & Hslow & _).
    exists cj. split; [|exact Hslow].
    cbn [ticks]. rewrite Hci. cbn [bind]. rewrite Hu. reflexivity.
Qed.



(** ** The distance cache stays small *)

Lemma JsMap_set_size {V} (k : Pos) (v : V) (m : list (Pos * V)) :
  (JsMap.size (JsMap.set k v m) <= JsMap.size m + 1)%Z.
Proof.
  unfold JsMap.size.
  induction m as [|[k' v'] m IH]; cbn [JsMap.set]; [simpl; lia|].
  destruct (decide (k = k')); simpl in *; lia.
Qed.

Lemma JsMap_delete_first {V} (k : Pos) (m : list (Pos * V)) :
  JsMap.first_key m = Some k ->
  JsMap.size (JsMap.delete k m) = (JsMap.size m - 1)%Z.
Proof.
  unfold JsMap.size. destruct m as [|[k' v'] m]; [discriminate|].
  intros [= ->]. cbn [JsMap.delete].
  destruct (decide (k = k)); [simpl; lia|contradiction].
Qed.

Lemma _bfsDistanceToFinish_bounded (c c' : Car) (d : Q) :
  _bfsDistanceToFinish c = Ok (d, c') -> cache_bounded c -> cache_bounded c'.
Proof.
  unfold _bfsDistanceToFinish, cache_bounded. intros Hrun Hb.
  destruct (JsMap.get _ _); [injection Hrun as _ <-; exact Hb|].
  assert (Hft : exists ts c1, _finishTiles c = Ok (ts, c1)
                              /\ _distanceCache c1 = _distanceCache c).
  { unfold _finishTiles. destruct (_finishCache c); eexists _, _; split;
      reflexivity. }
  destruct Hft as (ts & c1 & Hft & Hd1). rewrite Hft in Hrun.
  cbn [bind] in Hrun.
  destruct (decide _); [injection Hrun as _ <-; rewrite Hd1; exact Hb|].
  destruct (_bfs (cell_of c) ts) as [dist_|]; [|discriminate].
  cbn [bind] in Hrun. injection Hrun as _ <-.
  cbn [_distanceCache set_distanceCache].
  pose proof (JsMap_set_size (cell_of c) dist_ (_distanceCache c1)) as Hset.
  rewrite Hd1 in Hset |- *.
  destruct (Z.gtb_spec (JsMap.size (JsMap.set (cell_of c) dist_
                                      (_distanceCache c))) 100);
    [|assumption].
  destruct (JsMap.first_key _) as [first|] eqn:Hfirst.
  - pose proof (JsMap_delete_first _ _ Hfirst) as Hdel.
    unfold Pos in *. lia.
  - destruct (JsMap.set _ _ _) as [|[] ?]; [|discriminate].
    unfold JsMap.size in *. simpl in *. lia.
Qed.

Lemma update_progress_bounded (c c' : Car) :
  update_progress c = Ok c' -> cache_bounded c -> cache_bounded c'.
Proof.
  unfold update_progress. intros Hrun Hb.
  destruct (_bfsDistanceToFinish c) as [[d c0]|] eqn:Hq; [|discriminate].
  pose proof (_bfsDistanceToFinish_bounded c c0 d Hq Hb) as Hb0.
  cbn [bind] in Hrun. injection Hrun as <-. unfold cache_bounded in *.
  repeat match goal with
         | |- context [if Qltb ?a ?b then _ else _] => destruct (Qltb a b)
         end; simpl; exact Hb0.
Qed.

Lemma update_bounded (c c' : Car) :
  update c = Ok (tt, c') -> cache_bounded c -> cache_bounded c'.
Proof.
  intros Hu Hb. destruct (alive c) eqn:Ha.
  2: { unfold update in Hu. rewrite Ha in Hu. injection Hu as <-. auto. }
  destruct (update_alive c Ha) as (c1 & Hm & Hcase). cbv zeta in Hcase.
  destruct (update_move_spec c) as (c1' & Hm' & Hled & _).
  assert (c1' = c1) by congruence. subst c1'.
  destruct Hled as (_ & _ & _ & _ & _ & _ & _ & _ & _ & Hdc & _).
  rewrite update_idle_eq in Hcase. simpl in Hcase.
  match type of Hcase with
  | if (?k >? 300)%Z then _ else _ =>
      destruct (k >? 300)%Z; set (k0 := k) in *
  end.
  { rewrite Hu in Hcase. injection Hcase as ->. unfold cache_bounded in *.
    simpl. rewrite Hdc. exact Hb. }
  destruct Hcase as (c3 & c4 & c5 & H3 & H4 & H5 & Hu').
  rewrite Hu in Hu'. injection Hu' as <-.
  destruct (update_speed_spec (set_idleFrames k0 c1))
    as (_ & _ & _ & _ & _ & _ & _ & Hdc2).
  simpl in Hdc2.
  assert (Hb3 : cache_bounded c3).
  { apply (update_progress_bounded _ _ H3). unfold cache_bounded in *.
    rewrite Hdc2, Hdc. exact Hb. }
  destruct (update_finish_spec c3) as (c4' & H4' & Hc4).
  assert (c4' = c4) by congruence. subst c4'.
  destruct (update_collision_spec c4) as (c5' & H5' & Hc5).
  assert (c5' = c') by congruence. subst c5'.
  assert (Hb4 : cache_bounded c4)
    by (destruct Hc4 as [->|[-> _]]; exact Hb3).
  destruct Hc5 as [[-> _]|[-> _]]; [exact Hb4|].
  unfold cache_bounded in *. rewrite (proj2 (collide_caches c4)). exact Hb4.
Qed.

Lemma Reached_bounded (c : Car) : Reached c -> cache_bounded c.
Proof.
  induction 1 as [x0 y0 b n c n' Hnew | c c' _ IH Hu | x0 y0 c c' _ IH Hr].
  - revert Hnew. unfold new_Car.
    destruct (match b with Some _ => _ | None => _ end) as [[b1 n1]|];
      [|discriminate].
    cbn [bind].
    match goal with
    | |- context [_bfsDistanceToFinish ?c0] =>
        destruct (_bfsDistanceToFinish c0) as [[d c1]|] eqn:Hq;
        [|discriminate];
        assert (Hb0 : cache_bounded c0)
          by (unfold cache_bounded, JsMap.size; simpl; lia);
        pose proof (_bfsDistanceToFinish_bounded c0 c1 d Hq Hb0) as Hb1
    end.
    cbn [bind]. intros [= <- _]. exact Hb1.
  - exact (update_bounded c c' Hu IH).
  - revert Hr. unfold reset.
    match goal with
    | |- context [_bfsDistanceToFinish ?c0] =>
        destruct (_bfsDistanceToFinish c0) as [[d c1]|] eqn:Hq;
        [|discriminate];
        assert (Hb0 : cache_bounded c0)
          by (unfold cache_bounded, JsMap.size; simpl; lia);
        pose proof (_bfsDistanceToFinish_bounded c0 c1 d Hq Hb0) as Hb1
    end.
    cbn [bind]. intros [= <-]. exact Hb1.
Qed.

(** ** The search finds a nearest finish tile *)

Lemma reach_in_reachable (s p : Pos) (n : nat) :
  reach_in s n p -> reachable s p.
Proof. induction 1; [constructor|apply reachable_step; assumption]. Qed.

Lemma reachable_reach_in (s p : Pos) :
  reachable s p -> exists n, reach_in s n p.
Proof.
  induction 1 as [|p d _ [n IH] Hd Hw].
  - exists 0%nat. constructor.
  - exists (S n). apply reach_in_S; assumption.
Qed.

Lemma reach_in_O_inv (s p : Pos) : reach_in s 0 p -> p = s.
Proof. inversion 1. reflexivity. Qed.

Lemma reach_in_S_inv (s p : Pos) (n : nat) :
  reach_in s (S n) p ->
  exists q d, reach_in s n q /\ d ∈ dirs
              /\ p = (q.1 + d.1, q.2 + d.2)%Z /\ non_wall p.
Proof. inversion 1; subst. eauto 10. Qed.

(** One round of neighbours, exactly: the cells that enter [visited] are
    the non-wall neighbours of [pos] that were not in it, and each enters
    the queue once, one step further than [pos]. *)
Lemma _bfs_expand_exact (pos : Pos) (steps : Z) (ds : list Pos) :
  forall (visited : gset Pos) (queue : list (Pos * Z)),
  exists visited' news,
    _bfs_expand pos steps ds visited queue = Ok (visited', queue ++ news)
    /\ (forall q, q ∈ visited' <->
                  q ∈ visited \/
                  exists d, d ∈ ds /\ q = (pos.1 + d.1, pos.2 + d.2)%Z
                            /\ non_wall q)
    /\ (forall q k, (q, k) ∈ news ->
          k = (steps + 1)%Z /\ (q ∉ visited)
          /\ exists d, d ∈ ds /\ q = (pos.1 + d.1, pos.2 + d.2)%Z
                       /\ non_wall q)
    /\ (forall q, q ∈ visited' -> q ∉ visited -> (q, (steps + 1)%Z) ∈ news).
Proof.
  induction ds as [|d ds IH]; intros visited queue.
  - exists visited, []. cbn [_bfs_expand]. rewrite app_nil_r.
    split; [reflexivity|]. split.
    { intros q. split; [auto|]. intros [H|(d & Hd & _)]; [exact H|].
      inversion Hd. }
    split; [intros q k H; inversion H|]. intros q H Hn. contradiction.
  - cbn [_bfs_expand].
    set (np := ((pos.1 + d.1)%Z, (pos.2 + d.2)%Z) : Pos).
    destruct (decide _) as [Hin | Hnin].
    { destruct (IH visited queue) as (v' & news & Hrun & Hv & Hn & Hnew).
      exists v', news. split; [exact Hrun|]. split.
      { intros q. rewrite Hv. split.
        - intros [H|(d' & Hd' & Hq & Hw)]; [auto|].
          right. exists d'. split; [right; exact Hd'|auto].
        - intros [H|(d' & Hd' & Hq & Hw)]; [auto|].
          apply elem_of_cons in Hd' as [->|Hd'].
          + left. subst q. exact Hin.
          + right. exists d'. auto. }
      split; [|exact Hnew].
      intros q k Hqk. destruct (Hn q k Hqk) as (Hk & Hq & d' & Hd' & Hrest).
      split; [exact Hk|]. split; [exact Hq|].
      exists d'. split; [right; exact Hd'|exact Hrest]. }
    destruct (_tileWalkable_spec np) as (b & Hw & Hb). rewrite Hw.
    cbn [bind]. destruct b.
    + assert (Hnw : non_wall np) by (apply Hb; reflexivity).
      destruct (IH ({[np]} ∪ visited) (queue ++ [(np, (steps + 1)%Z)]))
        as (v' & news & Hrun & Hv & Hn & Hnew).
      exists v', ((np, (steps + 1)%Z) :: news).
      split.
      { rewrite Hrun. rewrite <- app_assoc. reflexivity. }
      split.
      { intros q. rewrite Hv. rewrite elem_of_union, elem_of_singleton.
        split.
        - intros [[->|H]|(d' & Hd' & Hq & Hw')].
          + right. exists d. split; [left|auto].
          + auto.
          + right. exists d'. split; [right; exact Hd'|auto].
        - intros [H|(d' & Hd' & Hq & Hw')]; [auto|].
          apply elem_of_cons in Hd' as [->|Hd'].
          + left. left. exact Hq.
          + right. exists d'. auto. }
      split.
      { intros q k Hqk. apply elem_of_cons in Hqk as [[= -> ->]|Hqk].
        - split; [reflexivity|]. split; [exact Hnin|].
          exists d. split; [left|auto].
        - destruct (Hn q k Hqk) as (Hk & Hq & d' & Hd' & Hrest).
          split; [exact Hk|]. split; [set_solver|].
          exists d'. split; [right; exact Hd'|exact Hrest]. }
      intros q Hq Hnq.
      destruct (decide (q = np)) as [->|Hne]; [left|].
      right. apply Hnew; [exact Hq|]. set_solver.
    + assert (Hnw : ~ non_wall np).
      { intros H. apply Hb in H. discriminate. }
      destruct (IH visited queue) as (v' & news & Hrun & Hv & Hn & Hnew).
      exists v', news. split; [exact Hrun|]. split.
      { intros q. rewrite Hv. split.
        - intros [H|(d' & Hd' & Hq & Hw')]; [auto|].
          right. exists d'. split; [right; exact Hd'|auto].
        - intros [H|(d' & Hd' & Hq & Hw')]; [auto|].
          apply elem_of_cons in Hd' as [->|Hd'].
          + exfalso. apply Hnw. subst q. exact Hw'.
          + right. exists d'. auto. }
      split; [|exact Hnew].
      intros q k Hqk. destruct (Hn q k Hqk) as (Hk & Hq & d' & Hd' & Hrest).
      split; [exact Hk|]. split; [exact Hq|].
      exists d'. split; [right; exact Hd'|exact Hrest].
Qed.

Lemma is_target_false (targets : list Pos) (p : Pos) :
  is_target targets p = false -> p ∉ targets.
Proof.
  unfold is_target. intros H Hin.
  assert (Ht : existsb (fun t => bool_decide (p = t)) targets = true).
  { apply existsb_exists. exists p. split; [apply list_elem_of_In, Hin|].
    apply bool_decide_eq_true. reflexivity. }
  congruence.
Qed.

Lemma StronglySorted_app_intro {A : Type} (R : A -> A -> Prop)
    (l1 l2 : list A) :
  StronglySorted R l1 -> StronglySorted R l2 ->
  (forall a b, a ∈ l1 -> b ∈ l2 -> R a b) ->
  StronglySorted R (l1 ++ l2).
Proof.
  induction 1 as [|a l1 Hs IH Ha]; intros H2 Hx; [exact H2|].
  simpl. constructor.
  - apply IH; [exact H2|]. intros x y Hx1 Hy. apply Hx; [right|]; assumption.
  - apply Forall_app. split; [exact Ha|].
    apply Forall_forall. intros y Hy. apply Hx; [left|exact Hy].
Qed.

Lemma StronglySorted_all {A : Type} (R : A -> A -> Prop) (l : list A) :
  (forall a b, a ∈ l -> b ∈ l -> R a b) -> StronglySorted R l.
Proof.
  induction l as [|x l IH]; intros H; constructor.
  - apply IH. intros a b Ha Hb. apply H; right; assumption.
  - apply Forall_forall. intros y Hy. apply H; [left|right; exact Hy].
Qed.

Lemma by_steps_head (p1 : Pos) (k1 : Z) (rest : list (Pos * Z)) :
  StronglySorted by_steps ((p1, k1) :: rest) ->
  forall p k, (p, k) ∈ (p1, k1) :: rest -> (k1 <= k)%Z.
Proof.
  intros Hs p k Hin. apply StronglySorted_inv in Hs as [_ Hall].
  apply elem_of_cons in Hin as [[= -> ->]|Hin]; [lia|].
  rewrite Forall_forall in Hall. exact (Hall _ Hin).
Qed.

Lemma expanded_mono (targets : list Pos) (v v' : gset Pos) (q : Pos) :
  v ⊆ v' -> expanded targets v q -> expanded targets v' q.
Proof.
  intros Hsub [Hnt Hn]. split; [exact Hnt|].
  intros d Hd Hw. apply Hsub, Hn; assumption.
Qed.

(** With an empty queue every reachable cell has been expanded. *)
Lemma bfs_inv_exhausted (start : Pos) (targets : list Pos)
    (visited : gset Pos) :
  bfs_inv start targets visited [] ->
  forall t, t ∈ targets -> ~ reachable start t.
Proof.
  intros (Hstart & _ & Hdone & _) t Ht Hr.
  assert (Hall : forall p, reachable start p -> p ∈ visited).
  { induction 1 as [|p d Hp IH Hd Hw]; [exact Hstart|].
    destruct (Hdone p IH) as [[k Hk]|[_ Hn]]; [inversion Hk|].
    apply Hn; assumption. }
  destruct (Hdone t (Hall t Hr)) as [[k Hk]|[Hnt _]]; [inversion Hk|].
  contradiction.
Qed.

(** A target at the head of the queue is a nearest one. *)
Lemma bfs_inv_found (start : Pos) (targets : list Pos)
    (visited : gset Pos) (pos : Pos) (steps : Z) (rest : list (Pos * Z)) :
  bfs_inv start targets visited ((pos, steps) :: rest) ->
  pos ∈ targets ->
  exists n, steps = Z.of_nat n /\ nearest_target start targets n.
Proof.
  intros (Hstart & Hq & Hdone & Hsorted & Hspan & Hnear) Hpos.
  destruct (Hq pos steps) as (_ & n & -> & Hn & Hmin); [left|].
  exists n. split; [reflexivity|]. split; [exists pos; auto|].
  intros m t Ht Hm.
  destruct (Nat.le_gt_cases n m) as [Hle|Hlt]; [exact Hle|exfalso].
  assert (Hv : t ∈ visited) by (apply (Hnear t m Hm); lia).
  destruct (Hdone t Hv) as [[k Hk]|[Hnt _]]; [|contradiction].
  pose proof (by_steps_head _ _ _ Hsorted _ _ Hk) as Hge.
  destruct (Hq t k Hk) as (_ & n' & -> & _ & Hmin').
  specialize (Hmin' m Hm). lia.
Qed.

(** One round of the loop keeps the state of the search. *)
Lemma bfs_inv_step (start : Pos) (targets : list Pos)
    (visited visited' : gset Pos) (pos : Pos) (steps : Z)
    (rest news : list (Pos * Z)) :
  bfs_inv start targets visited ((pos, steps) :: rest) ->
  pos ∉ targets ->
  _bfs_expand pos steps dirs visited rest = Ok (visited', rest ++ news) ->
  bfs_inv start targets visited' (rest ++ news).
Proof.
  intros (Hstart & Hq & Hdone & Hsorted & Hspan & Hnear) Hpos Hrun.
  destruct (_bfs_expand_exact pos steps dirs visited rest)
    as (v' & news' & Hrun' & Hv & Hn & Hnew).
  rewrite Hrun in Hrun'. injection Hrun' as <- Happ.
  apply app_inv_head in Happ. subst news'.
  assert (Hsub : visited ⊆ visited').
  { intros q Hq'. apply Hv. left. exact Hq'. }
  destruct (Hq pos steps) as (Hposv & n & -> & Hpn & Hpmin); [left|].
  assert (Hrest_sorted : StronglySorted by_steps rest).
  { apply StronglySorted_inv in Hsorted as [H _]. exact H. }
  assert (Hnews_shortest : forall q k, (q, k) ∈ news ->
            k = Z.of_nat (S n) /\ shortest start q (S n)).
  { intros q k Hqk.
    destruct (Hn q k Hqk) as (-> & Hnv & d & Hd & -> & Hw).
    split; [lia|]. split; [apply reach_in_S; assumption|].
    intros m Hm. destruct (Nat.le_gt_cases (S n) m) as [Hle|Hlt]; [exact Hle|].
    exfalso. apply Hnv. apply (Hnear _ m Hm). lia. }
  assert (Hall_sorted : StronglySorted by_steps (rest ++ news)).
  { apply StronglySorted_app_intro; [exact Hrest_sorted| |].
    - apply StronglySorted_all. intros [a ka] [b kb] Ha Hb.
      apply Hnews_shortest in Ha as [-> _].
      apply Hnews_shortest in Hb as [-> _]. unfold by_steps. simpl. lia.
    - intros [a ka] [b kb] Ha Hb. apply Hnews_shortest in Hb as [-> _].
      unfold by_steps. simpl.
      assert (ka <= Z.of_nat n + 1)%Z by (apply (Hspan a); right; exact Ha).
      lia. }
  assert (Hupper : forall p k, (p, k) ∈ rest ++ news ->
            (Z.of_nat n <= k <= Z.of_nat n + 1)%Z).
  { intros p k Hpk. apply elem_of_app in Hpk as [Hpk|Hpk].
    - split.
      + apply (by_steps_head _ _ _ Hsorted p). right. exact Hpk.
      + apply (Hspan p). right. exact Hpk.
    - apply Hnews_shortest in Hpk as [-> _]. lia. }
  split; [apply Hsub, Hstart|].
  split.
  { intros p k Hpk. apply elem_of_app in Hpk as [Hpk|Hpk].
    - destruct (Hq p k) as (Hpv & Hk); [right; exact Hpk|].
      split; [apply Hsub, Hpv|exact Hk].
    - split.
      + destruct (Hn p k Hpk) as (_ & _ & d & Hd & Hp & Hw).
        apply Hv. right. exists d. auto.
      + exists (S n). apply Hnews_shortest, Hpk. }
  split.
  { intros q Hqv'. destruct (decide (q ∈ visited)) as [Hqv|Hqnv].
    - destruct (Hdone q Hqv) as [[k Hk]|Hexp].
      + apply elem_of_cons in Hk as [[= -> ->]|Hk].
        * right. split; [exact Hpos|].
          intros d Hd Hw. apply Hv. right. exists d. auto.
        * left. exists k. apply elem_of_app. left. exact Hk.
      + right. exact (expanded_mono _ _ _ _ Hsub Hexp).
    - left. exists (Z.of_nat n + 1)%Z. apply elem_of_app. right.
      apply Hnew; assumption. }
  split; [exact Hall_sorted|].
  destruct (rest ++ news) as [|[p2 k2] tl] eqn:Equeue; [exact I|].
  assert (Hk2 : (Z.of_nat n <= k2 <= Z.of_nat n + 1)%Z).
  { apply (Hupper p2). left. }
  split.
  { intros p k Hpk. apply Hupper in Hpk. lia. }
  intros q m Hm Hle.
  destruct (Z.le_gt_cases (Z.of_nat m) (Z.of_nat n)) as [Hold|Hnext].
  { apply Hsub. apply (Hnear q m Hm). exact Hold. }
  assert (m = S n) by lia. subst m.
  assert (k2 = Z.of_nat n + 1)%Z by lia. subst k2.
  apply reach_in_S_inv in Hm as (q0 & d & Hq0 & Hd & -> & Hw).
  assert (Hq0v : q0 ∈ visited) by (apply (Hnear q0 n Hq0); lia).
  destruct (Hdone q0 Hq0v) as [[k0 Hk0]|[_ Hexp]].
  - apply elem_of_cons in Hk0 as [[= -> ->]|Hk0].
    + apply Hv. right. exists d. auto.
    + exfalso.
      destruct (Hq q0 k0) as (_ & n0 & -> & _ & Hmin0); [right; exact Hk0|].
      specialize (Hmin0 n Hq0).
      assert (Hin : (q0, Z.of_nat n0) ∈ (p2, (Z.of_nat n + 1)%Z) :: tl).
      { rewrite <- Equeue. apply elem_of_app. left. exact Hk0. }
      pose proof (by_steps_head _ _ _ Hall_sorted _ _ Hin). lia.
  - apply Hsub, Hexp; assumption.
Qed.

(** The loop returns the length of a shortest path to a target, in pixels,
    or 9999 when no target can be reached. *)
Lemma _bfs_loop_exact (start : Pos) (targets : list Pos) (fuel : nat) :
  forall (visited : gset Pos) (queue : list (Pos * Z)),
    visited ⊆ {[start]} ∪ grid_cells ->
    (length queue + size ({[start]} ∪ grid_cells) < fuel + size visited)%nat ->
    bfs_inv start targets visited queue ->
    exists r, _bfs_loop fuel targets visited queue = Ok r
      /\ ((exists n, nearest_target start targets n
                     /\ r == inject_Z (Z.of_nat n) * tileSize)
          \/ ((forall t, t ∈ targets -> ~ reachable start t) /\ r = 9999)).
Proof.
  induction fuel as [|fuel IH]; intros visited queue Hsub Hsize Hinv.
  - apply subseteq_size in Hsub. lia.
  - cbn [_bfs_loop]. destruct queue as [|[pos steps] rest].
    { exists 9999. split; [reflexivity|]. right.
      split; [|reflexivity]. exact (bfs_inv_exhausted _ _ _ Hinv). }
    destruct (is_target targets pos) eqn:Ht.
    { eexists. split; [reflexivity|]. left.
      destruct (bfs_inv_found _ _ _ _ _ _ Hinv (is_target_true _ _ Ht))
        as (n & -> & Hn).
      exists n. split; [exact Hn|reflexivity]. }
    destruct (_bfs_expand_spec pos steps dirs visited rest)
      as (v' & q' & Hrun & Hsub' & Hsz & _).
    destruct (_bfs_expand_exact pos steps dirs visited rest)
      as (v'' & news & Hrun' & _).
    pose proof Hrun' as Hrun''.
    rewrite Hrun in Hrun''. injection Hrun'' as -> ->.
    rewrite Hrun'. cbn [bind]. apply IH.
    + set_solver.
    + simpl in Hsize. lia.
    + exact (bfs_inv_step _ _ _ _ _ _ _ _ Hinv (is_target_false _ _ Ht) Hrun').
Qed.

(** The search starts in a state of the invariant. *)
Lemma bfs_inv_start (start : Pos) (targets : list Pos) :
  start ∉ targets ->
  bfs_inv start targets {[start]} [(start, 0%Z)].
Proof.
  intros Hnt. split; [set_solver|]. split.
  { intros p k Hpk. apply list_elem_of_singleton in Hpk as [= -> ->].
    split; [set_solver|]. exists 0%nat. split; [reflexivity|].
    split; [constructor|]. intros m _. lia. }
  split.
  { intros q Hq. apply elem_of_singleton in Hq as ->.
    left. exists 0%Z. left. }
  split; [repeat constructor|].
  split.
  { intros p k Hpk. apply list_elem_of_singleton in Hpk as [= -> ->]. lia. }
  intros q m Hm Hle. assert (m = 0%nat) by lia. subst m.
  apply reach_in_O_inv in Hm as ->. set_solver.
Qed.

(** [_bfs] returns shortest path length x tileSize, or 9999. *)
Lemma _bfs_exact (start : Pos) (targets : list Pos) :
  exists r, _bfs start targets = Ok r
    /\ ((exists n, nearest_target start targets n
                   /\ r == inject_Z (Z.of_nat n) * tileSize)
        \/ ((forall t, t ∈ targets -> ~ reachable start t) /\ r = 9999)).
Proof.
  unfold _bfs. destruct (is_target targets start) eqn:Ht.
  - exists 0. split; [reflexivity|]. left. exists 0%nat. split.
    + split.
      * exists start. split; [apply is_target_true, Ht|constructor].
      * intros m t _ _. lia.
    + simpl. rewrite Qmult_0_l. reflexivity.
  - apply _bfs_loop_exact.
    + set_solver.
    + rewrite size_singleton. simpl. unfold bfs_budget.
      pose proof (size_union_le {[start]} grid_cells) as Hu.
      rewrite size_singleton in Hu. pose proof size_grid_cells. lia.
    + apply bfs_inv_start, is_target_false, Ht.
Qed.

(** ** Further properties *)

Lemma update_keeps_brain (c c' : Car) :
  update c = Ok (tt, c') -> sensors c' = sensors c /\ brain c' = brain c.
Proof.
  intros Hu. destruct (alive c) eqn:Ha.
  2: { unfold update in Hu. rewrite Ha in Hu. injection Hu as <-. auto. }
  destruct (update_alive c Ha) as (c1 & Hm & Hcase). cbv zeta in Hcase.
  destruct (update_move_spec c) as (c1' & Hm' & Hled & _).
  assert (c1' = c1) by congruence. subst c1'.
  destruct Hled as (_ & _ & _ & _ & _ & _ & _ & _ & _ & _ & Hb1 & Hs1).
  rewrite update_idle_eq in Hcase. simpl in Hcase.
  match type of Hcase with
  | if (?k >? 300)%Z then _ else _ =>
      destruct (k >? 300)%Z; set (k0 := k) in *
  end.
  { rewrite Hu in Hcase. injection Hcase as ->. simpl. auto. }
  destruct Hcase as (c3 & c4 & c5 & H3 & H4 & H5 & Hu').
  rewrite Hu in Hu'. injection Hu' as <-.
  destruct (update_speed_spec (set_idleFrames k0 c1)) as (Hb2 & _).
  destruct (update_progress_spec (update_speed (set_idleFrames k0 c1)))
    as (c3' & H3' & Hb3 & _).
  assert (c3' = c3) by congruence. subst c3'.
  destruct Hb2 as (_ & _ & _ & _ & _ & _ & Hbr2 & Hse2 & _).
  destruct Hb3 as (_ & _ & _ & _ & _ & _ & Hbr3 & Hse3 & _).
  simpl in Hbr2, Hse2.
  assert (H34 : sensors c4 = sensors c3 /\ brain c4 = brain c3).
  { destruct (update_finish_spec c3) as (c4' & H4' & Hc4).
    assert (c4' = c4) by congruence. subst c4'.
    destruct Hc4 as [->|[-> _]]; auto. }
  assert (H45 : sensors c' = sensors c4 /\ brain c' = brain c4).
  { destruct (update_collision_spec c4) as (c5' & H5' & Hc5).
    assert (c5' = c') by congruence. subst c5'.
    destruct Hc5 as [[-> _]|[-> _]]; [auto|].
    destruct (collide_spec c4)
      as (_ & _ & _ & _ & _ & _ & _ & _ & _ & _ & Hbr & Hse & _). auto. }
  destruct H34, H45. split; congruence.
Qed.

(** X1: on tiles of a size other than zero, the sensor step of a tick of
    a car with nine sensors and a brain of the fixed topology does not
    raise; it stores nine raw ray distances, each in [[0, 200]], and every
    value it feeds to the network lies in [[0, 1]] and is [1 - v / 200] for
    the raw distance [v]. *)
Theorem X1_sensor_readings_in_range (c : Car) :
  tiles_sized -> drivable c ->
  exists c', update_move c = Ok c'
             /\ length (readings c') = 9%nat
             /\ Forall (fun r => 0 <= r <= 200) (readings c')
             /\ Forall (fun i => 0 <= i <= 1) (inputs_of (readings c'))
             /\ inputs_of (readings c')
                = List.map (fun v => p5.map v 0 200 1 0) (readings c')
             /\ forall v, p5.map v 0 200 1 0 == 1 - v / 200.
Proof.
  intros _ [Hnine _].
  destruct (update_move_spec c) as (c' & Hm & _ & _ & Hlen & Hr & Hi).
  exists c'. split; [exact Hm|]. split; [congruence|].
  split; [exact Hr|]. split; [exact Hi|].
  split; [reflexivity|]. exact input_of_reading.
Qed.

(** X2: on tiles of a size other than zero, [update] does not raise on a
    car with nine sensors and a brain of the fixed topology, whatever the
    map, and leaves such a car; so neither does any number of ticks in a
    row: no tick of one car can stop the frame of the others. *)
Theorem X2_update_never_raises (c : Car) :
  tiles_sized -> drivable c ->
  (exists c', update c = Ok (tt, c') /\ drivable c')
  /\ forall n, exists cn, ticks n c = Ok cn /\ drivable cn.
Proof.
  intros _ Hc.
  assert (Hstep : forall a, drivable a ->
            exists a', update a = Ok (tt, a') /\ drivable a').
  { intros a [Hs Hb]. destruct (update_total a) as (a' & Hu).
    exists a'. split; [exact Hu|].
    destruct (update_keeps_brain a a' Hu) as [Hs' Hb'].
    split; [rewrite Hs'; exact Hs|rewrite Hb'; exact Hb]. }
  split; [exact (Hstep c Hc)|].
  induction n as [|n (cn & Hn & Hd)].
  - exists c. split; [reflexivity|exact Hc].
  - destruct (Hstep cn Hd) as (cn' & Hu & Hd').
    exists cn'. split; [|exact Hd']. simpl. rewrite Hn. cbn [bind].
    rewrite Hu. reflexivity.
Qed.

(** X3: the distance cache of a car the program has built never holds more
    than 100 entries. *)
Theorem X3_distance_cache_is_bounded (c : Car) :
  Reached c -> (JsMap.size (_distanceCache c) <= 100)%Z.
Proof. exact (Reached_bounded c). Qed.

(** X4: on tiles of a size other than zero and for a car the program has
    built, [_bfsDistanceToFinish] answers from the cache or by a new
    search.  When a finish tile can be reached from the car's tile over
    non-wall tiles, the answer is the length of a shortest such path times
    [tileSize]; when none can be reached, the answer is 9999.  One of the
    two is the case.  (The answer 9999 alone does not tell them apart: a
    shortest path of [n] steps with [n * tileSize = 9999] gives it too.) *)
Theorem X4_distance_is_shortest_path (c : Car) :
  tiles_sized -> Reached c ->
  exists d c',
    _bfsDistanceToFinish c = Ok (d, c')
    /\ (forall n, nearest_target (cell_of c) (finish_from 0 mapa) n ->
                  d == inject_Z (Z.of_nat n) * tileSize)
    /\ (no_finish_reachable (cell_of c) -> d = 9999)
    /\ ((exists n, nearest_target (cell_of c) (finish_from 0 mapa) n)
        \/ no_finish_reachable (cell_of c)).
Proof.
  intros _ Hc. destruct (Reached_invariants c Hc) as (Hs & _).
  destruct (_bfsDistanceToFinish_spec c Hs) as (d & c' & Hrun & Hbfs & _).
  exists d, c'. split; [exact Hrun|].
  assert (Hnone : forall n,
            nearest_target (cell_of c) (finish_from 0 mapa) n ->
            no_finish_reachable (cell_of c) -> False).
  { intros n [(t & Ht & Hreach) _] Hno.
    apply (Hno t); [apply finish_from_mapa, Ht|].
    exact (reach_in_reachable _ _ _ Hreach). }
  assert (Huniq : forall n m,
            nearest_target (cell_of c) (finish_from 0 mapa) n ->
            nearest_target (cell_of c) (finish_from 0 mapa) m -> n = m).
  { intros n m [(t & Ht & Hr) Hn] [(t' & Ht' & Hr') Hm].
    apply Nat.le_antisymm; [exact (Hn m t' Ht' Hr')|exact (Hm n t Ht Hr)]. }
  destruct (_bfs_exact (cell_of c) (finish_from 0 mapa))
    as (r & Hr & [(n & Hnear & Hd)|[Hnot ->]]).
  - rewrite Hbfs in Hr. injection Hr as <-.
    split; [|split].
    + intros m Hm. rewrite (Huniq m n Hm Hnear). exact Hd.
    + intros Hno. destruct (Hnone n Hnear Hno).
    + left. exists n. exact Hnear.
  - rewrite Hbfs in Hr. injection Hr as ->.
    assert (Hno : no_finish_reachable (cell_of c)).
    { intros p Hp. apply Hnot, finish_from_mapa, Hp. }
    split; [|split].
    + intros m Hm. destruct (Hnone m Hm Hno).
    + intros _. reflexivity.
    + right. exact Hno.
Qed.

(** ** Counters and distances of a car *)

Lemma Qltb_ge (a b : Q) : Qltb a b = false <-> b <= a.
Proof.
  unfold Qltb. rewrite negb_false_iff. apply Qle_bool_iff.
Qed.

Lemma update_progress_dist (c c3 : Car) :
  update_progress c = Ok c3 ->
  bestDist c3 <= distToFinish c3 /\ bestDist c3 <= bestDist c.
Proof.
  unfold update_progress.
  destruct (_bfsDistanceToFinish_total c) as (d & c0 & Hd & (m & f & ->)).
  rewrite Hd. cbn [bind]. intros [= <-].
  cbn [distToFinish set_distToFinish set_distanceCache set_finishCache].
  destruct (Qltb d (distToFinish c)); simpl;
    destruct (Qltb d (bestDist c)) eqn:Hb; simpl.
  - split; [apply Qle_refl|]. apply Qltb_lt in Hb. apply Qlt_le_weak, Hb.
  - split; [apply Qltb_ge, Hb|apply Qle_refl].
  - split; [apply Qle_refl|]. apply Qltb_lt in Hb. apply Qlt_le_weak, Hb.
  - split; [apply Qltb_ge, Hb|apply Qle_refl].
Qed.

Lemma update_counters (c c' : Car) :
  update c = Ok (tt, c') -> counters_ok c -> counters_ok c'.
Proof.
  intros Hu Hok. destruct (alive c) eqn:Ha.
  2: { unfold update in Hu. rewrite Ha in Hu. injection Hu as <-. exact Hok. }
  destruct Hok as (Hcol & Hidle & Hfr & Hlive & Hbest).
  destruct (Hlive Ha) as (Hcol2 & Hidle300).
  destruct (update_alive c Ha) as (c1 & Hm & Hcase). cbv zeta in Hcase.
  destruct (update_move_spec c) as (c1' & Hm' & Hled & Hfa & _).
  assert (c1' = c1) by congruence. subst c1'.
  destruct Hled
    as (Hal & Hfi & _ & Hid & Hco & _ & Hdf & Hbd & _).
  rewrite update_idle_eq in Hcase. simpl in Hcase.
  match type of Hcase with
  | if (?k >? 300)%Z then _ else _ =>
      assert (Hk : (0 <= k <= idleFrames c + 1)%Z)
        by (destruct (Qltb _ _); lia);
      destruct (Z.gtb_spec k 300) as [Hgt|Hle]; set (k0 := k) in *
  end.
  { rewrite Hu in Hcase. injection Hcase as ->.
    unfold counters_ok. simpl.
    split; [lia|]. split; [lia|]. split; [lia|].
    split; [discriminate|]. rewrite Hdf, Hbd. exact Hbest. }
  destruct Hcase as (c3 & c4 & c5 & H3 & H4 & H5 & Hu').
  rewrite Hu in Hu'. injection Hu' as <-.
  destruct (update_speed_spec (set_idleFrames k0 c1))
    as (Hb2 & Ha2 & _ & Hc2 & _).
  destruct (update_progress_spec (update_speed (set_idleFrames k0 c1)))
    as (c3' & H3' & Hb3 & Ha3 & _ & Hc3 & _).
  assert (c3' = c3) by congruence. subst c3'. simpl in Ha2, Hc2.
  destruct (update_progress_dist _ _ H3) as (Hbest3 & _).
  destruct Hb2 as (_ & _ & _ & _ & Hi2 & Hf2 & _).
  destruct Hb3 as (_ & _ & _ & _ & Hi3 & Hf3 & _).
  simpl in Hi2, Hf2.
  assert (H34 : collisions c4 = collisions c3
                /\ idleFrames c4 = idleFrames c3
                /\ framesAlive c4 = framesAlive c3
                /\ distToFinish c4 = distToFinish c3
                /\ bestDist c4 = bestDist c3).
  { destruct (update_finish_spec c3) as (c4' & H4' & Hc4).
    assert (c4' = c4) by congruence. subst c4'.
    destruct Hc4 as [->|[-> _]]; repeat split. }
  destruct H34 as (Hc4 & Hi4 & Hf4 & Hd4 & Hbe4).
  destruct (update_collision_spec c4) as (c5' & H5' & Hc5).
  assert (c5' = c') by congruence. subst c5'.
  assert (Hcoll : collisions c4 = collisions c) by congruence.
  assert (Hidl : idleFrames c4 = k0) by congruence.
  assert (Hfra : framesAlive c4 = (framesAlive c + 1)%Z) by congruence.
  assert (Hbst : bestDist c4 <= distToFinish c4) by (rewrite Hd4, Hbe4; exact Hbest3).
  destruct Hc5 as [[-> _]|[-> _]].
  - unfold counters_ok. rewrite Hcoll, Hidl, Hfra.
    split; [lia|]. split; [lia|]. split; [lia|]. split; [intros _; lia|].
    exact Hbst.
  - destruct (collide_spec c4) as (Hk1 & _ & Hal5 & _ & Hb5).
    destruct Hb5 as (_ & _ & _ & _ & Hi5 & Hf5 & _).
    unfold counters_ok. rewrite Hk1, Hi5, Hf5, Hal5, Hcoll, Hidl, Hfra.
    split; [lia|]. split; [lia|]. split; [lia|]. split.
    + destruct (Z.gtb_spec (collisions c + 1) 2); [discriminate|].
      intros _. lia.
    + unfold collide. simpl. destruct (_ >? 2)%Z; simpl; exact Hbst.
Qed.

Lemma new_Car_counters (x0 y0 : Q) (b : option Cerebro) (n : nat)
    (c : Car) (n' : nat) :
  new_Car x0 y0 b n = Ok (c, n') -> counters_ok c.
Proof.
  unfold new_Car.
  destruct (match b with
            | Some b0 => let* b' := copiaCerebro b0 in Ok (b', n)
            | None => Ok (new_Cerebro None n)
            end) as [[b1 n1]|]; [|discriminate].
  cbn [bind].
  match goal with
  | |- context [_bfsDistanceToFinish ?c0] =>
      destruct (_bfsDistanceToFinish_total c0) as (d & c1 & Hd & (m & f & ->))
  end.
  rewrite Hd. cbn [bind]. intros [= <- <-].
  unfold counters_ok. simpl.
  split; [lia|]. split; [lia|]. split; [lia|]. split; [intros _; lia|].
  apply Qle_refl.
Qed.

Lemma reset_counters (x0 y0 : Q) (c c' : Car) :
  reset x0 y0 c = Ok (tt, c') -> counters_ok c'.
Proof.
  unfold reset.
  match goal with
  | |- context [_bfsDistanceToFinish ?c0] =>
      destruct (_bfsDistanceToFinish_total c0) as (d & c1 & Hd & (m & f & ->))
  end.
  rewrite Hd. cbn [bind]. intros [= <-].
  unfold counters_ok. simpl.
  split; [lia|]. split; [lia|]. split; [lia|]. split; [intros _; lia|].
  apply Qle_refl.
Qed.

Lemma Reached_counters (c : Car) : Reached c -> counters_ok c.
Proof.
  induction 1 as [x0 y0 b n c n' Hnew | c c' _ IH Hu | x0 y0 c c' _ IH Hr].
  - exact (new_Car_counters _ _ _ _ _ _ Hnew).
  - exact (update_counters _ _ Hu IH).
  - exact (reset_counters _ _ _ _ Hr).
Qed.


(** ** The movement step and what follows it *)

Lemma same_body_motion (a b : Car) : same_body a b -> same_motion a b.
Proof.
  unfold same_body, same_motion. intros H.
  repeat match goal with H : _ /\ _ |- _ => destruct H end.
  repeat split; assumption.
Qed.

Lemma same_motion_trans (a b c : Car) :
  same_motion a b -> same_motion b c -> same_motion a c.
Proof.
  unfold same_motion. intros H1 H2.
  repeat match goal with H : _ /\ _ |- _ => destruct H end.
  repeat split; congruence.
Qed.

(** The movement step, field by field. *)
Lemma update_move_eq (c c1 : Car) :
  update_move c = Ok c1 ->
  exists rot throttle,
    pensar (brain c) (inputs_of (readings c1)) = (rot, throttle)
    /\ mapM (_sensorReading
               (set_lastPosition (p5.createVector (x c) (y c))
                  (set_distanceTravelled
                     (distanceTravelled c
                      + dist (x c) (y c) (p5.x (lastPosition c))
                          (p5.y (lastPosition c))) c)))
         (sensors c) = Ok (readings c1)
    /\ angle c1 = angle c + rot * 0.1
    /\ vel c1
       = p5.mult
           (p5.add (vel c) (p5.mult (fromAngle (angle c1)) (throttle * 0.3)))
           0.95
    /\ x c1 = x c + p5.x (vel c1) /\ y c1 = y c + p5.y (vel c1)
    /\ lastPosition c1 = p5.createVector (x c) (y c)
    /\ distanceTravelled c1
       = distanceTravelled c
         + dist (x c) (y c) (p5.x (lastPosition c)) (p5.y (lastPosition c))
    /\ framesAlive c1 = (framesAlive c + 1)%Z
    /\ brain c1 = brain c /\ sensors c1 = sensors c.
Proof.
  unfold update_move.
  match goal with
  | |- context [mapM (_sensorReading ?c0) ?os] =>
      destruct (sensors_range c0 os) as (rs & Hrs & _)
  end.
  simpl in Hrs. simpl. rewrite Hrs. cbn [bind].
  destruct (pensar (brain c) (inputs_of rs)) as [rot throttle] eqn:Hp.
  intros [= <-]. exists rot, throttle. simpl.
  split; [exact Hp|]. repeat split.
Qed.

(** After the movement step a tick only keeps score. *)
Lemma update_motion (c c' : Car) :
  alive c = true -> update c = Ok (tt, c') ->
  exists c1, update_move c = Ok c1 /\ same_motion c1 c'.
Proof.
  intros Ha Hu.
  destruct (update_alive c Ha) as (c1 & Hm & Hcase). cbv zeta in Hcase.
  exists c1. split; [exact Hm|].
  rewrite update_idle_eq in Hcase. simpl in Hcase.
  match type of Hcase with
  | if (?k >? 300)%Z then _ else _ =>
      destruct (k >? 300)%Z; set (k0 := k) in *
  end.
  { rewrite Hu in Hcase. injection Hcase as ->. repeat split. }
  destruct Hcase as (c3 & c4 & c5 & H3 & H4 & H5 & Hu').
  rewrite Hu in Hu'. injection Hu' as <-.
  destruct (update_speed_spec (set_idleFrames k0 c1)) as (Hb2 & _).
  destruct (update_progress_spec (update_speed (set_idleFrames k0 c1)))
    as (c3' & H3' & Hb3 & _).
  assert (c3' = c3) by congruence. subst c3'.
  assert (H01 : same_motion c1 (set_idleFrames k0 c1)) by (repeat split).
  assert (H34 : same_motion c3 c4).
  { destruct (update_finish_spec c3) as (c4' & H4' & Hc4).
    assert (c4' = c4) by congruence. subst c4'.
    destruct Hc4 as [->|[-> _]]; repeat split. }
  assert (H45 : same_motion c4 c').
  { destruct (update_collision_spec c4) as (c5' & H5' & Hc5).
    assert (c5' = c') by congruence. subst c5'.
    destruct Hc5 as [[-> _]|[-> _]]; [repeat split|].
    apply same_body_motion. apply collide_spec. }
  eapply same_motion_trans; [exact H01|].
  eapply same_motion_trans; [apply same_body_motion, Hb2|].
  eapply same_motion_trans; [apply same_body_motion, Hb3|].
  eapply same_motion_trans; [exact H34|exact H45].
Qed.

Lemma update_sensors (c c' : Car) :
  update c = Ok (tt, c') -> sensors c' = sensors c.
Proof.
  intros Hu. destruct (alive c) eqn:Ha.
  2: { unfold update in Hu. rewrite Ha in Hu. injection Hu as <-. reflexivity. }
  destruct (update_motion c c' Ha Hu) as (c1 & Hm & Hs).
  destruct (update_move_eq c c1 Hm)
    as (rot & thr & _ & _ & _ & _ & _ & _ & _ & _ & _ & _ & Hs1).
  destruct Hs as (_ & _ & _ & _ & _ & _ & Hs & _). congruence.
Qed.

Lemma Reached_sensors (c : Car) : Reached c -> sensors c = sensor_angles.
Proof.
  induction 1 as [x0 y0 b n c n' Hnew | c c' _ IH Hu | x0 y0 c c' _ IH Hr].
  - revert Hnew. unfold new_Car.
    destruct (match b with
              | Some b0 => let* b' := copiaCerebro b0 in Ok (b', n)
              | None => Ok (new_Cerebro None n)
              end) as [[b1 n1]|]; [|discriminate].
    cbn [bind].
    match goal with
    | |- context [_bfsDistanceToFinish ?c0] =>
        destruct (_bfsDistanceToFinish_total c0)
          as (d & c1 & Hd & (m & f & ->))
    end.
    rewrite Hd. cbn [bind]. intros [= <- <-]. reflexivity.
  - rewrite (update_sensors _ _ Hu). exact IH.
  - revert Hr. unfold reset.
    match goal with
    | |- context [_bfsDistanceToFinish ?c0] =>
        destruct (_bfsDistanceToFinish_total c0)
          as (d & c1 & Hd & (m & f & ->))
    end.
    rewrite Hd. cbn [bind]. intros [= <-]. simpl. exact IH.
Qed.

(** ** Speed limit *)

Lemma unit_product (a t : Q) :
  -1 <= a <= 1 -> -1 <= t <= 1 ->
  - (3 # 10) <= a * (t * 0.3) <= 3 # 10.
Proof.
  intros [Ha1 Ha2] [Ht1 Ht2].
  assert (H1 : 0 <= (1 - a) * (1 - t)) by (apply Qmult_le_0_compat; lra).
  assert (H2 : 0 <= (1 + a) * (1 + t)) by (apply Qmult_le_0_compat; lra).
  assert (H3 : 0 <= (1 - a) * (1 + t)) by (apply Qmult_le_0_compat; lra).
  assert (H4 : 0 <= (1 + a) * (1 - t)) by (apply Qmult_le_0_compat; lra).
  change 0.3 with (3 # 10).
  split; lra.
Qed.

Lemma update_speed_ok (c c' : Car) :
  bounded_world -> update c = Ok (tt, c') -> speed_ok c -> speed_ok c'.
Proof.
  intros (Hp & Hcos & Hsin) Hu Hok. destruct (alive c) eqn:Ha.
  2: { unfold update in Hu. rewrite Ha in Hu. injection Hu as <-. exact Hok. }
  destruct (update_motion c c' Ha Hu) as (c1 & Hm & Hs).
  destruct (update_move_eq c c1 Hm)
    as (rot & thr & Hpen & _ & _ & Hvel & _).
  destruct Hs as (_ & _ & Hv & _).
  unfold speed_ok in *. rewrite Hv, Hvel. unfold pensar in Hpen.
  pose proof (Hp (model (brain c)) (inputs_of (readings c1))) as Ht.
  rewrite Hpen in Ht. simpl in Ht.
  destruct Hok as [[Hx1 Hx2] [Hy1 Hy2]].
  pose proof (unit_product _ _ (Hcos (angle c1)) Ht) as [Hc1 Hc2].
  pose proof (unit_product _ _ (Hsin (angle c1)) Ht) as [Hs1 Hs2].
  unfold fromAngle. simpl. change 0.95 with (95 # 100).
  split; split; lra.
Qed.

Lemma Reached_speed_ok (c : Car) : bounded_world -> Reached c -> speed_ok c.
Proof.
  intros Hw.
  induction 1 as [x0 y0 b n c n' Hnew | c c' _ IH Hu | x0 y0 c c' _ IH Hr].
  - revert Hnew. unfold new_Car.
    destruct (match b with
              | Some b0 => let* b' := copiaCerebro b0 in Ok (b', n)
              | None => Ok (new_Cerebro None n)
              end) as [[b1 n1]|]; [|discriminate].
    cbn [bind].
    match goal with
    | |- context [_bfsDistanceToFinish ?c0] =>
        destruct (_bfsDistanceToFinish_total c0)
          as (d & c1 & Hd & (m & f & ->))
    end.
    rewrite Hd. cbn [bind]. intros [= <- <-].
    unfold speed_ok. simpl. split; split; discriminate.
  - exact (update_speed_ok _ _ Hw Hu IH).
  - revert Hr. unfold reset.
    match goal with
    | |- context [_bfsDistanceToFinish ?c0] =>
        destruct (_bfsDistanceToFinish_total c0)
          as (d & c1 & Hd & (m & f & ->))
    end.
    rewrite Hd. cbn [bind]. intros [= <-].
    unfold speed_ok. simpl. split; split; discriminate.
Qed.


(** ** [reset] and [new Car] *)

Lemma reset_as_new (x0 y0 : Q) (c : Car) (b : option Cerebro) (n : nat)
    (c0 : Car) (n' : nat) :
  cache_sound c -> sensors c = sensor_angles ->
  new_Car x0 y0 b n = Ok (c0, n') ->
  reset x0 y0 c = Ok (tt, respawned c c0).
Proof.
  intros [_ Hfc] Hsens. unfold new_Car, reset.
  destruct (match b with
            | Some b0 => let* b' := copiaCerebro b0 in Ok (b', n)
            | None => Ok (new_Cerebro None n)
            end) as [[b1 n1]|]; [|discriminate].
  cbn [bind]. unfold _bfsDistanceToFinish, _finishTiles, cell_of.
  destruct c. simpl in Hfc, Hsens. subst.
  cbn [x y _distanceCache _finishCache set_x set_y set_vel set_angle
       set_alive set_finished set_score set_distanceTravelled
       set_lastPosition set_accumulatedSpeed set_framesAlive set_collisions
       set_idleFrames set_distanceCache JsMap.get].
  destruct Hfc as [-> | ->]; cbn [bind];
    (destruct (decide (len (finish_from 0 mapa) = 0%Z));
     [intros [= <- <-]; reflexivity|]);
    (destruct (_bfs _ (finish_from 0 mapa)) as [d|]; [|discriminate]);
    cbn [bind]; intros [= <- <-]; reflexivity.
Qed.

(** ** Collision test and walkability agree *)

Lemma _hasCollided_walkable (c : Car) :
  _hasCollided c = let* w := _tileWalkable (cell_of c) in Ok (negb w).
Proof.
  unfold _hasCollided, _tileWalkable, cell_of. simpl.
  destruct (outside _ _) as [[|]|]; cbn [bind]; try reflexivity.
  destruct (mapa_at _ _) as [t|]; cbn [bind]; [|reflexivity].
  destruct (decide _); reflexivity.
Qed.

(** ** The finish tiles, once *)

Lemma finish_in_row_NoDup (r : Z) (row : list Z) :
  forall c0, NoDup (finish_in_row r c0 row).
Proof.
  induction row as [|v row IH]; intros c0; cbn [finish_in_row];
    [constructor|].
  destruct (decide (v = 2%Z)); [|apply IH].
  simpl. constructor; [|apply IH].
  intros Hin. apply finish_in_row_elem in Hin as (_ & k & _ & Hp).
  simpl in Hp. lia.
Qed.

Lemma finish_from_NoDup (rows : list (list Z)) :
  forall r0, NoDup (finish_from r0 rows).
Proof.
  induction rows as [|row rows IH]; intros r0; cbn [finish_from];
    [constructor|].
  apply NoDup_app. split; [apply finish_in_row_NoDup|].
  split; [|apply IH].
  intros p Hin Hin'.
  apply finish_in_row_elem in Hin as (Hr & _).
  apply finish_from_elem in Hin' as (i & _ & _ & _ & _ & Hr' & _). lia.
Qed.

Lemma _finishTiles_spec (c : Car) :
  cache_sound c ->
  exists c1,
    _finishTiles c = Ok (finish_from 0 mapa, c1)
    /\ c1 = set_finishCache (Some (finish_from 0 mapa)) c
    /\ _finishTiles c1 = Ok (finish_from 0 mapa, c1).
Proof.
  intros [_ Hfc]. unfold _finishTiles.
  destruct Hfc as [Hn | Hs]; rewrite ?Hn, ?Hs.
  - eexists. split; [reflexivity|]. split; reflexivity.
  - exists c. split; [reflexivity|]. split.
    + destruct c; simpl in *. subst. reflexivity.
    + rewrite Hs. reflexivity.
Qed.

(** ** A finished car *)




(** ** Mutation *)

Lemma mutar_vals_rate_0 (rate : Q) (vals : list Q) :
  (forall k, rate <= tape k) ->
  forall n, mutar_vals rate vals n = (vals, (n + length vals)%nat).
Proof.
  intros Hr. induction vals as [|v vals IH]; intros n; cbn [mutar_vals].
  - simpl. rewrite Nat.add_0_r. reflexivity.
  - unfold Math_random.
    assert (Hf : Qltb (tape n) rate = false) by (apply Qltb_ge, Hr).
    rewrite Hf, IH. simpl. f_equal. lia.
Qed.

Lemma mutar_tensors_rate_0 (rate : Q) (ts : list Tensor) :
  (forall k, rate <= tape k) -> Forall tensor_ok ts ->
  forall n,
    mutar_tensors rate ts n
    = Ok (ts,
          (n + foldr (fun t acc => (length (dataSync t) + acc)%nat) 0%nat ts)
            %nat).
Proof.
  intros Hr. induction 1 as [|t ts Ht _ IH]; intros n; cbn [mutar_tensors].
  - simpl. rewrite Nat.add_0_r. reflexivity.
  - rewrite (mutar_vals_rate_0 rate _ Hr). unfold tf_tensor. cbn [default].
    destruct (decide _) as [_|Hbad]; [|exfalso; apply Hbad; exact Ht].
    cbn [bind]. rewrite IH. cbn [bind]. destruct t. simpl.
    rewrite Nat.add_assoc. reflexivity.
Qed.

Lemma mutar_rate_0 (rate : Q) (b : Cerebro) (n : nat) :
  (forall k, rate <= tape k) -> brain_ok b ->
  mutar rate b n = Ok (b, (n + weight_count b)%nat).
Proof.
  intros Hr Hb. unfold mutar.
  rewrite (mutar_tensors_rate_0 rate _ Hr Hb). cbn [bind].
  rewrite setWeights_same_shapes by reflexivity. cbn [bind].
  destruct b as [[ws]]. reflexivity.
Qed.

Lemma mutar_vals_calls (rate : Q) (vals : list Q) :
  forall n, (n + length vals <= (mutar_vals rate vals n).2)%nat.
Proof.
  induction vals as [|v vals IH]; intros n; cbn [mutar_vals]; [simpl; lia|].
  unfold Math_random. destruct (Qltb (tape n) rate).
  - unfold randn_bm.
    assert (Hd : forall k m, (m < (draw_nonzero k m).2)%nat).
    { induction k as [|k IHk]; intros m; cbn [draw_nonzero]; unfold Math_random;
        [simpl; lia|].
      destruct (Qeq_bool (tape m) 0); [|simpl; lia].
      specialize (IHk (S m)). lia. }
    pose proof (Hd (gap (S n)) (S n)) as H1.
    destruct (draw_nonzero (gap (S n)) (S n)) as [u n1]. simpl in H1.
    pose proof (Hd (gap n1) n1) as H2.
    destruct (draw_nonzero (gap n1) n1) as [w n2]. simpl in H2.
    specialize (IH n2). destruct (mutar_vals rate vals n2) as [vs n3].
    simpl in *. lia.
  - specialize (IH (S n)). destruct (mutar_vals rate vals (S n)) as [vs n3].
    simpl in *. lia.
Qed.

Lemma mutar_topology (rate : Q) (b : Cerebro) (n : nat) :
  brain_ok b ->
  exists b' n',
    mutar rate b n = Ok (b', n')
    /\ List.map shape (getWeights (model b'))
       = List.map shape (getWeights (model b))
    /\ brain_ok b'.
Proof.
  intros Hb. unfold mutar.
  destruct (mutar_tensors_ok rate _ Hb n) as (ts' & n' & -> & Hsh & Hok).
  cbn [bind]. rewrite setWeights_same_shapes by congruence. cbn [bind].
  eexists _, _. split; [reflexivity|]. split; [exact Hsh|exact Hok].
Qed.

(** ** Import, then export *)

Lemma tf_tensor_inv (vals : list Q) (shp : option (list nat)) (t : Tensor) :
  tf_tensor vals shp = Ok t ->
  dataSync t = vals /\ shape t = default [length vals] shp /\ tensor_ok t.
Proof.
  unfold tf_tensor, tensor_ok. destruct (decide _) as [E|]; [|discriminate].
  intros [= <-]. simpl. auto.
Qed.

Lemma importar_tensors_inv (data : Pesos) (vs : list (list Q)) :
  forall (i : nat) (ts : list Tensor),
    importar_tensors data i vs = Ok ts ->
    List.map dataSync ts = vs
    /\ List.map shape ts
       = imap (fun j vals => default [length vals] (shapes data !! (i + j)%nat))
           vs
    /\ Forall tensor_ok ts.
Proof.
  induction vs as [|vals vs IH]; intros i ts; cbn [importar_tensors].
  - intros [= <-]. repeat split; constructor.
  - destruct (tf_tensor vals (shapes data !! i)) as [t|] eqn:Ht;
      [|discriminate].
    cbn [bind].
    destruct (importar_tensors data (S i) vs) as [ts'|] eqn:Hts;
      [|discriminate].
    cbn [bind]. intros [= <-].
    destruct (tf_tensor_inv _ _ _ Ht) as (Hd & Hs & Hok).
    destruct (IH _ _ Hts) as (Hd' & Hs' & Hok').
    split; [simpl; congruence|]. split; [|constructor; assumption].
    simpl. rewrite Nat.add_0_r, Hs. f_equal. rewrite Hs'.
    apply imap_ext. intros j v _. unfold compose.
    replace (S i + j)%nat with (i + S j)%nat by lia. reflexivity.
Qed.

Lemma setWeights_inv (m m' : Sequential) (ws : list Tensor) :
  setWeights m ws = Ok m' ->
  getWeights m' = ws
  /\ List.map shape ws = List.map shape (getWeights m).
Proof.
  unfold setWeights. destruct (decide _); [|discriminate].
  destruct (decide _) as [E|]; [|discriminate].
  intros [= <-]. auto.
Qed.

Lemma importarPesos_inv (b b' : Cerebro) (data : Pesos) :
  importarPesos b data = Ok b' ->
  values (exportarPesos b') = values data
  /\ shapes (exportarPesos b') = shapes_read data
  /\ shapes (exportarPesos b') = shapes (exportarPesos b)
  /\ brain_ok b'.
Proof.
  unfold importarPesos.
  destruct (importar_tensors data 0 (values data)) as [ts|] eqn:Hts;
    [|discriminate].
  cbn [bind]. destruct (setWeights (model b) ts) as [m|] eqn:Hm;
    [|discriminate].
  cbn [bind]. intros [= <-].
  destruct (importar_tensors_inv _ _ _ _ Hts) as (Hd & Hs & Hok).
  destruct (setWeights_inv _ _ _ Hm) as (Hw & Hsh).
  unfold exportarPesos, brain_ok, shapes_read. simpl. rewrite Hw.
  split; [exact Hd|]. split; [exact Hs|]. split; [exact Hsh|exact Hok].
Qed.

Lemma shapes_read_all (data : Pesos) :
  length (shapes data) = length (values data) ->
  shapes_read data = shapes data.
Proof.
  intros Hlen. unfold shapes_read.
  apply list_eq. intros i. rewrite list_lookup_imap.
  destruct (values data !! i) as [v|] eqn:Hv; simpl.
  - destruct (shapes data !! i) as [s|] eqn:Hs; [reflexivity|].
    apply lookup_ge_None in Hs. apply lookup_lt_Some in Hv. lia.
  - symmetry. apply lookup_ge_None. apply lookup_ge_None in Hv. lia.
Qed.

(** ** The normal draw *)

Lemma draw_nonzero_spec (budget : nat) :
  forall n,
    (exists k, (k <= budget)%nat /\ ~ tape (n + k)%nat == 0) ->
    exists k, (k <= budget)%nat
              /\ draw_nonzero budget n = (tape (n + k)%nat, S (n + k))
              /\ ~ tape (n + k)%nat == 0
              /\ forall j, (j < k)%nat -> tape (n + j)%nat == 0.
Proof.
  induction budget as [|budget IH]; intros n (k & Hk & Hnz).
  - assert (k = 0%nat) by lia. subst k. exists 0%nat.
    cbn [draw_nonzero]. unfold Math_random. rewrite Nat.add_0_r in *.
    split; [lia|]. split; [reflexivity|]. split; [exact Hnz|]. intros j Hj. lia.
  - cbn [draw_nonzero]. unfold Math_random.
    destruct (Qeq_bool (tape n) 0) eqn:Hz.
    + apply Qeq_bool_iff in Hz.
      destruct k as [|k]; [rewrite Nat.add_0_r in Hnz; contradiction|].
      destruct (IH (S n)) as (k' & Hk' & Hrun & Hnz' & Hzero).
      { exists k. split; [lia|].
        replace (S n + k)%nat with (n + S k)%nat by lia. exact Hnz. }
      exists (S k'). replace (n + S k')%nat with (S n + k')%nat by lia.
      split; [lia|]. split; [exact Hrun|]. split; [exact Hnz'|].
      intros [|j] Hj; [rewrite Nat.add_0_r; exact Hz|].
      replace (n + S j)%nat with (S n + j)%nat by lia. apply Hzero. lia.
    + exists 0%nat. rewrite Nat.add_0_r. split; [lia|].
      split; [reflexivity|]. split.
      * intros E. apply Qeq_bool_iff in E. congruence.
      * intros j Hj. lia.
Qed.

Lemma randn_bm_spec (n : nat) :
  gap_ok ->
  exists i j,
    (n <= i < j)%nat
    /\ randn_bm n
       = (Math_sqrt (-2.0 * Math_log (tape i)) * cos (2.0 * PI * tape j), S j)
    /\ ~ tape i == 0 /\ ~ tape j == 0
    /\ forall k, (n <= k < j)%nat -> k <> i -> tape k == 0.
Proof.
  intros Hgap. unfold randn_bm.
  destruct (draw_nonzero_spec (gap n) n (Hgap n))
    as (k1 & _ & Hrun1 & Hnz1 & Hz1).
  rewrite Hrun1.
  destruct (draw_nonzero_spec (gap (S (n + k1))) (S (n + k1)) (Hgap _))
    as (k2 & _ & Hrun2 & Hnz2 & Hz2).
  rewrite Hrun2.
  exists (n + k1)%nat, (S (n + k1) + k2)%nat.
  split; [lia|]. split; [reflexivity|]. split; [exact Hnz1|].
  split; [exact Hnz2|].
  intros k Hk Hne.
  destruct (Nat.lt_ge_cases k (n + k1)) as [Hlt|Hge].
  - replace k with (n + (k - n))%nat by lia. apply Hz1. lia.
  - replace k with (S (n + k1) + (k - S (n + k1)))%nat by lia.
    apply Hz2. lia.
Qed.


(** ** Spawn and finish detection *)

Lemma scan_in_row_finish (r : Z) (row : list Z) :
  forall c, scan_in_row 2 r c row = finish_in_row r c row.
Proof.
  induction row as [|w row IH]; intros c; [reflexivity|].
  cbn [scan_in_row finish_in_row]. rewrite IH. reflexivity.
Qed.

Lemma scan_from_finish (rows : list (list Z)) :
  forall r, scan_from 2 r rows = finish_from r rows.
Proof.
  induction rows as [|row rows IH]; intros r; [reflexivity|].
  cbn [scan_from finish_from]. rewrite IH, scan_in_row_finish. reflexivity.
Qed.

Lemma scan_in_row_elem (v r : Z) (row : list Z) :
  forall (c0 : Z) (p : Pos),
    p ∈ scan_in_row v r c0 row <->
    p.2 = r /\ exists k : nat,
      row !! k = Some v /\ p.1 = (c0 + Z.of_nat k)%Z.
Proof.
  induction row as [|w row IH]; intros c0 p; cbn [scan_in_row].
  - split; [intros H; inversion H|intros (_ & k & Hk & _); discriminate].
  - rewrite elem_of_app, IH. split.
    + intros [Hhd | (Hr & k & Hk & Hp)].
      * destruct (decide (w = v)); [|inversion Hhd].
        apply list_elem_of_singleton in Hhd. subst. simpl.
        split; [reflexivity|]. exists 0%nat. split; [reflexivity|lia].
      * split; [exact Hr|]. exists (S k). split; [exact Hk|lia].
    + intros (Hr & [|k] & Hk & Hp).
      * left. simpl in Hk. injection Hk as ->.
        destruct (decide _); [|contradiction].
        apply list_elem_of_singleton. destruct p; simpl in *. f_equal; lia.
      * right. split; [exact Hr|]. exists k. split; [exact Hk|lia].
Qed.

Lemma scan_from_elem (v : Z) (rows : list (list Z)) :
  forall (r0 : Z) (p : Pos),
    p ∈ scan_from v r0 rows <->
    exists (i k : nat) (row : list Z),
      rows !! i = Some row /\ row !! k = Some v
      /\ p.2 = (r0 + Z.of_nat i)%Z /\ p.1 = Z.of_nat k.
Proof.
  induction rows as [|row rows IH]; intros r0 p; cbn [scan_from].
  - split; [intros H; inversion H|intros (i & k & r & Hi & _); discriminate].
  - rewrite elem_of_app, scan_in_row_elem, IH. split.
    + intros [(Hr & k & Hk & Hp) | (i & k & r & Hi & Hk & Hr & Hp)].
      * exists 0%nat, k, row. repeat split; auto; lia.
      * exists (S i), k, r. repeat split; auto; lia.
    + intros ([|i] & k & r & Hi & Hk & Hr & Hp).
      * left. simpl in Hi. injection Hi as ->.
        split; [lia|]. exists k. split; [exact Hk|lia].
      * right. exists i, k, r. repeat split; auto; lia.
Qed.

(** The scan finds exactly the tiles of value [v]. *)
Lemma scan_from_mapa (v : Z) (p : Pos) :
  p ∈ scan_from v 0 mapa <-> tile p = Some v.
Proof.
  rewrite scan_from_elem. unfold tile, index.
  destruct p as [px py]. simpl. split.
  - intros (i & k & row & Hi & Hk & -> & ->).
    destruct (Z.ltb_spec (0 + Z.of_nat i) 0); [lia|].
    rewrite Z.add_0_l, Nat2Z.id, Hi.
    destruct (Z.ltb_spec (Z.of_nat k) 0); [lia|].
    rewrite Nat2Z.id. exact Hk.
  - destruct (Z.ltb_spec py 0); [discriminate|].
    destruct (mapa !! Z.to_nat py) as [row|] eqn:Hrow; [|discriminate].
    destruct (Z.ltb_spec px 0); [discriminate|].
    intros Hk. exists (Z.to_nat py), (Z.to_nat px), row.
    repeat split; auto; lia.
Qed.

Lemma last_cons_default {A} (d a : A) (l : list A) :
  default d (last (a :: l)) = default a (last l).
Proof.
  revert d a. induction l as [|b l IH]; intros d a; [reflexivity|].
  change (last (a :: b :: l)) with (last (b :: l)).
  rewrite (IH d b), (IH a b). reflexivity.
Qed.

Lemma last_app_default {A} (d : A) (l1 l2 : list A) :
  default d (last (l1 ++ l2)) = default (default d (last l1)) (last l2).
Proof.
  revert d. induction l1 as [|a l1 IH]; intros d; [reflexivity|].
  rewrite <- app_comm_cons, !last_cons_default. apply IH.
Qed.

Lemma first_nonzero_cons (a : Z) (l : list Z) :
  first_nonzero (a :: l) = if decide (a = 0%Z) then first_nonzero l else a.
Proof.
  unfold first_nonzero. rewrite filter_cons.
  destruct (decide (a <> 0%Z)) as [Hn|Hz]; destruct (decide (a = 0%Z));
    try reflexivity; contradiction.
Qed.

Lemma first_nonzero_app (a : Z) (l1 l2 : list Z) :
  first_nonzero (first_nonzero (a :: l1) :: l2) = first_nonzero (a :: l1 ++ l2).
Proof.
  revert a. induction l1 as [|b l1 IH]; intros a.
  - cbn [app]. rewrite (first_nonzero_cons a l2), (first_nonzero_cons a []).
    destruct (decide (a = 0%Z)) as [->|Ha].
    + change (first_nonzero []) with 0%Z. rewrite first_nonzero_cons.
      destruct (decide (0 = 0)%Z); [reflexivity|contradiction].
    + rewrite first_nonzero_cons. destruct (decide _); [contradiction|].
      reflexivity.
  - rewrite <- app_comm_cons.
    rewrite (first_nonzero_cons a (b :: l1)),
      (first_nonzero_cons a (b :: l1 ++ l2)).
    destruct (decide (a = 0%Z)); [apply IH|].
    rewrite first_nonzero_cons. destruct (decide _); [contradiction|].
    reflexivity.
Qed.

Lemma detect_in_row_spec (row : Z) (r : list Z) :
  forall (col : Z) (sp : p5.Vector) (fl : FinishLine.t),
    detect_in_row row col r (sp, fl)
    = (default sp (last (List.map centre (scan_in_row 3 row col r))),
       FinishLine.mk
         (first_nonzero
            (FinishLine.y fl :: List.map snd (scan_in_row 2 row col r)))
         (first_nonzero
            (FinishLine.xStart fl :: List.map fst (scan_in_row 2 row col r)))
         (default (FinishLine.xEnd fl)
            (last (List.map fst (scan_in_row 2 row col r))))).
Proof.
  induction r as [|v r IH]; intros col sp fl.
  - cbn [detect_in_row scan_in_row List.map]. simpl.
    rewrite !first_nonzero_cons. unfold first_nonzero. simpl.
    destruct fl as [fy fs fe]. simpl.
    destruct (decide (fy = 0%Z)) as [->|]; destruct (decide (fs = 0%Z)) as [->|];
      reflexivity.
  - cbn [detect_in_row scan_in_row]. unfold detect_tile.
    destruct (decide (v = 3%Z)) as [->|H3].
    + rewrite IH. destruct (decide (3 = 2)%Z); [discriminate|].
      cbn [app List.map]. rewrite last_cons_default. reflexivity.
    + destruct (decide (v = 2%Z)) as [->|H2].
      * destruct fl as [fy fs fe].
        cbn [FinishLine.y FinishLine.xStart FinishLine.xEnd].
        destruct (decide (fy = 0%Z)) as [Hy|Hy];
          cbn [FinishLine.y FinishLine.xStart FinishLine.xEnd];
          destruct (decide (fs = 0%Z)) as [Hs|Hs];
          cbn [FinishLine.y FinishLine.xStart FinishLine.xEnd];
          rewrite IH;
          cbn [app List.map fst snd FinishLine.y FinishLine.xStart
               FinishLine.xEnd];
          rewrite last_cons_default; subst;
          rewrite ?(first_nonzero_cons 0), ?(first_nonzero_cons fy),
            ?(first_nonzero_cons fs);
          repeat (destruct (decide _); try lia); reflexivity.
      * rewrite IH. reflexivity.
Qed.

Lemma detect_from_spec (rows : list (list Z)) :
  forall (row : Z) (sp : p5.Vector) (fl : FinishLine.t),
    detect_from row rows (sp, fl)
    = (default sp (last (List.map centre (scan_from 3 row rows))),
       FinishLine.mk
         (first_nonzero
            (FinishLine.y fl :: List.map snd (scan_from 2 row rows)))
         (first_nonzero
            (FinishLine.xStart fl :: List.map fst (scan_from 2 row rows)))
         (default (FinishLine.xEnd fl)
            (last (List.map fst (scan_from 2 row rows))))).
Proof.
  induction rows as [|r rows IH]; intros row sp fl.
  - cbn [detect_from scan_from List.map]. simpl.
    rewrite !first_nonzero_cons. unfold first_nonzero. simpl.
    destruct fl as [fy fs fe]. simpl.
    destruct (decide (fy = 0%Z)) as [->|]; destruct (decide (fs = 0%Z)) as [->|];
      reflexivity.
  - cbn [detect_from scan_from]. rewrite detect_in_row_spec, IH.
    cbn [FinishLine.y FinishLine.xStart FinishLine.xEnd].
    rewrite !map_app, !last_app_default, !first_nonzero_app. reflexivity.
Qed.


Lemma Qfloor_unique (q : Q) (c : Z) :
  inject_Z c <= q -> q < inject_Z (c + 1) -> Qfloor q = c.
Proof.
  intros Hlo Hhi.
  pose proof (Qfloor_le q) as H1. pose proof (Qlt_floor q) as H2.
  assert (Ha : (Qfloor q < c + 1)%Z).
  { rewrite Zlt_Qlt. eapply Qle_lt_trans; eassumption. }
  assert (Hb : (c < Qfloor q + 1)%Z).
  { rewrite Zlt_Qlt. eapply Qle_lt_trans; eassumption. }
  lia.
Qed.

(** The centre of a tile lies on that tile. *)
Lemma cell_at_centre (p : Pos) : 0 < tileSize -> cell_at (centre p) = p.
Proof.
  intros Hts. destruct p as [c r]. unfold cell_at, centre, p5.floor.
  cbn [p5.x p5.y fst snd].
  assert (E : forall k : Z,
            (inject_Z k * tileSize + tileSize / 2) / tileSize
            == inject_Z k + (1 # 2)).
  { intros k. field. intros E0. rewrite E0 in Hts. discriminate. }
  pose proof (E c) as Ec. pose proof (E r) as Er. rewrite Ec, Er.
  f_equal; apply Qfloor_unique; rewrite ?inject_Z_plus;
    change (inject_Z 1) with 1; lra.
Qed.

Lemma scan_in_row_last (v r : Z) (row : list Z) :
  forall (c0 : Z) (p q : Pos),
    last (scan_in_row v r c0 row) = Some p ->
    q ∈ scan_in_row v r c0 row -> scanned_before q p.
Proof.
  induction row as [|w row IH]; intros c0 p q; cbn [scan_in_row].
  - intros _ Hq. inversion Hq.
  - intros Hl Hq. apply last_app_Some in Hl as [Hl|[Hnone Hl]].
    + apply elem_of_app in Hq as [Hq|Hq]; [|exact (IH _ _ _ Hl Hq)].
      destruct (decide (w = v)); [|inversion Hq].
      apply list_elem_of_singleton in Hq. subst q.
      apply last_Some_elem_of, scan_in_row_elem in Hl as (Hr & k & _ & Hk).
      right. simpl. split; [congruence|lia].
    + destruct (decide (w = v)); [|discriminate].
      injection Hl as <-.
      apply elem_of_app in Hq as [Hq|Hq].
      * apply list_elem_of_singleton in Hq. subst q. right. simpl. lia.
      * apply last_None in Hnone. rewrite Hnone in Hq. inversion Hq.
Qed.

Lemma scan_from_last (v : Z) (rows : list (list Z)) :
  forall (r0 : Z) (p q : Pos),
    last (scan_from v r0 rows) = Some p ->
    q ∈ scan_from v r0 rows -> scanned_before q p.
Proof.
  induction rows as [|row rows IH]; intros r0 p q; cbn [scan_from].
  - intros _ Hq. inversion Hq.
  - intros Hl Hq. apply last_app_Some in Hl as [Hl|[Hnone Hl]].
    + apply elem_of_app in Hq as [Hq|Hq]; [|exact (IH _ _ _ Hl Hq)].
      apply scan_in_row_elem in Hq as (Hr & _).
      apply last_Some_elem_of, scan_from_elem in Hl
        as (i & _ & _ & _ & _ & Hp & _).
      left. lia.
    + apply elem_of_app in Hq as [Hq|Hq].
      * exact (scan_in_row_last _ _ _ _ _ _ Hl Hq).
      * apply last_None in Hnone. rewrite Hnone in Hq. inversion Hq.
Qed.

Lemma detectSpawnAndFinish_eq (s : Sketch) :
  detectSpawnAndFinish s
  = set_finishLine
      (FinishLine.mk
         (first_nonzero
            (FinishLine.y (finishLine s)
               :: List.map snd (finish_from 0 mapa)))
         (first_nonzero
            (FinishLine.xStart (finishLine s)
               :: List.map fst (finish_from 0 mapa)))
         (default (FinishLine.xEnd (finishLine s))
            (last (List.map fst (finish_from 0 mapa)))))
      (set_engine
         (set_spawnPoint
            (default (spawnPoint (engine s))
               (last (List.map centre (scan_from 3 0 mapa))))
            (engine s)) s).
Proof.
  unfold detectSpawnAndFinish. rewrite detect_from_spec, scan_from_finish.
  reflexivity.
Qed.


(** ** Breeding a generation *)


Lemma mutant_topology (parent b : Cerebro) :
  topology_9_5_2 parent -> mutant_of parent b -> topology_9_5_2 b.
Proof.
  intros [Hs Hok] (n & n' & Hm).
  destruct (mutar_topology MUTATION_RATE parent n Hok)
    as (b' & n1 & Hm' & Hs' & Hok').
  assert (b' = b) by congruence. subst b'. split; [congruence|exact Hok'].
Qed.

Lemma newGeneration_from_S (k : nat) (i : Z) (e : Engine) :
  newGeneration_from (S k) i e
  = let* (brain, n) :=
      breed (eliteBrains e) (localStorage e) i (random_calls e) in
    let* (car, n) :=
      new_Car (p5.x (spawnPoint e)) (p5.y (spawnPoint e)) (Some brain) n in
    newGeneration_from k (i + 1)%Z
      (set_population (population e ++ [car]) (set_random_calls n e)).
Proof. reflexivity. Qed.

(** The spawning loop, for any way [P] of telling the brain of the car of
    index [j]. *)
Lemma newGeneration_from_gen (P : Z -> Cerebro -> Prop) (k : nat) :
  forall (i : Z) (e : Engine),
    (forall j n, (i <= j)%Z ->
       exists b n', breed (eliteBrains e) (localStorage e) j n = Ok (b, n')
                    /\ P j b) ->
    exists cars e',
      newGeneration_from k i e = Ok e'
      /\ e' = set_random_calls (random_calls e')
                (set_population (population e ++ cars) e)
      /\ length cars = k
      /\ forall (j : nat) c, cars !! j = Some c ->
           exists b, P (i + Z.of_nat j)%Z b
                     /\ spawned (p5.x (spawnPoint e)) (p5.y (spawnPoint e)) b c.
Proof.
  induction k as [|k IH]; intros i e Hbreed.
  - exists [], e. split; [reflexivity|]. rewrite app_nil_r.
    split; [destruct e; reflexivity|]. split; [reflexivity|].
    intros j c Hj. discriminate.
  - rewrite newGeneration_from_S.
    destruct (Hbreed i (random_calls e)) as (b & n1 & Hb & HP); [lia|].
    rewrite Hb. cbn [bind].
    destruct (new_Car_invariants (p5.x (spawnPoint e)) (p5.y (spawnPoint e))
                (Some b) n1) as (car & n2 & Hcar & _).
    rewrite Hcar. cbn [bind].
    match goal with
    | |- context [newGeneration_from k ?j ?e0] =>
        destruct (IH j e0) as (cars & e' & Hrun & He' & Hl & Hcars)
    end.
    { intros j n Hj. simpl. apply Hbreed. lia. }
    exists (car :: cars), e'. split; [exact Hrun|]. split.
    { rewrite He' at 1. simpl. rewrite <- app_assoc. reflexivity. }
    split; [simpl; congruence|].
    intros [|j] c Hj.
    + injection Hj as <-. exists b. rewrite Z.add_0_r.
      split; [exact HP|]. exists n1, n2. exact Hcar.
    + destruct (Hcars j c Hj) as (b' & HP' & Hsp). exists b'.
      replace (i + Z.of_nat (S j))%Z with (i + 1 + Z.of_nat j)%Z by lia.
      split; [exact HP'|exact Hsp].
Qed.

Lemma newGeneration_gen (P : Z -> Cerebro -> Prop) (e : Engine) :
  (forall j n, (0 <= j)%Z ->
     exists b n', breed (eliteBrains e) (localStorage e) j n = Ok (b, n')
                  /\ P j b) ->
  exists cars e',
    newGeneration e = Ok e'
    /\ e' = set_random_calls (random_calls e')
              (set_population cars
                 (set_transitioning false (set_frameCount_ 0%Z e)))
    /\ length cars = Z.to_nat POPULATION_SIZE
    /\ forall (j : nat) c, cars !! j = Some c ->
         exists b, P (Z.of_nat j) b
                   /\ spawned (p5.x (spawnPoint e)) (p5.y (spawnPoint e)) b c.
Proof.
  intros Hbreed. unfold newGeneration.
  match goal with
  | |- context [newGeneration_from ?k ?j ?e0] =>
      destruct (newGeneration_from_gen P k j e0)
        as (cars & e' & Hrun & He' & Hl & Hcars)
  end.
  { intros j n Hj. simpl. apply Hbreed, Hj. }
  exists cars, e'. split; [exact Hrun|]. split; [exact He'|].
  split; [exact Hl|]. exact Hcars.
Qed.

(** With elites, each car descends from the elite of its turn. *)
Lemma breed_elites (elites : list Cerebro) (storage : option Pesos)
    (j : Z) (n : nat) :
  elites <> [] -> Forall topology_9_5_2 elites -> (0 <= j)%Z ->
  exists b n',
    breed elites storage j n = Ok (b, n')
    /\ exists parent,
         index elites (j mod len elites)%Z = Some parent
         /\ mutant_of parent b /\ topology_9_5_2 b.
Proof.
  intros Hne Hok Hj. unfold breed.
  assert (Hlen : (0 < len elites)%Z).
  { unfold len. destruct elites; [contradiction|simpl; lia]. }
  destruct (Z.gtb_spec (len elites) 0); [|lia].
  destruct (index_Some elites (j mod len elites))
    as (parent & Hpar); [apply Z.mod_pos_bound; lia|].
  rewrite Hpar, copiaCerebro_ok. cbn [bind].
  assert (Hp : topology_9_5_2 parent).
  { rewrite Forall_forall in Hok. apply Hok. unfold index in Hpar.
    destruct (_ <? 0)%Z; [discriminate|].
    eapply list_elem_of_lookup_2, Hpar. }
  destruct (mutar_topology MUTATION_RATE parent n (proj2 Hp))
    as (b & n' & Hm & _).
  exists b, n'. split; [exact Hm|]. exists parent.
  split; [reflexivity|].
  assert (Hmut : mutant_of parent b) by (exists n, n'; exact Hm).
  split; [exact Hmut|exact (mutant_topology _ _ Hp Hmut)].
Qed.



(** What [new Car] builds. *)
Lemma spawned_spec (x0 y0 : Q) (b : Cerebro) (c : Car) :
  spawned x0 y0 b c ->
  Reached c /\ brain c = b
  /\ x c = x0 /\ y c = y0 /\ vel c = p5.createVector 0 0 /\ angle c = 0
  /\ alive c = true /\ finished c = false /\ score c = 0
  /\ framesAlive c = 0%Z /\ idleFrames c = 0%Z /\ collisions c = 0%Z
  /\ accumulatedSpeed c = 0 /\ distanceTravelled c = 0
  /\ readings c = replicate 9 200
  /\ bestDist c = distToFinish c
  /\ _bfs (cell_of c) (finish_from 0 mapa) = Ok (distToFinish c).
Proof.
  intros (n & n' & Hnew).
  split; [exact (Reached_new _ _ _ _ _ _ Hnew)|].
  revert Hnew. unfold new_Car. rewrite copiaCerebro_ok. cbn [bind].
  match goal with
  | |- context [_bfsDistanceToFinish ?c0] =>
      assert (Hs : cache_sound c0) by (split; [constructor|left; reflexivity]);
      destruct (_bfsDistanceToFinish_spec c0 Hs)
        as (d & c1 & Hd & Hbfs & _ & (m & f & ->))
  end.
  rewrite Hd. cbn [bind]. intros [= <- <-]. simpl.
  repeat split. exact Hbfs.
Qed.


(** ** The running engine *)

Lemma spawned_running (x0 y0 : Q) (b : Cerebro) (c : Car) :
  topology_9_5_2 b -> spawned x0 y0 b c ->
  Reached c /\ topology_9_5_2 (brain c).
Proof.
  intros Hb Hsp. destruct (spawned_spec _ _ _ _ Hsp) as (Hr & Hbr & _).
  split; [exact Hr|]. rewrite Hbr. exact Hb.
Qed.

Lemma updated_cars_running (cars cars' : list Car) :
  Forall2 (fun c c' => update c = Ok (tt, c')) cars cars' ->
  Forall (fun c => Reached c /\ topology_9_5_2 (brain c)) cars ->
  Forall (fun c => Reached c /\ topology_9_5_2 (brain c)) cars'.
Proof.
  induction 1 as [|c c' cars cars' Hu _ IH]; intros Hok; [constructor|].
  inversion Hok as [|? ? [Hr Hb] Hrest]; subst.
  destruct (update_invariants c c' Hu) as (Hbr & _).
  constructor; [|auto]. split; [exact (Reached_update _ _ Hr Hu)|].
  rewrite Hbr. exact Hb.
Qed.

(** Ending a generation: ranking, elites, counters, and thirty new cars,
    each bred from the elite of its turn. *)
Lemma nextGeneration_running (e : Engine) :
  population e <> [] ->
  Forall (fun c => Reached c /\ topology_9_5_2 (brain c)) (population e) ->
  exists e',
    nextGeneration e = Ok e'
    /\ eliteBrains e'
       = List.map brain (take ELITE_COUNT (Array_sort by_fitness (population e)))
    /\ generation e' = (generation e + 1)%Z
    /\ frameCount_ e' = 0%Z /\ transitioning e' = false
    /\ bestScoreEver e' = bestScoreEver e
    /\ totalFinished e'
       = (totalFinished e
          + len (filter (fun c => finished c = true)
                   (Array_sort by_fitness (population e))))%Z
    /\ spawnPoint e' = spawnPoint e /\ localStorage e' = localStorage e
    /\ length (population e') = Z.to_nat POPULATION_SIZE
    /\ forall (j : nat) c, population e' !! j = Some c ->
         exists parent b,
           index (eliteBrains e')
             (Z.of_nat j mod len (eliteBrains e'))%Z = Some parent
           /\ mutant_of parent b /\ topology_9_5_2 b
           /\ spawned (p5.x (spawnPoint e)) (p5.y (spawnPoint e)) b c.
Proof.
  intros Hne Hok. unfold nextGeneration.
  cbn [population set_population set_transitioning]. rewrite mapM_copia.
  cbn [bind].
  set (ranked := Array_sort by_fitness (population e)).
  assert (Hperm : ranked ≡ₚ population e) by apply Array_sort_perm.
  assert (Hr : ranked <> []).
  { intros E. rewrite E in Hperm. symmetry in Hperm.
    apply Permutation_nil_r in Hperm. contradiction. }
  set (elites := List.map brain (take ELITE_COUNT ranked)).
  assert (Hel : elites <> []).
  { unfold elites. destruct ranked; [contradiction|discriminate]. }
  assert (Htop : Forall topology_9_5_2 elites).
  { apply Forall_forall. intros b Hb.
    apply list_elem_of_fmap in Hb as (c & -> & Hc).
    apply (subseteq_take ELITE_COUNT ranked) in Hc.
    rewrite Hperm in Hc. rewrite Forall_forall in Hok.
    apply (Hok c Hc). }
  match goal with
  | |- context [newGeneration ?e0] =>
      destruct (newGeneration_gen
                  (fun j b => exists parent,
                     index elites (j mod len elites)%Z = Some parent
                     /\ mutant_of parent b /\ topology_9_5_2 b) e0)
        as (cars & e' & Hrun & He' & Hl & Hcars)
  end.
  { intros j n Hj. simpl.
    destruct (breed_elites elites (localStorage e) j n Hel Htop Hj)
      as (b & n' & Hb & HP).
    exists b, n'. split; [exact Hb|exact HP]. }
  exists e'. split; [exact Hrun|]. rewrite He'. simpl.
  repeat (split; [reflexivity|]). split; [exact Hl|].
  intros j c Hj. destruct (Hcars j c Hj) as (b & (parent & Hp & Hm & Ht) & Hsp).
  exists parent, b. auto.
Qed.

Lemma running_draw (e : Engine) :
  running e ->
  exists e',
    draw e = Ok e' /\ running e'
    /\ bestScoreEver e <= bestScoreEver e'
    /\ (generation e' = generation e \/ generation e' = (generation e + 1)%Z)
    /\ (totalFinished e <= totalFinished e')%Z
    /\ spawnPoint e' = spawnPoint e /\ localStorage e' = localStorage e.
Proof.
  intros (Htr & Hlen & Hcars & Hfc & Hgen & Htf & Hbest & Hst).
  destruct (draw_tick_spec e)
    as (cars & n & ls & ld & e1 & Hrun & Hall & _ & _ & Hpop & Hfc1 & Hgen1
        & Htr1 & Hbest1).
  pose proof (updated_cars_running _ _ Hall Hcars) as Hcars1.
  assert (Hlen1 : length cars = Z.to_nat POPULATION_SIZE).
  { rewrite <- (Forall2_length _ _ _ Hall). exact Hlen. }
  assert (Hsame : totalFinished e1 = totalFinished e
                  /\ spawnPoint e1 = spawnPoint e
                  /\ localStorage e1 = localStorage e).
  { revert Hrun. unfold draw_tick.
    destruct (draw_update _ _ _ _) as [[[[cs k] l1] l2]|]; [|discriminate].
    cbn [bind]. intros [= <- _ _ _].
    destruct l1 as [l|]; [destruct (Qltb _ l)|]; repeat split. }
  destruct Hsame as (Htf1 & Hsp1 & Hst1).
  assert (Hb1 : bestScoreEver e <= bestScoreEver e1).
  { rewrite Hbest1. destruct ls as [l|]; [|apply Qle_refl].
    destruct (Qltb (bestScoreEver e) l) eqn:Hq; [|apply Qle_refl].
    apply Qltb_lt in Hq. apply Qlt_le_weak, Hq. }
  unfold draw. rewrite Hrun. cbn [bind].
  destruct (advances e1 n) eqn:Hadv.
  - destruct (nextGeneration_running e1)
      as (e2 & Hnext & _ & Hg2 & Hf2 & Ht2 & Hb2 & Htf2 & Hsp2 & Hst2 & Hl2
          & Hc2).
    { rewrite Hpop. intros E. rewrite E in Hlen1. vm_compute in Hlen1.
      discriminate. }
    { rewrite Hpop. exact Hcars1. }
    exists e2. split; [exact Hnext|]. split.
    { split; [exact Ht2|]. split; [exact Hl2|]. split.
      { apply Forall_forall. intros c Hc.
        apply list_elem_of_lookup in Hc as (j & Hj).
        destruct (Hc2 j c Hj) as (parent & b & _ & _ & Hb & Hsp).
        exact (spawned_running _ _ _ _ Hb Hsp). }
      split; [rewrite Hf2; unfold MAX_FRAMES; lia|].
      split; [lia|]. split.
      { rewrite Htf2, Htf1. unfold len. lia. }
      split; [rewrite Hb2; eapply Qle_trans; eassumption|].
      rewrite Hst2, Hst1. exact Hst. }
    split; [rewrite Hb2; exact Hb1|]. split; [right; lia|].
    split; [rewrite Htf2, Htf1; unfold len; lia|].
    split; congruence.
  - exists e1. split; [reflexivity|]. split.
    { split; [congruence|]. split; [rewrite Hpop; exact Hlen1|].
      split; [rewrite Hpop; exact Hcars1|]. split.
      { unfold advances in Hadv. rewrite Htr1, Htr in Hadv.
        cbn [negb] in Hadv. rewrite andb_true_r in Hadv.
        apply orb_false_iff in Hadv as [_ Hgt].
        rewrite Z.gtb_ltb in Hgt. apply Z.ltb_ge in Hgt. lia. }
      split; [lia|]. split; [lia|].
      split; [eapply Qle_trans; eassumption|]. rewrite Hst1. exact Hst. }
    split; [exact Hb1|]. split; [left; exact Hgen1|].
    split; [lia|]. auto.
Qed.


(** ** Starting, saving, loading, resetting *)







(** The head of the ranking is a fittest car. *)
Lemma Array_sort_head (l : list Car) :
  l <> [] ->
  exists best rest,
    Array_sort by_fitness l = best :: rest
    /\ best ∈ l
    /\ forall c, c ∈ l -> calcularFitness c <= calcularFitness best.
Proof.
  intros Hne.
  pose proof (Array_sort_perm l) as Hperm.
  pose proof (Array_sort_sorted l) as Hsorted.
  destruct (Array_sort by_fitness l) as [|best rest] eqn:E.
  { symmetry in Hperm. apply Permutation_nil_r in Hperm. contradiction. }
  exists best, rest. split; [reflexivity|]. split.
  - rewrite <- Hperm. left.
  - intros c Hc. rewrite <- Hperm in Hc.
    apply StronglySorted_inv in Hsorted as [_ Hall].
    apply elem_of_cons in Hc as [->|Hc]; [apply Qle_refl|].
    rewrite Forall_forall in Hall. exact (Hall c Hc).
Qed.

Lemma salvarCerebro_spec (s : Sketch) :
  population (engine s) <> [] ->
  exists best rest,
    Array_sort by_fitness (population (engine s)) = best :: rest
    /\ best ∈ population (engine s)
    /\ (forall c, c ∈ population (engine s) ->
                  calcularFitness c <= calcularFitness best)
    /\ salvarCerebro s
       = Ok (showToast BrainSaved
               (set_engine
                  (set_localStorage (Some (exportarPesos (brain best)))
                     (set_population (best :: rest) (engine s))) s)).
Proof.
  intros Hne.
  destruct (Array_sort_head _ Hne) as (best & rest & Hs & Hin & Hmax).
  exists best, rest. split; [exact Hs|]. split; [exact Hin|].
  split; [exact Hmax|]. unfold salvarCerebro.
  destruct (decide _) as [E|_].
  { unfold len in E. destruct (population (engine s)); [contradiction|].
    simpl in E. lia. }
  cbn [population set_population]. rewrite Hs. reflexivity.
Qed.

Lemma salvarCerebro_empty (s : Sketch) :
  population (engine s) = [] -> salvarCerebro s = Ok s.
Proof. intros E. unfold salvarCerebro. rewrite E. reflexivity. Qed.






(** ** The keyboard *)






Lemma keyPressed_other (key : string) (s : Sketch) :
  key ∉ bound_keys -> keyPressed key s = Ok s.
Proof.
  intros Hk. unfold keyPressed, bound_keys in *.
  repeat match goal with
         | |- context [bool_decide (key = ?k)] =>
             rewrite (bool_decide_eq_false_2 (key = k))
               by (intros ->; apply Hk; set_solver)
         end.
  reflexivity.
Qed.

Lemma keyPressed_speed (key : string) (s : Sketch) :
  exists f,
    (key = "+"%string \/ key = "="%string ->
     keyPressed key s = Ok (showToast (Speed f) (set_currentFPS f s))
     /\ f = Qmin (currentFPS s * 2) 240)
    /\ (key = "-"%string \/ key = "_"%string ->
        keyPressed key s
        = Ok (showToast (Speed (Qmax (currentFPS s / 2) 5))
                (set_currentFPS (Qmax (currentFPS s / 2) 5) s))).
Proof.
  exists (Qmin (currentFPS s * 2) 240). split.
  - intros [-> | ->]; (split; [reflexivity|reflexivity]).
  - intros [-> | ->]; reflexivity.
Qed.


(** ** A ray stops at its first blocked sample *)

Lemma outside_true (row col : Z) :
  outside row col = Ok true -> ~ in_grid (col, row).
Proof.
  unfold outside, in_grid. simpl. intros Ho [Hr Hk]. revert Ho.
  destruct (Z.ltb_spec row 0); [lia|].
  destruct (Z.geb_spec row (len mapa)); [lia|].
  destruct (Z.ltb_spec col 0); [lia|].
  unfold mapa_0_length. destruct mapa as [|r0 rows]; [discriminate|].
  simpl in *. destruct (Z.geb_spec col (len r0)); [lia|discriminate].
Qed.

Lemma _sensorReading_from_hit (c : Car) (ang : Q) (n : nat) :
  forall d : Z,
  exists r,
    _sensorReading_from c ang n d = Ok r
    /\ ((r = 200
         /\ forall j, (j < n)%nat ->
                      ~ ray_blocked c ang (d + 5 * Z.of_nat j)%Z)
        \/ exists k, (k < n)%nat
             /\ r = inject_Z (d + 5 * Z.of_nat k)
             /\ ray_blocked c ang (d + 5 * Z.of_nat k)%Z
             /\ forall j, (j < k)%nat ->
                          ~ ray_blocked c ang (d + 5 * Z.of_nat j)%Z).
Proof.
  induction n as [|n IH]; intros d.
  - exists 200. split; [reflexivity|]. left. split; [reflexivity|].
    intros j Hj. lia.
  - cbn [_sensorReading_from].
    set (row := p5.floor ((y c + sin ang * inject_Z d) / tileSize)).
    set (col := p5.floor ((x c + cos ang * inject_Z d) / tileSize)).
    assert (Hcell : ray_cell c ang d = (col, row)) by reflexivity.
    assert (Hhit : ray_blocked c ang d ->
              exists k, (k < S n)%nat
                /\ inject_Z d = inject_Z (d + 5 * Z.of_nat k)
                /\ ray_blocked c ang (d + 5 * Z.of_nat k)%Z
                /\ forall j, (j < k)%nat ->
                     ~ ray_blocked c ang (d + 5 * Z.of_nat j)%Z).
    { intros Hb. exists 0%nat. split; [lia|].
      replace (d + 5 * Z.of_nat 0)%Z with d by lia.
      split; [reflexivity|]. split; [exact Hb|]. intros j Hj. lia. }
    destruct (outside_cases row col) as [Ho | (Ho & Hr & Hk)]; rewrite Ho;
      cbn [bind].
    { exists (inject_Z d). split; [reflexivity|]. right. apply Hhit.
      left. rewrite Hcell. exact (outside_true _ _ Ho). }
    destruct (mapa_at_inside row col Hr) as (rw & Hir & Hat).
    rewrite Hat. cbn [bind].
    assert (Htile : tile (col, row) = index rw col).
    { unfold tile. simpl. rewrite Hir. reflexivity. }
    destruct (decide (index rw col = Some 1%Z)) as [E|E].
    { exists (inject_Z d). split; [reflexivity|]. right. apply Hhit.
      right. rewrite Hcell, Htile. exact E. }
    assert (Hclear : ~ ray_blocked c ang d).
    { unfold ray_blocked. rewrite Hcell, Htile. intros [Hout|Hw];
        [apply Hout; split; assumption|contradiction]. }
    destruct (IH (d + 5)%Z) as (r & Hrun & Hcase).
    exists r. split; [exact Hrun|].
    destruct Hcase as [[-> Hall]|(k & Hk' & -> & Hb & Hbefore)].
    + left. split; [reflexivity|]. intros [|j] Hj.
      * replace (d + 5 * Z.of_nat 0)%Z with d by lia. exact Hclear.
      * replace (d + 5 * Z.of_nat (S j))%Z with (d + 5 + 5 * Z.of_nat j)%Z
          by lia.
        apply Hall. lia.
    + right. exists (S k). split; [lia|].
      replace (d + 5 * Z.of_nat (S k))%Z with (d + 5 + 5 * Z.of_nat k)%Z
        by lia.
      split; [reflexivity|]. split; [exact Hb|]. intros [|j] Hj.
      * replace (d + 5 * Z.of_nat 0)%Z with d by lia. exact Hclear.
      * replace (d + 5 * Z.of_nat (S j))%Z with (d + 5 + 5 * Z.of_nat j)%Z
          by lia.
        apply Hbefore. lia.
Qed.

Lemma mutar_tensors_calls (rate : Q) (ts : list Tensor) :
  forall n ts' n',
    mutar_tensors rate ts n = Ok (ts', n') ->
    (n + foldr (fun t acc => (length (dataSync t) + acc)%nat) 0%nat ts
     <= n')%nat.
Proof.
  induction ts as [|t ts IH]; intros n ts' n'; cbn [mutar_tensors].
  - intros [= _ <-]. simpl. lia.
  - pose proof (mutar_vals_calls rate (dataSync t) n) as Hc.
    destruct (mutar_vals rate (dataSync t) n) as [vals n1]. simpl in Hc.
    destruct (tf_tensor vals (Some (shape t))) as [t'|]; [|discriminate].
    cbn [bind].
    destruct (mutar_tensors rate ts n1) as [[ts1 n2]|] eqn:E; [|discriminate].
    cbn [bind]. intros [= _ <-]. specialize (IH _ _ _ E). simpl. lia.
Qed.


(** ** Further properties of the car *)

(** X5: for every car the program has built, the collision counter stays
    within 0..3 and the idle counter within 0..301, a live car has at most
    2 collisions and 300 idle frames, the idle counter never exceeds the
    frames alive, and the best distance is never above the current one. *)
Theorem X5_counters_stay_in_bounds (c : Car) :
  Reached c ->
  (0 <= collisions c <= 3)%Z /\ (0 <= idleFrames c <= 301)%Z
  /\ (idleFrames c <= framesAlive c)%Z
  /\ (alive c = true -> (collisions c <= 2)%Z /\ (idleFrames c <= 300)%Z)
  /\ bestDist c <= distToFinish c.
Proof. intros Hc. exact (Reached_counters c Hc). Qed.

(** X6: [reset(x, y)] leaves a car the program has built in the state in
    which [new Car(x, y, brain)] builds one at that place, caches included,
    except that it keeps its own brain and its last sensor readings. *)
Theorem X6_reset_restores_the_spawn_state
    (x0 y0 : Q) (c : Car) (b : option Cerebro) (n : nat) (c0 : Car)
    (n' : nat) :
  Reached c -> new_Car x0 y0 b n = Ok (c0, n') ->
  reset x0 y0 c = Ok (tt, respawned c c0).
Proof.
  intros Hc Hnew. destruct (Reached_invariants c Hc) as (Hs & _).
  exact (reset_as_new x0 y0 c b n c0 n' Hs (Reached_sensors c Hc) Hnew).
Qed.

(** X7: the collision test of a car and the walkability test of the
    search agree: a car has collided exactly when the tile it stands on is
    not walkable, and neither test raises where the other does not. *)
Theorem X7_collided_means_not_walkable (c : Car) :
  _hasCollided c = let* w := _tileWalkable (cell_of c) in Ok (negb w).
Proof. exact (_hasCollided_walkable c). Qed.

(** X8: for a car the program has built, [_finishTiles] returns every
    position of the map holding the value 2 exactly once, stores the list
    in the car, and a second call returns the same list and changes
    nothing. *)
Theorem X8_finish_tiles_listed_once (c : Car) :
  Reached c ->
  exists ts c1,
    _finishTiles c = Ok (ts, c1)
    /\ NoDup ts /\ (forall p, p ∈ ts <-> finish_tile p)
    /\ c1 = set_finishCache (Some ts) c
    /\ _finishTiles c1 = Ok (ts, c1).
Proof.
  intros Hc. destruct (Reached_invariants c Hc) as (Hs & _).
  destruct (_finishTiles_spec c Hs) as (c1 & Hrun & Hc1 & Hagain).
  exists (finish_from 0 mapa), c1. split; [exact Hrun|].
  split; [apply finish_from_NoDup|]. split; [exact finish_from_mapa|].
  split; [exact Hc1|exact Hagain].
Qed.


(** X10: when the network outputs lie in [-1, 1] and [cos] and [sin] in
    [-1, 1], each component of the velocity of a car the program has built
    stays within 5.7 pixels per frame, and one tick moves the car by at
    most 5.7 pixels along each axis. *)
Theorem X10_speed_limit (c : Car) :
  bounded_world -> Reached c ->
  speed_ok c
  /\ forall c', update c = Ok (tt, c') ->
       - (57 # 10) <= x c' - x c <= 57 # 10
       /\ - (57 # 10) <= y c' - y c <= 57 # 10.
Proof.
  intros Hw Hc. pose proof (Reached_speed_ok c Hw Hc) as Hok.
  split; [exact Hok|]. intros c' Hu.
  pose proof (update_speed_ok c c' Hw Hu Hok) as [[Hx1 Hx2] [Hy1 Hy2]].
  destruct (alive c) eqn:Ha.
  - destruct (update_motion c c' Ha Hu) as (c1 & Hm & Hs).
    destruct (update_move_eq c c1 Hm)
      as (rot & thr & _ & _ & _ & _ & Hx & Hy & _).
    destruct Hs as (Hx' & Hy' & Hv & _).
    rewrite Hx', Hy', Hx, Hy, <- Hv. split; split; lra.
  - unfold update in Hu. rewrite Ha in Hu. injection Hu as <-.
    split; split; lra.
Qed.

(** X26: on tiles of a size other than zero, a sensor does not raise and
    returns the first of the sampled distances 0, 5, ..., 195 at which the
    point of the ray is outside the grid or on a wall tile, and 200 when
    none of the forty samples is. *)
Theorem X26_sensor_stops_at_first_blocked_sample (c : Car) (offset : Q) :
  tiles_sized ->
  exists r,
    _sensorReading c offset = Ok r
    /\ ((r = 200
         /\ forall j, (j < 40)%nat ->
              ~ ray_blocked c (angle c + offset) (5 * Z.of_nat j)%Z)
        \/ exists k, (k < 40)%nat
             /\ r = inject_Z (5 * Z.of_nat k)
             /\ ray_blocked c (angle c + offset) (5 * Z.of_nat k)%Z
             /\ forall j, (j < k)%nat ->
                  ~ ray_blocked c (angle c + offset) (5 * Z.of_nat j)%Z).
Proof.
  intros _. unfold _sensorReading.
  destruct (_sensorReading_from_hit c (angle c + offset) 40 0)
    as (r & Hrun & Hcase).
  exists r. split; [exact Hrun|]. exact Hcase.
Qed.

(** ** Further properties of the brain *)

(** X11: with a mutation rate of zero or less (the random source
    returning values of [0, 1)), [mutar] leaves every weight of a
    well-formed brain as it is, and draws one random number per weight. *)
Theorem X11_mutation_rate_zero (rate : Q) (b : Cerebro) (n : nat) :
  unit_tape -> rate <= 0 -> brain_ok b ->
  mutar rate b n = Ok (b, (n + weight_count b)%nat).
Proof.
  intros Ht Hr Hb. apply mutar_rate_0; [|exact Hb].
  intros k. destruct (Ht k) as [H0 _]. eapply Qle_trans; eassumption.
Qed.

(** X12: when every run of zeros of the random source is within the
    bound, so that the draws of [randn_bm] end, [mutar] does not raise on
    a well-formed brain, whatever the rate; it keeps the shape of every
    tensor and the number of its values, and draws at least one random
    number per weight. *)
Theorem X12_mutation_keeps_topology (rate : Q) (b : Cerebro) (n : nat) :
  gap_ok -> brain_ok b ->
  exists b' n',
    mutar rate b n = Ok (b', n')
    /\ List.map shape (getWeights (model b'))
       = List.map shape (getWeights (model b))
    /\ brain_ok b'
    /\ weight_count b' = weight_count b
    /\ (n + weight_count b <= n')%nat.
Proof.
  intros _ Hb.
  destruct (mutar_topology rate b n Hb) as (b' & n' & Hm & Hs & Hok).
  exists b', n'. split; [exact Hm|]. split; [exact Hs|].
  split; [exact Hok|].
  assert (Hcount : forall ts ts' : list Tensor,
            List.map shape ts' = List.map shape ts ->
            Forall tensor_ok ts -> Forall tensor_ok ts' ->
            foldr (fun t acc => (length (dataSync t) + acc)%nat) 0%nat ts'
            = foldr (fun t acc => (length (dataSync t) + acc)%nat) 0%nat ts).
  { induction ts as [|t ts IH]; intros [|t' ts'] Hsh H1 H2;
      try discriminate; [reflexivity|].
    injection Hsh as Ht Hts.
    inversion H1 as [|? ? Hk1 Hr1]; inversion H2 as [|? ? Hk2 Hr2]; subst.
    simpl. rewrite (IH ts' Hts Hr1 Hr2).
    unfold tensor_ok in Hk1, Hk2. congruence. }
  split; [exact (Hcount _ _ Hs Hb Hok)|].
  revert Hm. unfold mutar.
  destruct (mutar_tensors rate (getWeights (model b)) n) as [[ts n1]|] eqn:E;
    [|discriminate].
  cbn [bind]. destruct (setWeights (model b) ts); [|discriminate].
  cbn [bind]. intros [= _ <-].
  exact (mutar_tensors_calls _ _ _ _ _ E).
Qed.

(** X13: when [importarPesos] succeeds on data whose values are numbers
    a [float32] tensor stores as they are (as the values of every export
    are), exporting the brain gives back the imported values; the shapes
    are those the receiving model had, which are the shapes read from the
    data; and when the data lists a shape for every array of values the
    export is the data itself. *)
Theorem X13_import_then_export (b b' : Cerebro) (data : Pesos) :
  Forall (Forall float32) (values data) ->
  importarPesos b data = Ok b' ->
  values (exportarPesos b') = values data
  /\ shapes (exportarPesos b') = shapes (exportarPesos b)
  /\ shapes (exportarPesos b') = shapes_read data
  /\ brain_ok b'
  /\ (length (shapes data) = length (values data) ->
      exportarPesos b' = data).
Proof.
  intros _ Hi.
  destruct (importarPesos_inv b b' data Hi) as (Hv & Hr & Hs & Hok).
  split; [exact Hv|]. split; [exact Hs|]. split; [exact Hr|].
  split; [exact Hok|]. intros Hlen.
  rewrite (shapes_read_all data Hlen) in Hr.
  destruct (exportarPesos b') as [sh vs]. destruct data as [sh0 vs0].
  simpl in *. congruence.
Qed.

(** X14: when every run of zeros of the random source is within the
    bound, [randn_bm] skips the zeros, takes the first value that is not
    zero for [u] and the next one that is not zero for [v], and never
    takes the logarithm of zero. *)
Theorem X14_normal_draw_skips_zeros (n : nat) :
  gap_ok ->
  exists i j,
    (n <= i < j)%nat
    /\ randn_bm n
       = (Math_sqrt (-2.0 * Math_log (tape i)) * cos (2.0 * PI * tape j), S j)
    /\ ~ tape i == 0 /\ ~ tape j == 0
    /\ forall k, (n <= k < j)%nat -> k <> i -> tape k == 0.
Proof. intros Hg. exact (randn_bm_spec n Hg). Qed.

(** ** Further properties of the generation manager *)

(** X15: with tiles of positive size, [detectSpawnAndFinish] leaves the
    spawn point as it was when the map has no spawn tile; otherwise it sets
    it to the centre of the spawn tile met last by the scan, and every car
    built there stands on that tile and, the tile being within the grid,
    has not collided. *)
Theorem X15_spawn_point_is_on_the_last_spawn_tile (s : Sketch) :
  0 < tileSize ->
  let s' := detectSpawnAndFinish s in
  ((forall q, tile q <> Some 3%Z)
   /\ spawnPoint (engine s') = spawnPoint (engine s))
  \/ exists p,
       tile p = Some 3%Z
       /\ (forall q, tile q = Some 3%Z -> scanned_before q p)
       /\ spawnPoint (engine s') = centre p
       /\ cell_at (spawnPoint (engine s')) = p
       /\ forall b c,
            spawned (p5.x (spawnPoint (engine s')))
              (p5.y (spawnPoint (engine s'))) b c ->
            cell_of c = p
            /\ (in_grid p -> _hasCollided c = Ok false).
Proof.
  intros Hts. cbv zeta. rewrite detectSpawnAndFinish_eq.
  cbn [engine set_engine set_finishLine spawnPoint set_spawnPoint].
  destruct (last (scan_from 3 0 mapa)) as [p|] eqn:Hl.
  - right. exists p.
    assert (Hp : tile p = Some 3%Z).
    { apply scan_from_mapa, last_Some_elem_of, Hl. }
    split; [exact Hp|]. split.
    { intros q Hq. apply (scan_from_last 3 mapa 0 p q Hl).
      apply scan_from_mapa, Hq. }
    assert (Hsp : default (spawnPoint (engine s))
                    (last (List.map centre (scan_from 3 0 mapa)))
                  = centre p).
    { replace (last (List.map centre (scan_from 3 0 mapa)))
        with (centre <$> last (scan_from 3 0 mapa))
        by (symmetry; exact (fmap_last centre (scan_from 3 0 mapa))).
      rewrite Hl. reflexivity. }
    rewrite Hsp. split; [reflexivity|].
    split; [exact (cell_at_centre p Hts)|].
    intros b c Hc. destruct (spawned_spec _ _ _ _ Hc) as (_ & _ & Hx & Hy & _).
    assert (Hcell : cell_of c = p).
    { unfold cell_of. rewrite Hx, Hy. exact (cell_at_centre p Hts). }
    split; [exact Hcell|]. intros Hin.
    destruct (_hasCollided_spec c) as ([|] & Hh & Hiff); [|exact Hh].
    exfalso. destruct Hiff as [Hiff _]. rewrite Hcell in Hiff.
    destruct (Hiff eq_refl) as [Hout|Hw]; [contradiction|congruence].
  - left. apply last_None in Hl. split.
    + intros q Hq. apply scan_from_mapa in Hq. rewrite Hl in Hq.
      inversion Hq.
    + rewrite Hl. reflexivity.
Qed.

(** X16: [detectSpawnAndFinish] sets [finishLine.xEnd] to the column of
    the finish tile met last by the scan, and [finishLine.y] and
    [finishLine.xStart] to the first row and the first column of a finish
    tile that is not zero, a value already there and not zero being kept;
    so for a finish line whose first tile is in neither row 0 nor column
    0, [y] and [xStart] are the row and the column of that tile. *)
Theorem X16_finish_line_record (s : Sketch) :
  let tiles := finish_from 0 mapa in
  let fl := finishLine (detectSpawnAndFinish s) in
  FinishLine.y fl
  = first_nonzero (FinishLine.y (finishLine s) :: List.map snd tiles)
  /\ FinishLine.xStart fl
     = first_nonzero (FinishLine.xStart (finishLine s) :: List.map fst tiles)
  /\ FinishLine.xEnd fl
     = default (FinishLine.xEnd (finishLine s)) (last (List.map fst tiles))
  /\ (forall p rest,
        finishLine s = FinishLine.mk 0 0 0 -> tiles = p :: rest ->
        (p.2 <> 0%Z -> FinishLine.y fl = p.2)
        /\ (p.1 <> 0%Z -> FinishLine.xStart fl = p.1)
        /\ (p.1 = 0%Z -> FinishLine.xStart fl = first_nonzero (List.map fst rest))
        /\ exists q, last tiles = Some q /\ FinishLine.xEnd fl = q.1).
Proof.
  cbv zeta. rewrite detectSpawnAndFinish_eq.
  cbn [finishLine set_finishLine FinishLine.y FinishLine.xStart
       FinishLine.xEnd].
  split; [reflexivity|]. split; [reflexivity|]. split; [reflexivity|].
  intros p rest Hfl Ht. rewrite Hfl, Ht.
  cbn [FinishLine.y FinishLine.xStart FinishLine.xEnd List.map].
  rewrite !(first_nonzero_cons 0).
  destruct (decide (0 = 0)%Z) as [_|Hbad]; [|contradiction].
  rewrite !first_nonzero_cons.
  split; [intros Hp; destruct (decide _); [contradiction|reflexivity]|].
  split; [intros Hp; destruct (decide _); [contradiction|reflexivity]|].
  split; [intros Hp; destruct (decide _); [reflexivity|contradiction]|].
  destruct (last (p :: rest)) as [q|] eqn:Hl.
  - exists q. split; [reflexivity|].
    replace (last (p.1 :: List.map fst rest))
      with (fst <$> last (p :: rest))
      by (symmetry; exact (fmap_last fst (p :: rest))).
    rewrite Hl. reflexivity.
  - apply last_None in Hl. discriminate.
Qed.


(** X17: on tiles of a size other than zero and with a random source
    whose runs of zeros end within the bound, a frame of a running
    simulation does not raise and leaves it running: thirty cars the
    program has built, with brains of the fixed topology, the flag
    [transitioning] down and the frame counter within 0..3000; the best
    score ever and the count of finishers never decrease, the generation
    number stays or grows by one, and the spawn point and the stored brain
    are not touched. *)
Theorem X17_frame_keeps_the_simulation_running (e : Engine) :
  tiles_sized -> gap_ok -> running e ->
  exists e',
    draw e = Ok e' /\ running e'
    /\ bestScoreEver e <= bestScoreEver e'
    /\ (generation e' = generation e \/ generation e' = (generation e + 1)%Z)
    /\ (totalFinished e <= totalFinished e')%Z
    /\ spawnPoint e' = spawnPoint e /\ localStorage e' = localStorage e.
Proof. intros _ _ He. exact (running_draw e He). Qed.



(** X20: [salvarCerebro] does nothing on an empty population; otherwise
    it leaves the population ranked by fitness, a permutation of what it
    was, and stores the weights of the car at the head of the ranking,
    which no car of the population outranks. *)
Theorem X20_save_stores_the_fittest (s : Sketch) :
  (population (engine s) = [] -> salvarCerebro s = Ok s)
  /\ (population (engine s) <> [] ->
      exists best rest,
        best :: rest ≡ₚ population (engine s)
        /\ best :: rest = Array_sort by_fitness (population (engine s))
        /\ (forall c, c ∈ population (engine s) ->
                      calcularFitness c <= calcularFitness best)
        /\ salvarCerebro s
           = Ok (showToast BrainSaved
                   (set_engine
                      (set_localStorage (Some (exportarPesos (brain best)))
                         (set_population (best :: rest) (engine s))) s))).
Proof.
  split; [apply salvarCerebro_empty|]. intros Hne.
  destruct (salvarCerebro_spec s Hne) as (best & rest & Hs & _ & Hmax & Hrun).
  exists best, rest. split; [rewrite <- Hs; apply Array_sort_perm|].
  split; [symmetry; exact Hs|]. split; [exact Hmax|exact Hrun].
Qed.





(** X25: a key that is not one of [s S l L r R + = - _] changes nothing;
    [+] and [=] double the frame rate up to 240, [-] and [_] halve it down
    to 5, and neither touches the engine; from a frame rate between 5 and
    120, [+] followed by [-] gives the frame rate back. *)
Theorem X25_speed_keys_and_unbound_keys (key : string) (s : Sketch) :
  (key ∉ bound_keys -> keyPressed key s = Ok s)
  /\ (key = "+"%string \/ key = "="%string ->
      keyPressed key s
      = Ok (showToast (Speed (Qmin (currentFPS s * 2) 240))
              (set_currentFPS (Qmin (currentFPS s * 2) 240) s)))
  /\ (key = "-"%string \/ key = "_"%string ->
      keyPressed key s
      = Ok (showToast (Speed (Qmax (currentFPS s / 2) 5))
              (set_currentFPS (Qmax (currentFPS s / 2) 5) s)))
  /\ (5 <= currentFPS s <= 120 ->
      exists s1 s2,
        keyPressed "+" s = Ok s1 /\ keyPressed "-" s1 = Ok s2
        /\ currentFPS s1 == currentFPS s * 2
        /\ currentFPS s2 == currentFPS s /\ engine s2 = engine s).
Proof.
  split; [apply keyPressed_other|].
  destruct (keyPressed_speed key s) as (f & Hup & Hdown).
  split; [intros Hk; destruct (Hup Hk) as [Hrun ->]; exact Hrun|].
  split; [exact Hdown|].
  intros [Hlo Hhi]. eexists _, _. split; [reflexivity|].
  split; [reflexivity|].
  cbn [currentFPS set_currentFPS showToast set_toast engine].
  assert (E1 : Qmin (currentFPS s * 2) 240 == currentFPS s * 2).
  { destruct (Q.min_spec (currentFPS s * 2) 240) as [[H E]|[H E]];
      rewrite E; lra. }
  split; [exact E1|]. split; [|reflexivity].
  assert (E2 : Qmin (currentFPS s * 2) 240 / 2 == currentFPS s).
  { rewrite E1. field. }
  destruct (Q.max_spec (Qmin (currentFPS s * 2) 240 / 2) 5) as [[H E]|[H E]];
    rewrite E; rewrite ?E2 in *; lra.
Qed.


(** ** The distance cache answers what it was told *)

Lemma JsMap_get_set {V} (k : Pos) (v : V) (m : list (Pos * V)) :
  JsMap.get k (JsMap.set k v m) = Some v.
Proof.
  induction m as [|[k' v'] m IH]; simpl.
  - destruct (decide (k = k)); [reflexivity|contradiction].
  - destruct (decide (k = k')) as [E|E]; simpl.
    + destruct (decide (k = k)); [reflexivity|contradiction].
    + destruct (decide (k = k')); [contradiction|exact IH].
Qed.

Lemma JsMap_get_delete_ne {V} (k k0 : Pos) (m : list (Pos * V)) :
  k0 <> k -> JsMap.get k (JsMap.delete k0 m) = JsMap.get k m.
Proof.
  intros Hne. induction m as [|[k' v'] m IH]; simpl; [reflexivity|].
  destruct (decide (k0 = k')) as [E|E]; simpl.
  - subst k'. destruct (decide (k = k0)); [congruence|reflexivity].
  - destruct (decide (k = k')); [reflexivity|exact IH].
Qed.

Lemma JsMap_first_key_miss {V} (k k0 : Pos) (v : V) (m : list (Pos * V)) :
  JsMap.get k m = None -> m <> [] ->
  JsMap.first_key (JsMap.set k v m) = Some k0 -> k0 <> k.
Proof.
  intros Hget Hne. destruct m as [|[k' v'] m]; [contradiction|].
  simpl in *. destruct (decide (k = k')) as [E|E]; [discriminate|].
  simpl. intros [= <-]. congruence.
Qed.

Lemma _bfsDistanceToFinish_again (c : Car) :
  exists d c',
    _bfsDistanceToFinish c = Ok (d, c')
    /\ _bfsDistanceToFinish c' = Ok (d, c')
    /\ caches_only c c'.
Proof.
  unfold _bfsDistanceToFinish at 1.
  destruct (JsMap.get (cell_of c) (_distanceCache c)) as [v|] eqn:Hget.
  { exists v, c. split; [reflexivity|]. split; [|apply caches_only_refl].
    unfold _bfsDistanceToFinish. rewrite Hget. reflexivity. }
  set (ts := match _finishCache c with
             | Some ts => ts
             | None => finish_from 0 mapa
             end).
  set (c1 := set_finishCache (Some ts) c).
  assert (Hft : _finishTiles c = Ok (ts, c1) \/ _finishTiles c = Ok (ts, c)
                /\ _finishCache c = Some ts).
  { unfold _finishTiles, ts, c1. destruct (_finishCache c) eqn:E.
    - right. auto.
    - left. reflexivity. }
  assert (Hc1 : exists c2, _finishTiles c = Ok (ts, c2)
                  /\ _finishCache c2 = Some ts
                  /\ _distanceCache c2 = _distanceCache c
                  /\ cell_of c2 = cell_of c /\ caches_only c c2).
  { destruct Hft as [H|[H E]].
    - exists c1. split; [exact H|]. repeat split.
      apply caches_only_set_finishCache.
    - exists c. split; [exact H|]. split; [exact E|].
      repeat split. apply caches_only_refl. }
  destruct Hc1 as (c2 & Hrun & Hfc & Hdc & Hcell & Hco).
  rewrite Hrun. cbn [bind].
  assert (Hft2 : forall c3, _finishCache c3 = Some ts ->
            _finishTiles c3 = Ok (ts, c3)).
  { intros c3 E. unfold _finishTiles. rewrite E. reflexivity. }
  destruct (decide _) as [Hempty|Hsome].
  { exists 9999, c2. split; [reflexivity|]. split; [|exact Hco].
    unfold _bfsDistanceToFinish. rewrite Hcell, Hdc, Hget, (Hft2 c2 Hfc).
    cbn [bind]. destruct (decide _); [reflexivity|contradiction]. }
  destruct (_bfs_spec (cell_of c) ts) as (d & Hd & _). rewrite Hd.
  cbn [bind]. rewrite Hdc.
  set (cache := JsMap.set (cell_of c) d (_distanceCache c)).
  set (cache' := if (JsMap.size cache >? 100)%Z
                 then match JsMap.first_key cache with
                      | Some first => JsMap.delete first cache
                      | None => cache
                      end
                 else cache).
  exists d, (set_distanceCache cache' c2). split; [reflexivity|].
  split; [|apply caches_only_set_distanceCache, Hco].
  assert (Hhit : JsMap.get (cell_of c) cache' = Some d).
  { unfold cache'. destruct (JsMap.size cache >? 100)%Z eqn:Hsz;
      [|apply JsMap_get_set].
    destruct (JsMap.first_key cache) as [k0|] eqn:Hk; [|apply JsMap_get_set].
    rewrite JsMap_get_delete_ne; [apply JsMap_get_set|].
    apply (JsMap_first_key_miss (cell_of c) k0 d (_distanceCache c) Hget);
      [|exact Hk].
    intros E. unfold cache in Hsz. rewrite E in Hsz. discriminate. }
  unfold _bfsDistanceToFinish.
  change (cell_of (set_distanceCache cache' c2)) with (cell_of c2).
  rewrite Hcell. cbn [_distanceCache set_distanceCache]. rewrite Hhit.
  reflexivity.
Qed.

(** ** The leader is the first of the best *)

Lemma first_leader_snoc (seen : list Car) ls ld (c : Car) :
  leader_of seen ls ld -> first_leader seen ld ->
  first_leader (seen ++ [c])
    (if alive c then
       if match ls with None => true | Some l => Qltb l (score c) end
       then Some c else ld
     else ld).
Proof.
  unfold leader_of, first_leader. intros Hl Hf.
  assert (Hkeep : forall l,
            ld = Some l -> (alive c = true -> score c <= score l) ->
            exists i : nat,
              (seen ++ [c]) !! i = Some l /\ alive l = true
              /\ (forall j c0, (seen ++ [c]) !! j = Some c0 ->
                               alive c0 = true -> score c0 <= score l)
              /\ (forall j c0, (j < i)%nat -> (seen ++ [c]) !! j = Some c0 ->
                               alive c0 = true -> score c0 < score l)).
  { intros l -> Hc. destruct Hf as (i & Hi & Hal & Hbest & Hbefore).
    exists i. pose proof (lookup_lt_Some _ _ _ Hi) as Hlt.
    split; [rewrite lookup_app_l; assumption|]. split; [exact Hal|]. split.
    - intros j c0 Hj Ha0.
      destruct (Nat.lt_ge_cases j (length seen)) as [Hjl|Hjl].
      + rewrite lookup_app_l in Hj by exact Hjl. exact (Hbest j c0 Hj Ha0).
      + rewrite lookup_app_r in Hj by exact Hjl.
        apply list_lookup_singleton_Some in Hj as [_ <-]. exact (Hc Ha0).
    - intros j c0 Hji Hj Ha0.
      rewrite lookup_app_l in Hj by lia. exact (Hbefore j c0 Hji Hj Ha0). }
  destruct (alive c) eqn:Ha.
  - destruct ld as [l|].
    + destruct Hl as (_ & _ & -> & _).
      destruct (Qltb (score l) (score c)) eqn:E.
      * apply Qltb_lt in E.
        destruct Hf as (i & Hi & Hal & Hbest & Hbefore).
        exists (length seen). split.
        { rewrite lookup_app_r by lia. rewrite Nat.sub_diag. reflexivity. }
        split; [exact Ha|]. split.
        -- intros j c0 Hj Ha0.
           destruct (Nat.lt_ge_cases j (length seen)) as [Hjl|Hjl].
           ++ rewrite lookup_app_l in Hj by exact Hjl.
              pose proof (Hbest j c0 Hj Ha0). lra.
           ++ rewrite lookup_app_r in Hj by exact Hjl.
              apply list_lookup_singleton_Some in Hj as [_ <-].
              apply Qle_refl.
        -- intros j c0 Hjl Hj Ha0.
           rewrite lookup_app_l in Hj by exact Hjl.
           pose proof (Hbest j c0 Hj Ha0). lra.
      * apply (Hkeep l eq_refl). intros _. apply Qltb_ge, E.
    + destruct Hl as (-> & Hdead). exists (length seen). split.
      { rewrite lookup_app_r by lia. rewrite Nat.sub_diag. reflexivity. }
      split; [exact Ha|]. rewrite Forall_forall in Hdead. split.
      * intros j c0 Hj Ha0.
        destruct (Nat.lt_ge_cases j (length seen)) as [Hjl|Hjl].
        -- rewrite lookup_app_l in Hj by exact Hjl.
           apply list_elem_of_lookup_2 in Hj. rewrite (Hdead c0 Hj) in Ha0.
           discriminate.
        -- rewrite lookup_app_r in Hj by exact Hjl.
           apply list_lookup_singleton_Some in Hj as [_ <-]. apply Qle_refl.
      * intros j c0 Hjl Hj Ha0. rewrite lookup_app_l in Hj by exact Hjl.
        apply list_elem_of_lookup_2 in Hj. rewrite (Hdead c0 Hj) in Ha0.
        discriminate.
  - destruct ld as [l|].
    + apply (Hkeep l eq_refl). discriminate.
    + apply Forall_app. split; [exact Hf|]. repeat constructor. exact Ha.
Qed.

Lemma draw_update_first (cars : list Car) :
  forall (seen : list Car) (n : Z) ls ld,
    leader_of seen ls ld -> first_leader seen ld ->
    exists cars' n' ls' ld',
      draw_update cars n ls ld = Ok (cars', n', ls', ld')
      /\ first_leader (seen ++ cars') ld'.
Proof.
  induction cars as [|c cars IH]; intros seen n ls ld Hl Hf;
    cbn [draw_update].
  - exists [], n, ls, ld. rewrite app_nil_r. split; [reflexivity|exact Hf].
  - destruct (update_total c) as (c' & Hu). rewrite Hu. cbn [bind].
    pose proof (leader_of_snoc seen ls ld c' Hl) as Hl'.
    pose proof (first_leader_snoc seen ls ld c' Hl Hf) as Hf'.
    assert (Hstep : forall n1 ls1 ld1,
              leader_of (seen ++ [c']) ls1 ld1 ->
              first_leader (seen ++ [c']) ld1 ->
              exists cars' n' ls' ld',
                (let* (cars', aliveCount, leaderScore, leader) :=
                   draw_update cars n1 ls1 ld1 in
                 Ok (c' :: cars', aliveCount, leaderScore, leader))
                = Ok (cars', n', ls', ld')
                /\ first_leader (seen ++ cars') ld').
    { intros n1 ls1 ld1 Hl1 Hf1.
      destruct (IH (seen ++ [c']) n1 ls1 ld1 Hl1 Hf1)
        as (cars' & n' & ls' & ld' & Hrun & Hlead).
      rewrite Hrun. cbn [bind]. rewrite <- app_assoc in Hlead.
      eexists _, _, _, _. split; [reflexivity|exact Hlead]. }
    destruct (alive c') eqn:Ha.
    + destruct (match ls with None => true | Some l => Qltb l (score c') end)
        eqn:Hc.
      * apply Hstep; [exact Hl'|exact Hf'].
      * apply Hstep; [exact Hl'|exact Hf'].
    + apply Hstep; [exact Hl'|exact Hf'].
Qed.

(** ** The motion of one tick *)

Lemma _sensorReading_from_same (c c' : Car) (ang : Q) (n : nat) :
  x c' = x c -> y c' = y c ->
  forall d, _sensorReading_from c' ang n d = _sensorReading_from c ang n d.
Proof.
  intros Hx Hy. induction n as [|n IH]; intros d; [reflexivity|].
  cbn [_sensorReading_from]. rewrite Hx, Hy.
  destruct (outside _ _) as [[|]|]; cbn [bind]; try reflexivity.
  destruct (mapa_at _ _) as [t|]; cbn [bind]; [|reflexivity].
  destruct (decide _); [reflexivity|apply IH].
Qed.

Lemma mapM_ext {A B} (f g : A -> Result B) (l : list A) :
  (forall a, f a = g a) -> mapM f l = mapM g l.
Proof.
  intros H. induction l as [|a l IH]; [reflexivity|].
  cbn [mapM]. rewrite H, IH. reflexivity.
Qed.

(** X27: a tick of a live car, whatever happens to its score: the sensors
    are read at the position and heading the car has when the tick starts
    and the network is fed these readings; the heading turns by a tenth of
    the first output, the velocity gains 0.3 times the second output along
    the new heading and loses 5 percent, and the car moves by that
    velocity; [lastPosition] takes the position before the move, so that
    [distanceTravelled] has grown by the previous move, not by this one;
    [framesAlive] grows by one. *)
Theorem X27_motion_of_a_tick (c c' : Car) :
  alive c = true -> update c = Ok (tt, c') ->
  exists rot throttle,
    mapM (_sensorReading c) (sensors c) = Ok (readings c')
    /\ pensar (brain c) (inputs_of (readings c')) = (rot, throttle)
    /\ angle c' = angle c + rot * 0.1
    /\ vel c'
       = p5.mult
           (p5.add (vel c) (p5.mult (fromAngle (angle c')) (throttle * 0.3)))
           0.95
    /\ x c' = x c + p5.x (vel c') /\ y c' = y c + p5.y (vel c')
    /\ lastPosition c' = p5.createVector (x c) (y c)
    /\ distanceTravelled c'
       = distanceTravelled c
         + dist (x c) (y c) (p5.x (lastPosition c)) (p5.y (lastPosition c))
    /\ framesAlive c' = (framesAlive c + 1)%Z
    /\ brain c' = brain c /\ sensors c' = sensors c.
Proof.
  intros Ha Hu. destruct (update_motion c c' Ha Hu) as (c1 & Hm & Hs).
  destruct (update_move_eq c c1 Hm)
    as (rot & thr & Hp & Hr & Han & Hv & Hx & Hy & Hlp & Hdt & Hfa & Hb & Hse).
  destruct Hs as (Hx' & Hy' & Hv' & Ha' & Hf' & Hb' & Hs' & Hr' & Hd' & Hl').
  exists rot, thr. rewrite Hr', Ha', Hv', Hx', Hy', Hl', Hd', Hf', Hb', Hs'.
  split.
  { rewrite <- Hr. apply mapM_ext. intros o. unfold _sensorReading.
    symmetry. apply _sensorReading_from_same; reflexivity. }
  repeat split; assumption.
Qed.

(** X28: the distance query never raises, and asking again gives the same
    answer and changes nothing: once a tile has been searched from, the
    answer comes from the cache, also when storing it evicted the oldest
    entry. *)
Theorem X28_distance_query_is_idempotent (c : Car) :
  exists d c',
    _bfsDistanceToFinish c = Ok (d, c')
    /\ _bfsDistanceToFinish c' = Ok (d, c')
    /\ caches_only c c'.
Proof. exact (_bfsDistanceToFinish_again c). Qed.

(** X29: on tiles of a size other than zero and for a population of cars
    with nine sensors and brains of the fixed topology, the first loop of a
    frame does not raise, and the leader it finds is the first car, in the
    order of the population, among the cars that are alive after their
    update and have the best score of these: a later car of equal score
    does not take the lead. *)
Theorem X29_leader_is_the_first_of_the_best (e : Engine) :
  tiles_sized -> Forall drivable (population e) ->
  exists e1 n ls ld,
    draw_tick e = Ok (e1, n, ls, ld)
    /\ match ld with
       | None => Forall (fun c => alive c = false) (population e1)
       | Some l =>
           exists i : nat,
             population e1 !! i = Some l /\ alive l = true
             /\ (forall j c, population e1 !! j = Some c ->
                             alive c = true -> score c <= score l)
             /\ (forall j c, (j < i)%nat -> population e1 !! j = Some c ->
                             alive c = true -> score c < score l)
       end.
Proof.
  intros _ _. unfold draw_tick.
  destruct (draw_update_first (population e) [] 0%Z None None)
    as (cars & n & ls & ld & Hrun & Hf).
  - split; [reflexivity|constructor].
  - constructor.
  - rewrite Hrun. cbn [bind]. simpl in Hf.
    eexists _, n, ls, ld. split; [reflexivity|].
    destruct ls as [l|]; [destruct (Qltb _ l)|]; exact Hf.
Qed.


(** ** The HUD *)

Lemma count_alive_bounds (cars : list Car) :
  (0 <= count_alive cars <= len cars)%Z.
Proof.
  unfold count_alive, len. pose proof (length_filter (fun c => alive c = true) cars).
  lia.
Qed.

Lemma leader_of_count (cars : list Car) ls ld :
  leader_of cars ls ld -> (ls = None <-> count_alive cars = 0%Z).
Proof.
  unfold leader_of, count_alive, len. destruct ld as [l|].
  - intros (Hin & Hal & -> & _). split; [discriminate|].
    intros H0. exfalso.
    assert (Hl : l ∈ filter (fun c => alive c = true) cars)
      by (apply list_elem_of_filter; auto).
    destruct (filter (fun c => alive c = true) cars); [inversion Hl|].
    simpl in H0. lia.
  - intros (-> & Hdead). split; [|reflexivity]. intros _.
    assert (E : filter (fun c => alive c = true) cars = []).
    { induction Hdead as [|c cars Hc _ IH]; [reflexivity|].
      rewrite filter_cons. destruct (decide (alive c = true)); [congruence|].
      exact IH. }
    rewrite E. reflexivity.
Qed.

(** X30: on a population that is not empty, the HUD of a frame shows the
    number of cars alive after their update, between 0 and the number of
    cars, a bar of 100 times their ratio, between 0 and 100 percent, and
    the frame counter after its increment; it shows the dash for the
    leader exactly when no car is alive, and otherwise a leader score that
    is never above the best score ever shown beside it. *)
Theorem X30_hud_of_a_frame (s : Sketch) :
  population (engine s) <> [] ->
  exists h,
    draw_hud s = Ok h
    /\ hud_total h = len (population (engine s))
    /\ (0 <= hud_alive h <= hud_total h)%Z
    /\ (exists b, hud_bar h = Some b /\ 0 <= b <= 100
                  /\ b == 100 * inject_Z (hud_alive h) / inject_Z (hud_total h))
    /\ hud_time h = (frameCount_ (engine s) + 1)%Z
    /\ hud_gen h = generation (engine s)
    /\ hud_fps h = currentFPS s
    /\ (hud_leader h = None <-> hud_alive h = 0%Z)
    /\ (forall l, hud_leader h = Some l -> (l <= hud_best_ever h)%Z)
    /\ (p5.floor (bestScoreEver (engine s)) <= hud_best_ever h)%Z.
Proof.
  intros Hne. unfold draw_hud.
  destruct (draw_tick_spec (engine s))
    as (cars & n & ls & ld & e1 & Hrun & Hall & Hn & Hl & Hpop & Hfc & Hgen
        & _ & Hbest).
  rewrite Hrun. cbn [bind]. eexists. split; [reflexivity|].
  unfold updateHUD.
  cbn [engine set_engine hud_total hud_alive hud_bar hud_time hud_gen hud_fps
       hud_leader hud_best_ever currentFPS].
  rewrite Hpop.
  assert (Hlen : len cars = len (population (engine s))).
  { unfold len. rewrite (Forall2_length _ _ _ Hall). reflexivity. }
  assert (Hpos : (0 < len cars)%Z).
  { rewrite Hlen. unfold len. destruct (population (engine s));
      [contradiction|simpl; lia]. }
  pose proof (count_alive_bounds cars) as Hb. rewrite <- Hn in Hb.
  split; [exact Hlen|]. split; [exact Hb|]. split.
  { destruct (decide (len cars = 0%Z)) as [E|_]; [lia|].
    eexists. split; [reflexivity|].
    assert (Hq : 0 < inject_Z (len cars)).
    { change 0 with (inject_Z 0). rewrite <- Zlt_Qlt. exact Hpos. }
    assert (Hn0 : 0 <= inject_Z n).
    { change 0 with (inject_Z 0). rewrite <- Zle_Qle. lia. }
    assert (Hn1 : inject_Z n <= inject_Z (len cars)).
    { rewrite <- Zle_Qle. lia. }
    assert (Hr0 : 0 <= inject_Z n / inject_Z (len cars)).
    { apply Qle_shift_div_l; [exact Hq|]. lra. }
    assert (Hr1 : inject_Z n / inject_Z (len cars) <= 1).
    { apply Qle_shift_div_r; [exact Hq|]. lra. }
    split; [split; lra|]. field. lra. }
  split; [exact Hfc|]. split; [exact Hgen|]. split; [reflexivity|].
  pose proof (leader_of_count cars ls ld Hl) as Hcount. rewrite <- Hn in Hcount.
  split.
  { rewrite <- Hcount. destruct ls; split; intros; congruence. }
  split.
  { intros l Hls. destruct ls as [q|]; [|discriminate]. injection Hls as <-.
    apply Qfloor_resp_le. rewrite Hbest.
    destruct (Qltb (bestScoreEver (engine s)) q) eqn:E; [apply Qle_refl|].
    apply Qltb_ge, E. }
  apply Qfloor_resp_le. rewrite Hbest. destruct ls as [q|]; [|apply Qle_refl].
  destruct (Qltb (bestScoreEver (engine s)) q) eqn:E; [|apply Qle_refl].
  apply Qltb_lt in E. apply Qlt_le_weak, E.
Qed.


End Simulation.


(** * The properties on examples *)

(** ** C1: what a clear ray and a wall at distance zero are fed as *)

(** C1 (as the code has it): on the open map every ray of a car at its
    centre is clear, the raw distances are all 200 and the network is fed
    [0] for each; for a car outside the grid every ray stops at distance
    zero and the network is fed [1] for each.  The comment beside the
    normalisation, the header of brain.js and the README say the opposite
    (1 = clear, 0 = wall). *)
Theorem C1_clear_ray_is_fed_as_zero :
  mapM (_sensorReading open_mapa 1000 demo_cos demo_sin
          (set_y 500 (set_x 500 still_car)))
       (sensor_angles demo_PI)
  = Ok (replicate 9 200)
  /\ Forall (fun i => i == 0) (inputs_of (replicate 9 200))
  /\ mapM (_sensorReading open_mapa 1000 demo_cos demo_sin
             (set_y (-5) (set_x (-5) still_car)))
          (sensor_angles demo_PI)
     = Ok (replicate 9 0)
  /\ Forall (fun i => i == 1) (inputs_of (replicate 9 0)).
Proof.
  split; [vm_compute; reflexivity|].
  split; [repeat constructor|].
  split; [vm_compute; reflexivity|].
  repeat constructor.
Qed.

(** ** The model on small inputs *)

Example track_finish_tiles : finish_from 0 track_mapa = [(3, 1)%Z].
Proof. reflexivity. Qed.

(** Two steps from the spawn tile to the finish tile, tiles of 20 pixels. *)
Example track_distance_from_spawn :
  _bfs track_mapa 20 (1, 1)%Z (finish_from 0 track_mapa)
  = Ok (inject_Z 2 * 20).
Proof. vm_compute. reflexivity. Qed.

Example walled_distance_from_spawn :
  _bfs walled_mapa 20 (0, 0)%Z (finish_from 0 walled_mapa) = Ok 9999.
Proof. vm_compute. reflexivity. Qed.

(** From the centre of the spawn tile, looking east, the wall is met at the
    sample taken 50 pixels away. *)
Example track_ray_east :
  _sensorReading track_mapa 20 demo_cos demo_sin
    (set_y 30 (set_x 30 still_car)) 0
  = Ok 50.
Proof. vm_compute. reflexivity. Qed.

(** A car placed on the finish tile finishes on its first tick: it is
    halted with 2000 points. *)
Example track_spawn_on_finish :
  exists c c',
    new_Car track_mapa 20 demo_PI demo_fresh_model 70 30 (Some zero_brain) 0
    = Ok (c, 0%nat)
    /\ update track_mapa 20 demo_sqrt demo_cos demo_sin demo_predict c
       = Ok (tt, c')
    /\ finished c' = true /\ alive c' = false /\ score c' == 2000.
Proof.
  eexists _, _. split; [vm_compute; reflexivity|].
  split; [vm_compute; reflexivity|].
  repeat split.
Qed.

(** The ranking of the three test cars: the finished car first, then the
    parked car (close to the finish), then the car at rest (far from it). *)
Example ranking_of_test_cars :
  List.map score (Array_sort by_fitness (population last_frame_engine))
  = [2040; 12; 0].
Proof. vm_compute. reflexivity. Qed.

(** The first generation bred from two elites: thirty live cars at the
    spawn point, the frame counter at zero. *)
Example first_generation :
  exists e,
    newGeneration track_mapa 20 demo_sqrt demo_cos demo_PI demo_tape demo_gap
      demo_log demo_fresh_model seed_engine = Ok e
    /\ length (population e) = 30%nat
    /\ forallb alive (population e) = true
    /\ frameCount_ e = 0%Z /\ generation e = 1%Z.
Proof.
  eexists. split; [vm_compute; reflexivity|].
  repeat split.
Qed.

(** ** Witnesses *)

Lemma C9_witness :
  alive parked_car = false
  /\ update track_mapa 20 demo_sqrt demo_cos demo_sin demo_predict parked_car
     = Ok (tt, parked_car).
Proof.
  split; [reflexivity|].
  apply C9_update_dead_is_identity. reflexivity.
Defined.

Lemma C7_witness :
  topology_9_5_2 other_brain /\ topology_9_5_2 zero_brain
  /\ exists r, importarPesos zero_brain (exportarPesos other_brain) = Ok r
               /\ List.map dataSync (getWeights (model r))
                  = List.map dataSync (getWeights (model other_brain))
               /\ List.map shape (getWeights (model r))
                  = List.map shape (getWeights (model zero_brain))
               /\ r = other_brain.
Proof.
  assert (Hp : topology_9_5_2 other_brain)
    by (split; [reflexivity|repeat constructor]).
  assert (Hq : topology_9_5_2 zero_brain)
    by (split; [reflexivity|repeat constructor]).
  split; [exact Hp|]. split; [exact Hq|].
  exact (C7_import_export_roundtrip other_brain zero_brain Hp Hq).
Defined.

Lemma open_world_is_restful : restful_world open_mapa demo_sqrt idle_predict.
Proof.
  split; [reflexivity|]. split.
  { intros q Hq. unfold demo_sqrt. apply Qle_bool_iff in Hq. rewrite Hq.
    reflexivity. }
  split.
  { intros p Hp. apply finish_from_mapa in Hp. inversion Hp. }
  split; [|discriminate].
  unfold in_grid, len. simpl. lia.
Qed.

Lemma still_car_at_rest : at_rest still_car.
Proof. repeat split; reflexivity. Qed.

Lemma C3_witness :
  (0 <= idleFrames still_car)%Z
  /\ (forall i, (i <= 300)%nat ->
        exists ci,
          ticks open_mapa 1000 demo_sqrt demo_cos demo_sin idle_predict i
            still_car = Ok ci
          /\ alive ci = true)
  /\ (forall i, (1 <= i <= 301)%nat ->
        exists ci,
          ticks open_mapa 1000 demo_sqrt demo_cos demo_sin idle_predict i
            still_car = Ok ci
          /\ mag demo_sqrt (vel ci) < 0.1)
  /\ exists c300 c301,
      ticks open_mapa 1000 demo_sqrt demo_cos demo_sin idle_predict 300
        still_car = Ok c300
      /\ update open_mapa 1000 demo_sqrt demo_cos demo_sin idle_predict c300
         = Ok (tt, c301)
      /\ idleFrames c301 = 301%Z /\ (idleFrames c301 > 300)%Z
      /\ alive c301 = false
      /\ score c301 = score c300 - 100
      /\ accumulatedSpeed c301 = accumulatedSpeed c300
      /\ distToFinish c301 = distToFinish c300
      /\ bestDist c301 = bestDist c300
      /\ finished c301 = finished c300
      /\ collisions c301 = collisions c300
      /\ _distanceCache c301 = _distanceCache c300.
Proof.
  assert (H1 : (0 <= idleFrames still_car)%Z) by (simpl; lia).
  destruct (rest_run open_mapa 1000 demo_sqrt demo_cos demo_sin demo_PI
              idle_predict demo_tape demo_gap demo_log demo_fresh_model
              still_car open_world_is_restful still_car_at_rest eq_refl)
    as [H2 H3].
  split; [exact H1|]. split; [exact H2|]. split; [exact H3|].
  exact (C3_idle_death_on_tick_301 open_mapa 1000 demo_sqrt demo_cos demo_sin
           demo_PI idle_predict demo_tape demo_gap demo_log demo_fresh_model
           still_car H1 H2 H3).
Defined.

Lemma C4_witness :
  exists c1 c2 c3,
    alive lost_car = true /\ collisions lost_car = 0%Z
    /\ update track_mapa 20 demo_sqrt east_cos east_sin demo_predict
         lost_car = Ok (tt, c1)
    /\ update track_mapa 20 demo_sqrt east_cos east_sin demo_predict c1
       = Ok (tt, c2)
    /\ update track_mapa 20 demo_sqrt east_cos east_sin demo_predict c2
       = Ok (tt, c3)
    /\ (idleFrames c1 <= 300)%Z /\ (idleFrames c2 <= 300)%Z
    /\ (idleFrames c3 <= 300)%Z
    /\ off_road track_mapa 20 c1 /\ off_road track_mapa 20 c2
    /\ off_road track_mapa 20 c3
    /\ score c1 == score lost_car + accrued demo_sqrt lost_car c1 - 40
    /\ score c2 == score c1 + accrued demo_sqrt c1 c2 - 80
    /\ score c3 == score c2 + accrued demo_sqrt c2 c3 - 120
    /\ score c3
       == score lost_car
          + (accrued demo_sqrt lost_car c1 + accrued demo_sqrt c1 c2
             + accrued demo_sqrt c2 c3) - 240
    /\ collisions c1 = 1%Z /\ collisions c2 = 2%Z /\ collisions c3 = 3%Z
    /\ alive c1 = true /\ alive c2 = true /\ alive c3 = false.
Proof.
  assert (Hrun : exists c1 c2 c3,
    update track_mapa 20 demo_sqrt east_cos east_sin demo_predict
      lost_car = Ok (tt, c1)
    /\ update track_mapa 20 demo_sqrt east_cos east_sin demo_predict c1
       = Ok (tt, c2)
    /\ update track_mapa 20 demo_sqrt east_cos east_sin demo_predict c2
       = Ok (tt, c3)
    /\ (idleFrames c1 <=? 300)%Z = true /\ (idleFrames c2 <=? 300)%Z = true
    /\ (idleFrames c3 <=? 300)%Z = true
    /\ cell_of 20 c1 = (-1, -1)%Z /\ cell_of 20 c2 = (-1, -1)%Z
    /\ cell_of 20 c3 = (-1, -1)%Z).
  { eexists _, _, _.
    split; [vm_compute; reflexivity|].
    split; [vm_compute; reflexivity|].
    split; [vm_compute; reflexivity|].
    repeat split; vm_compute; reflexivity. }
  destruct Hrun as (c1 & c2 & c3 & Hu1 & Hu2 & Hu3 & Hi1 & Hi2 & Hi3
                    & Hc1 & Hc2 & Hc3).
  apply Z.leb_le in Hi1, Hi2, Hi3.
  assert (Hout : forall c, cell_of 20 c = (-1, -1)%Z ->
                           off_road track_mapa 20 c).
  { intros c Hc. left. rewrite Hc. intros [[Hlo _] _]. simpl in Hlo. lia. }
  exists c1, c2, c3.
  split; [reflexivity|]. split; [reflexivity|].
  split; [exact Hu1|]. split; [exact Hu2|]. split; [exact Hu3|].
  split; [exact Hi1|]. split; [exact Hi2|]. split; [exact Hi3|].
  split; [exact (Hout c1 Hc1)|]. split; [exact (Hout c2 Hc2)|].
  split; [exact (Hout c3 Hc3)|].
  exact (proj2 (C4_collision_penalty track_mapa 20 demo_sqrt east_cos
                  east_sin demo_PI demo_predict demo_tape demo_gap demo_log
                  demo_fresh_model)
           lost_car c1 c2 c3 eq_refl eq_refl Hu1 Hu2 Hu3 Hi1 Hi2 Hi3
           (Hout c1 Hc1) (Hout c2 Hc2) (Hout c3 Hc3)).
Defined.

Lemma walled_off : no_finish_reachable walled_mapa (0, 0)%Z.
Proof.
  intros p Hfin Hreach.
  assert (Hp : p = (0, 0)%Z).
  { clear Hfin.
    induction Hreach as [|p d _ IH Hd [[Hrow Hcol] Htile]]; [reflexivity|].
    rewrite IH in *; clear IH.
    repeat (apply elem_of_cons in Hd as [->|Hd]);
      try (inversion Hd; fail);
      unfold len in *; simpl in *; try lia.
    exfalso. apply Htile. reflexivity. }
  subst p. discriminate Hfin.
Qed.

Lemma walled_car_reached :
  Reached walled_mapa 20 demo_sqrt demo_cos demo_sin demo_PI demo_predict
    demo_fresh_model walled_car.
Proof.
  apply (Reached_new walled_mapa 20 demo_sqrt demo_cos demo_sin demo_PI
           demo_predict demo_fresh_model 10 10 (Some zero_brain) 0%nat
           walled_car 0%nat).
  vm_compute. reflexivity.
Qed.

Lemma C6_witness :
  Reached walled_mapa 20 demo_sqrt demo_cos demo_sin demo_PI demo_predict
    demo_fresh_model walled_car
  /\ (no_finish_tile walled_mapa
      \/ no_finish_reachable walled_mapa (cell_of 20 walled_car))
  /\ exists c',
      _bfsDistanceToFinish walled_mapa 20 walled_car = Ok (9999, c')
      /\ _bfs walled_mapa 20 (cell_of 20 walled_car)
           (finish_from 0 walled_mapa) = Ok 9999
      /\ (no_finish_tile walled_mapa -> finish_from 0 walled_mapa = []).
Proof.
  assert (Hn : no_finish_tile walled_mapa
               \/ no_finish_reachable walled_mapa (cell_of 20 walled_car)).
  { right. exact walled_off. }
  split; [exact walled_car_reached|]. split; [exact Hn|].
  exact (C6_no_finish_sentinel walled_mapa 20 demo_sqrt demo_cos demo_sin
           demo_PI demo_predict demo_tape demo_gap demo_log demo_fresh_model
           walled_car walled_car_reached Hn).
Defined.

Lemma last_frame_cars_ok : Forall car_ok (population last_frame_engine).
Proof.
  repeat constructor; intros H; try reflexivity; discriminate H.
Qed.

Lemma C5_witness :
  engine_ok last_frame_engine
  /\ exists e1 n ls ld,
      draw_tick track_mapa 20 demo_sqrt demo_cos demo_sin demo_predict
        last_frame_engine = Ok (e1, n, ls, ld)
      /\ n = count_alive (population e1)
      /\ frameCount_ e1 = (frameCount_ last_frame_engine + 1)%Z
      /\ generation e1 = generation last_frame_engine
      /\ ((n = 0%Z \/ (frameCount_ e1 > MAX_FRAMES)%Z) ->
          exists e2,
            draw track_mapa 20 demo_sqrt demo_cos demo_sin demo_PI
              demo_predict demo_tape demo_gap demo_log demo_fresh_model
              last_frame_engine = Ok e2
            /\ generation e2 = (generation last_frame_engine + 1)%Z
            /\ frameCount_ e2 = 0%Z)
      /\ ((n <> 0%Z /\ (frameCount_ e1 <= MAX_FRAMES)%Z) ->
          draw track_mapa 20 demo_sqrt demo_cos demo_sin demo_PI
            demo_predict demo_tape demo_gap demo_log demo_fresh_model
            last_frame_engine = Ok e1)
      /\ ((n <> 0%Z /\ frameCount_ e1 = MAX_FRAMES) ->
          draw track_mapa 20 demo_sqrt demo_cos demo_sin demo_PI
            demo_predict demo_tape demo_gap demo_log demo_fresh_model
            last_frame_engine = Ok e1
          /\ generation e1 = generation last_frame_engine
          /\ exists e3,
              draw track_mapa 20 demo_sqrt demo_cos demo_sin demo_PI
                demo_predict demo_tape demo_gap demo_log demo_fresh_model
                e1 = Ok e3
              /\ generation e3 = (generation last_frame_engine + 1)%Z).
Proof.
  assert (Hok : engine_ok last_frame_engine).
  { split; [reflexivity|]. split; [discriminate|exact last_frame_cars_ok]. }
  split; [exact Hok|].
  exact (C5_generation_ends_past_the_budget track_mapa 20 demo_sqrt demo_cos
           demo_sin demo_PI demo_predict demo_tape demo_gap demo_log
           demo_fresh_model last_frame_engine Hok).
Defined.

Lemma C8_witness :
  population_ok last_frame_engine
  /\ exists e',
      nextGeneration track_mapa 20 demo_sqrt demo_cos demo_PI demo_tape
        demo_gap demo_log demo_fresh_model last_frame_engine = Ok e' /\
      let ranked := Array_sort by_fitness (population last_frame_engine) in
      ranked ≡ₚ population last_frame_engine
      /\ StronglySorted ranks_before ranked
      /\ (forall v, with_fitness v ranked
                    = with_fitness v (population last_frame_engine))
      /\ mapM (fun c => copiaCerebro (brain c)) (take ELITE_COUNT ranked)
         = Ok (eliteBrains e')
      /\ eliteBrains e' = List.map brain (take ELITE_COUNT ranked)
      /\ length (eliteBrains e')
         = Nat.min 3 (length (population last_frame_engine))
      /\ (forall a b, a ∈ take ELITE_COUNT ranked ->
                      b ∈ drop ELITE_COUNT ranked ->
                      calcularFitness b <= calcularFitness a).
Proof.
  assert (Hok : population_ok last_frame_engine).
  { split; [discriminate|exact last_frame_cars_ok]. }
  split; [exact Hok|].
  exact (C8_elites_are_top_ranked track_mapa 20 demo_sqrt demo_cos demo_sin
           demo_PI demo_tape demo_gap demo_log demo_fresh_model
           last_frame_engine Hok).
Defined.


Lemma spawned_car_reached :
  Reached track_mapa 20 demo_sqrt demo_cos demo_sin demo_PI demo_predict
    demo_fresh_model spawned_car.
Proof.
  apply (Reached_new track_mapa 20 demo_sqrt demo_cos demo_sin demo_PI
           demo_predict demo_fresh_model 30 30 (Some zero_brain) 0%nat
           spawned_car 0%nat).
  vm_compute. reflexivity.
Qed.

Lemma tiles_of_20 : tiles_sized 20.
Proof. intros H. discriminate H. Qed.

Lemma X4_witness :
  tiles_sized 20
  /\ Reached track_mapa 20 demo_sqrt demo_cos demo_sin demo_PI demo_predict
       demo_fresh_model spawned_car
  /\ exists d c',
       _bfsDistanceToFinish track_mapa 20 spawned_car = Ok (d, c')
       /\ (forall n,
             nearest_target track_mapa (cell_of 20 spawned_car)
               (finish_from 0 track_mapa) n ->
             d == inject_Z (Z.of_nat n) * 20)
       /\ (no_finish_reachable track_mapa (cell_of 20 spawned_car) ->
           d = 9999)
       /\ ((exists n,
              nearest_target track_mapa (cell_of 20 spawned_car)
                (finish_from 0 track_mapa) n)
           \/ no_finish_reachable track_mapa (cell_of 20 spawned_car)).
Proof.
  split; [exact tiles_of_20|]. split; [exact spawned_car_reached|].
  exact (X4_distance_is_shortest_path track_mapa 20 demo_sqrt demo_cos
           demo_sin demo_PI demo_predict demo_tape demo_gap demo_log
           demo_fresh_model spawned_car tiles_of_20 spawned_car_reached).
Defined.

Lemma X3_witness :
  Reached walled_mapa 20 demo_sqrt demo_cos demo_sin demo_PI demo_predict
    demo_fresh_model walled_car
  /\ (JsMap.size (_distanceCache walled_car) <= 100)%Z.
Proof.
  split; [exact walled_car_reached|].
  exact (X3_distance_cache_is_bounded walled_mapa 20 demo_sqrt demo_cos
           demo_sin demo_PI demo_predict demo_tape demo_gap demo_log
           demo_fresh_model walled_car walled_car_reached).
Defined.

(** ** The further properties on examples *)

Example track_spawn_and_finish :
  let s := detectSpawnAndFinish track_mapa 20 (initial_sketch None 0%nat) in
  spawnPoint (engine s) = p5.createVector (1 * 20 + 20 / 2) (1 * 20 + 20 / 2)
  /\ finishLine s = FinishLine.mk 1 3 3.
Proof. split; reflexivity. Qed.

(** A finish line that starts in row 0 and column 0 is recorded with the
    column after. *)
Example edge_finish_line :
  finishLine (detectSpawnAndFinish edge_mapa 20 (initial_sketch None 0%nat))
  = FinishLine.mk 0 1 2.
Proof. reflexivity. Qed.

Example three_times_faster :
  match keyPressed track_mapa 20 demo_sqrt demo_cos demo_PI demo_tape
          demo_gap demo_log demo_fresh_model "+" steady_page with
  | Ok s1 =>
      match keyPressed track_mapa 20 demo_sqrt demo_cos demo_PI demo_tape
              demo_gap demo_log demo_fresh_model "=" s1 with
      | Ok s2 =>
          match keyPressed track_mapa 20 demo_sqrt demo_cos demo_PI
                  demo_tape demo_gap demo_log demo_fresh_model "+" s2 with
          | Ok s3 => currentFPS s1 == 120 /\ currentFPS s2 == 240
                     /\ currentFPS s3 == 240
          | Throw _ => False
          end
      | Throw _ => False
      end
  | Throw _ => False
  end.
Proof. vm_compute. repeat split; reflexivity. Qed.

Lemma other_pesos_exported : other_pesos = exportarPesos other_brain.
Proof. reflexivity. Qed.

Lemma zero_brain_topology : topology_9_5_2 zero_brain.
Proof. split; [reflexivity|]. repeat constructor. Qed.

Lemma other_brain_topology : topology_9_5_2 other_brain.
Proof. split; [reflexivity|]. repeat constructor. Qed.


Lemma demo_tape_unit : unit_tape demo_tape.
Proof.
  intros k. unfold demo_tape.
  set (m := ((7 * k + 3) mod 10)%nat).
  assert (Hm : (m < 10)%nat) by (apply Nat.mod_upper_bound; lia).
  unfold Qle, Qlt, Qdiv, Qmult, Qinv, inject_Z. simpl. lia.
Qed.

Lemma demo_gap_ok : gap_ok demo_tape demo_gap.
Proof.
  intros n. unfold demo_gap, demo_tape.
  assert (Hnz : forall m : nat, m <> 0%nat ->
            ~ inject_Z (Z.of_nat m) / 10 == 0).
  { intros m Hm. unfold Qeq, Qdiv, Qmult, Qinv, inject_Z. simpl. lia. }
  destruct (Nat.eq_dec ((7 * n + 3) mod 10) 0)%nat as [E|E].
  - exists 1%nat. split; [lia|]. apply Hnz.
    pose proof (Nat.div_mod_eq (7 * n + 3) 10)%nat as H1.
    pose proof (Nat.div_mod_eq (7 * (n + 1) + 3) 10)%nat as H2.
    pose proof (Nat.mod_upper_bound (7 * (n + 1) + 3) 10)%nat as H3. lia.
  - exists 0%nat. split; [lia|]. rewrite Nat.add_0_r. apply Hnz, E.
Qed.

Lemma demo_tanh_unit (v : Q) : -1 <= demo_tanh v <= 1.
Proof.
  unfold demo_tanh. split; [apply Q.le_max_l|].
  apply Q.max_lub; [discriminate|apply Q.le_min_l].
Qed.

Lemma unit_world_bounded : bounded_world unit_cos unit_sin demo_predict.
Proof.
  split; [|split].
  - intros m i. unfold demo_predict.
    destruct (getWeights m) as [|k1 [|b1 [|k2 [|b2 [|? ?]]]]];
      try (simpl; split; discriminate).
    cbn [snd].
    assert (H : forall inp, -1 <= nth 1 (demo_dense inp k2 b2) 0 <= 1).
    { intros inp. unfold demo_dense. rewrite nth_lookup, list_lookup_imap.
      destruct (dataSync b2 !! 1%nat); simpl;
        [apply demo_tanh_unit|split; discriminate]. }
    apply H.
  - intros a. unfold unit_cos. split; [apply Q.le_max_l|].
    apply Q.max_lub; [discriminate|apply Q.le_min_l].
  - intros a. unfold unit_sin. split; [apply Q.le_max_l|].
    apply Q.max_lub; [discriminate|apply Q.le_min_l].
Qed.

Lemma spawned_car_in_unit_world :
  Reached track_mapa 20 demo_sqrt unit_cos unit_sin demo_PI demo_predict
    demo_fresh_model spawned_car.
Proof.
  apply (Reached_new track_mapa 20 demo_sqrt unit_cos unit_sin demo_PI
           demo_predict demo_fresh_model 30 30 (Some zero_brain) 0%nat
           spawned_car 0%nat).
  vm_compute. reflexivity.
Qed.

Lemma spawned_car_built :
  new_Car track_mapa 20 demo_PI demo_fresh_model 30 30 (Some zero_brain)
    0%nat
  = Ok (spawned_car, 0%nat).
Proof. vm_compute. reflexivity. Qed.

Lemma steady_cars :
  Forall
    (fun c =>
       Reached track_mapa 20 demo_sqrt demo_cos demo_sin demo_PI
         demo_predict demo_fresh_model c
       /\ topology_9_5_2 (brain c))
    (population steady_engine).
Proof.
  apply Forall_replicate. split;
    [exact spawned_car_reached|exact zero_brain_topology].
Qed.

Lemma steady_running :
  running track_mapa 20 demo_sqrt demo_cos demo_sin demo_PI demo_predict
    demo_fresh_model steady_engine.
Proof.
  split; [reflexivity|]. split; [reflexivity|]. split; [exact steady_cars|].
  split; [unfold MAX_FRAMES; simpl; lia|]. split; [simpl; lia|].
  split; [simpl; lia|]. split; [discriminate|exact I].
Qed.



Lemma X5_witness :
  Reached track_mapa 20 demo_sqrt demo_cos demo_sin demo_PI demo_predict
    demo_fresh_model spawned_car
  /\ (0 <= collisions spawned_car <= 3)%Z
  /\ (0 <= idleFrames spawned_car <= 301)%Z
  /\ (idleFrames spawned_car <= framesAlive spawned_car)%Z
  /\ (alive spawned_car = true ->
      (collisions spawned_car <= 2)%Z /\ (idleFrames spawned_car <= 300)%Z)
  /\ bestDist spawned_car <= distToFinish spawned_car.
Proof.
  split; [exact spawned_car_reached|].
  exact (X5_counters_stay_in_bounds track_mapa 20 demo_sqrt demo_cos
           demo_sin demo_PI demo_predict demo_tape demo_gap demo_log
           demo_fresh_model spawned_car spawned_car_reached).
Defined.

Lemma X6_witness :
  Reached track_mapa 20 demo_sqrt demo_cos demo_sin demo_PI demo_predict
    demo_fresh_model spawned_car
  /\ new_Car track_mapa 20 demo_PI demo_fresh_model 30 30 (Some zero_brain)
       0%nat = Ok (spawned_car, 0%nat)
  /\ reset track_mapa 20 30 30 spawned_car
     = Ok (tt, respawned spawned_car spawned_car).
Proof.
  split; [exact spawned_car_reached|]. split; [exact spawned_car_built|].
  exact (X6_reset_restores_the_spawn_state track_mapa 20 demo_sqrt demo_cos
           demo_sin demo_PI demo_predict demo_tape demo_gap demo_log
           demo_fresh_model 30 30 spawned_car (Some zero_brain) 0%nat
           spawned_car 0%nat spawned_car_reached spawned_car_built).
Defined.

Lemma X8_witness :
  Reached track_mapa 20 demo_sqrt demo_cos demo_sin demo_PI demo_predict
    demo_fresh_model spawned_car
  /\ exists ts c1,
       _finishTiles track_mapa spawned_car = Ok (ts, c1)
       /\ NoDup ts /\ (forall p, p ∈ ts <-> finish_tile track_mapa p)
       /\ c1 = set_finishCache (Some ts) spawned_car
       /\ _finishTiles track_mapa c1 = Ok (ts, c1).
Proof.
  split; [exact spawned_car_reached|].
  exact (X8_finish_tiles_listed_once track_mapa 20 demo_sqrt demo_cos
           demo_sin demo_PI demo_predict demo_tape demo_gap demo_log
           demo_fresh_model spawned_car spawned_car_reached).
Defined.


Lemma X10_witness :
  bounded_world unit_cos unit_sin demo_predict
  /\ Reached track_mapa 20 demo_sqrt unit_cos unit_sin demo_PI demo_predict
       demo_fresh_model spawned_car
  /\ speed_ok spawned_car
  /\ forall c',
       update track_mapa 20 demo_sqrt unit_cos unit_sin demo_predict
         spawned_car = Ok (tt, c') ->
       - (57 # 10) <= x c' - x spawned_car <= 57 # 10
       /\ - (57 # 10) <= y c' - y spawned_car <= 57 # 10.
Proof.
  split; [exact unit_world_bounded|]. split; [exact spawned_car_in_unit_world|].
  exact (X10_speed_limit track_mapa 20 demo_sqrt unit_cos unit_sin demo_PI
           demo_predict demo_tape demo_gap demo_log demo_fresh_model
           spawned_car unit_world_bounded spawned_car_in_unit_world).
Defined.

Lemma X11_witness :
  unit_tape demo_tape /\ 0 <= 0 /\ brain_ok other_brain
  /\ mutar demo_sqrt demo_cos demo_PI demo_tape demo_gap demo_log 0
       other_brain 4%nat
     = Ok (other_brain, (4 + weight_count other_brain)%nat).
Proof.
  split; [exact demo_tape_unit|]. split; [discriminate|].
  split; [exact (proj2 other_brain_topology)|].
  apply (X11_mutation_rate_zero demo_sqrt demo_cos demo_PI demo_tape
           demo_gap demo_log 0 other_brain 4%nat demo_tape_unit).
  - discriminate.
  - exact (proj2 other_brain_topology).
Defined.

Lemma X12_witness :
  gap_ok demo_tape demo_gap /\ brain_ok other_brain
  /\ exists b' n',
       mutar demo_sqrt demo_cos demo_PI demo_tape demo_gap demo_log
         MUTATION_RATE other_brain 0%nat = Ok (b', n')
       /\ List.map shape (getWeights (model b'))
          = List.map shape (getWeights (model other_brain))
       /\ brain_ok b'
       /\ weight_count b' = weight_count other_brain
       /\ (0 + weight_count other_brain <= n')%nat.
Proof.
  split; [exact demo_gap_ok|]. split; [exact (proj2 other_brain_topology)|].
  exact (X12_mutation_keeps_topology demo_sqrt demo_cos demo_PI demo_tape
           demo_gap demo_log MUTATION_RATE other_brain 0%nat demo_gap_ok
           (proj2 other_brain_topology)).
Defined.

Lemma other_pesos_float32 : Forall (Forall float32) (values other_pesos).
Proof.
  assert (H0 : float32 0) by (exists 0%Z, 0%Z; repeat split; lia).
  repeat constructor; try exact H0; try (apply Forall_replicate; exact H0).
  - exists 1%Z, (-1)%Z. repeat split; lia.
  - exists (-1)%Z, (-2)%Z. repeat split; lia.
  - exists 1%Z, 0%Z. repeat split; lia.
  - exists 1%Z, 1%Z. repeat split; lia.
Qed.

Lemma X13_witness :
  Forall (Forall float32) (values other_pesos)
  /\ importarPesos zero_brain other_pesos = Ok other_brain
  /\ values (exportarPesos other_brain) = values other_pesos
  /\ shapes (exportarPesos other_brain) = shapes (exportarPesos zero_brain)
  /\ shapes (exportarPesos other_brain) = shapes_read other_pesos
  /\ brain_ok other_brain
  /\ (length (shapes other_pesos) = length (values other_pesos) ->
      exportarPesos other_brain = other_pesos).
Proof.
  split; [exact other_pesos_float32|]. split; [reflexivity|].
  exact (X13_import_then_export zero_brain other_brain other_pesos
           other_pesos_float32 eq_refl).
Defined.

Lemma X14_witness :
  gap_ok demo_tape demo_gap
  /\ exists i j,
       (1 <= i < j)%nat
       /\ randn_bm demo_sqrt demo_cos demo_PI demo_tape demo_gap demo_log
            1%nat
          = (demo_sqrt (-2.0 * demo_log (demo_tape i))
             * demo_cos (2.0 * demo_PI * demo_tape j), S j)
       /\ ~ demo_tape i == 0 /\ ~ demo_tape j == 0
       /\ forall k, (1 <= k < j)%nat -> k <> i -> demo_tape k == 0.
Proof.
  split; [exact demo_gap_ok|].
  exact (X14_normal_draw_skips_zeros demo_sqrt demo_cos demo_PI demo_tape
           demo_gap demo_log 1%nat demo_gap_ok).
Defined.

Lemma X15_witness :
  0 < 20
  /\ exists p,
       tile track_mapa p = Some 3%Z
       /\ spawnPoint
            (engine (detectSpawnAndFinish track_mapa 20 (initial_sketch None 0%nat)))
          = centre 20 p
       /\ forall b c,
            spawned track_mapa 20 demo_PI demo_fresh_model
              (p5.x (centre 20 p)) (p5.y (centre 20 p)) b c ->
            cell_of 20 c = p.
Proof.
  split; [reflexivity|].
  destruct (X15_spawn_point_is_on_the_last_spawn_tile track_mapa 20
              demo_sqrt demo_cos demo_sin demo_PI demo_predict demo_tape
              demo_gap demo_log demo_fresh_model (initial_sketch None 0%nat)
              eq_refl)
    as [[Hnone _]|(p & Hp & _ & Hsp & _ & Hcars)].
  - exfalso. exact (Hnone (1, 1)%Z eq_refl).
  - exists p. split; [exact Hp|]. split; [exact Hsp|].
    intros b c Hc. rewrite <- Hsp in Hc. exact (proj1 (Hcars b c Hc)).
Defined.

Lemma X17_witness :
  tiles_sized 20 /\ gap_ok demo_tape demo_gap
  /\ running track_mapa 20 demo_sqrt demo_cos demo_sin demo_PI demo_predict
       demo_fresh_model steady_engine
  /\ exists e',
       draw track_mapa 20 demo_sqrt demo_cos demo_sin demo_PI demo_predict
         demo_tape demo_gap demo_log demo_fresh_model steady_engine = Ok e'
       /\ running track_mapa 20 demo_sqrt demo_cos demo_sin demo_PI
            demo_predict demo_fresh_model e'
       /\ bestScoreEver steady_engine <= bestScoreEver e'.
Proof.
  split; [exact tiles_of_20|]. split; [exact demo_gap_ok|].
  split; [exact steady_running|].
  destruct (X17_frame_keeps_the_simulation_running track_mapa 20 demo_sqrt
              demo_cos demo_sin demo_PI demo_predict demo_tape demo_gap
              demo_log demo_fresh_model steady_engine tiles_of_20
              demo_gap_ok steady_running)
    as (e' & Hd & Hr & Hb & _).
  exists e'. split; [exact Hd|]. split; [exact Hr|exact Hb].
Defined.







Lemma spawned_car_moves :
  update track_mapa 20 demo_sqrt east_cos east_sin full_throttle spawned_car
  = Ok (tt, moved_car).
Proof. vm_compute. reflexivity. Qed.

Lemma X27_witness :
  alive spawned_car = true
  /\ update track_mapa 20 demo_sqrt east_cos east_sin full_throttle
       spawned_car = Ok (tt, moved_car)
  /\ exists rot throttle,
       mapM (_sensorReading track_mapa 20 east_cos east_sin spawned_car)
         (sensors spawned_car) = Ok (readings moved_car)
       /\ pensar full_throttle (brain spawned_car)
            (inputs_of (readings moved_car)) = (rot, throttle)
       /\ angle moved_car = angle spawned_car + rot * 0.1
       /\ vel moved_car
          = p5.mult
              (p5.add (vel spawned_car)
                 (p5.mult (fromAngle east_cos east_sin (angle moved_car))
                    (throttle * 0.3)))
              0.95
       /\ x moved_car = x spawned_car + p5.x (vel moved_car)
       /\ y moved_car = y spawned_car + p5.y (vel moved_car)
       /\ lastPosition moved_car
          = p5.createVector (x spawned_car) (y spawned_car)
       /\ distanceTravelled moved_car
          = distanceTravelled spawned_car
            + dist demo_sqrt (x spawned_car) (y spawned_car)
                (p5.x (lastPosition spawned_car))
                (p5.y (lastPosition spawned_car))
       /\ framesAlive moved_car = (framesAlive spawned_car + 1)%Z
       /\ brain moved_car = brain spawned_car
       /\ sensors moved_car = sensors spawned_car.
Proof.
  split; [reflexivity|]. split; [exact spawned_car_moves|].
  exact (X27_motion_of_a_tick track_mapa 20 demo_sqrt east_cos east_sin
           demo_PI full_throttle demo_tape demo_gap demo_log
           demo_fresh_model spawned_car moved_car eq_refl
           spawned_car_moves).
Defined.

Lemma X30_witness :
  population (engine steady_page) <> []
  /\ exists h,
       draw_hud track_mapa 20 demo_sqrt demo_cos demo_sin demo_predict
         steady_page = Ok h
       /\ hud_total h = 30%Z
       /\ (0 <= hud_alive h <= hud_total h)%Z
       /\ hud_time h = 1%Z.
Proof.
  split; [discriminate|].
  destruct (X30_hud_of_a_frame track_mapa 20 demo_sqrt demo_cos demo_sin
              demo_PI demo_predict demo_tape demo_gap demo_log
              demo_fresh_model steady_page)
    as (h & Hrun & Ht & Ha & _ & Htime & _); [discriminate|].
  exists h. split; [exact Hrun|]. split; [exact Ht|].
  split; [exact Ha|exact Htime].
Defined.

Lemma spawned_car_drivable : drivable spawned_car.
Proof. split; [reflexivity|exact zero_brain_topology]. Qed.

Lemma X1_witness :
  tiles_sized 20 /\ drivable spawned_car
  /\ exists c',
       update_move track_mapa 20 demo_sqrt demo_cos demo_sin demo_predict
         spawned_car = Ok c'
       /\ length (readings c') = 9%nat
       /\ Forall (fun r => 0 <= r <= 200) (readings c')
       /\ Forall (fun i => 0 <= i <= 1) (inputs_of (readings c')).
Proof.
  split; [exact tiles_of_20|]. split; [exact spawned_car_drivable|].
  destruct (X1_sensor_readings_in_range track_mapa 20 demo_sqrt demo_cos
              demo_sin demo_predict spawned_car tiles_of_20
              spawned_car_drivable)
    as (c' & Hm & Hl & Hr & Hi & _).
  exists c'. split; [exact Hm|]. split; [exact Hl|].
  split; [exact Hr|exact Hi].
Defined.

Lemma X2_witness :
  tiles_sized 20 /\ drivable spawned_car
  /\ (exists c',
        update track_mapa 20 demo_sqrt demo_cos demo_sin demo_predict
          spawned_car = Ok (tt, c')
        /\ drivable c')
  /\ forall n, exists cn,
       ticks track_mapa 20 demo_sqrt demo_cos demo_sin demo_predict n
         spawned_car = Ok cn
       /\ drivable cn.
Proof.
  split; [exact tiles_of_20|]. split; [exact spawned_car_drivable|].
  exact (X2_update_never_raises track_mapa 20 demo_sqrt demo_cos demo_sin
           demo_PI demo_predict demo_tape demo_gap demo_log demo_fresh_model
           spawned_car tiles_of_20 spawned_car_drivable).
Defined.

Lemma X26_witness :
  tiles_sized 20
  /\ exists r,
       _sensorReading track_mapa 20 east_cos east_sin spawned_car 0 = Ok r
       /\ ((r = 200
            /\ forall j, (j < 40)%nat ->
                 ~ ray_blocked track_mapa 20 east_cos east_sin spawned_car
                     (angle spawned_car + 0) (5 * Z.of_nat j)%Z)
           \/ exists k, (k < 40)%nat
                /\ r = inject_Z (5 * Z.of_nat k)
                /\ ray_blocked track_mapa 20 east_cos east_sin spawned_car
                     (angle spawned_car + 0) (5 * Z.of_nat k)%Z
                /\ forall j, (j < k)%nat ->
                     ~ ray_blocked track_mapa 20 east_cos east_sin
                         spawned_car (angle spawned_car + 0)
                         (5 * Z.of_nat j)%Z).
Proof.
  split; [exact tiles_of_20|].
  exact (X26_sensor_stops_at_first_blocked_sample track_mapa 20 east_cos
           east_sin spawned_car 0 tiles_of_20).
Defined.

Lemma steady_cars_drivable : Forall drivable (population steady_engine).
Proof. apply Forall_replicate. exact spawned_car_drivable. Qed.

Lemma X29_witness :
  tiles_sized 20 /\ Forall drivable (population steady_engine)
  /\ exists e1 n ls ld,
       draw_tick track_mapa 20 demo_sqrt demo_cos demo_sin demo_predict
         steady_engine = Ok (e1, n, ls, ld)
       /\ first_leader (population e1) ld.
Proof.
  split; [exact tiles_of_20|]. split; [exact steady_cars_drivable|].
  exact (X29_leader_is_the_first_of_the_best track_mapa 20 demo_sqrt
           demo_cos demo_sin demo_PI demo_predict demo_tape demo_gap
           demo_log demo_fresh_model steady_engine tiles_of_20
           steady_cars_drivable).
Defined.
